(** * viagen: the secure workspace access layer

    A shallow embedding of [src/files.ts] (the editable-path resolver) and
    [src/git.ts] (the change-aggregation engine), and the properties of
    the specification that concern them.

    Conventions of the embedding:
    - JavaScript strings are [string], the bytes of their UTF-8 encoding,
      a surrogate without its pair being held as the three bytes of its
      code unit; line counts and totals are [Z].
    - Code that reaches the host (filesystem, git child processes) runs in
      the effect type [Eff]: a result or a thrown exception, together with
      the list of host calls performed, in order.
    - What the host answers is read from a [Host] record, which also
      carries the functions imported from [node:path] and the platform's
      [localeCompare]; none of them is code of this repository.
    - The two variables captured by [registerGitRoutes] are passed
      explicitly, as a [RepoState].

    The routes of [src/files.ts], the log buffer of [src/logger.ts] and
    the handlers of [src/logs.ts], [src/health.ts] and [src/oauth.ts] are
    embedded after them, in the same manner. *)

From Stdlib Require Import ZArith QArith List Ascii String DecimalString
  Sorted Permutation Lia.
From stdpp Require Import base option list strings gmap.

Open Scope string_scope.
Open Scope list_scope.
Open Scope Z_scope.

Set Warnings "-register-all".

(** ** JavaScript strings *)

Definition newline : ascii := ascii_of_nat 10.

Definition nl : string := String newline EmptyString.

Definition slash : ascii := "/"%char.

(** [s.startsWith(p)] *)
Definition startsWith (s p : string) : bool := String.prefix p s.

(** A string is truthy when it is not empty. *)
Definition truthy (s : string) : bool :=
  match s with EmptyString => false | String _ _ => true end.

(** [s.split(sep)] for a one-character separator: the pieces between the
    occurrences of [sep], always at least one piece. *)
Fixpoint split (sep : ascii) (s : string) : list string :=
  match s with
  | EmptyString => [EmptyString]
  | String c s' =>
      if Ascii.eqb c sep then EmptyString :: split sep s'
      else
        match split sep s' with
        | piece :: rest => String c piece :: rest
        | [] => [String c EmptyString]
        end
  end.

(** The number of occurrences of a character. *)
Fixpoint occurrences (c : ascii) (s : string) : nat :=
  match s with
  | EmptyString => 0%nat
  | String c' s' =>
      if Ascii.eqb c' c then S (occurrences c s') else occurrences c s'
  end.

(** [String(n)] for a natural number: its decimal digits. *)
Definition number_to_string (n : nat) : string :=
  NilZero.string_of_uint (Nat.to_uint n).

(** The value of a byte. *)
Definition byte (c : ascii) : N := N_of_ascii c.

(** The white space and line terminators of ECMAScript, in UTF-8: those
    of one byte (U+0009 to U+000D, U+0020), of two (U+00A0) and of three
    (U+1680, U+2000 to U+200A, U+2028, U+2029, U+202F, U+205F, U+3000,
    U+FEFF). *)
Definition space1 (c1 : ascii) : bool :=
  ((9 <=? byte c1) && (byte c1 <=? 13) || (byte c1 =? 32))%N.

Definition space2 (c1 c2 : ascii) : bool :=
  ((byte c1 =? 194) && (byte c2 =? 160))%N.

Definition space3 (c1 c2 c3 : ascii) : bool :=
  ((byte c1 =? 225) && (byte c2 =? 154) && (byte c3 =? 128)
   || (byte c1 =? 226) && (byte c2 =? 128)
      && ((128 <=? byte c3) && (byte c3 <=? 138)
          || (byte c3 =? 168) || (byte c3 =? 169) || (byte c3 =? 175))
   || (byte c1 =? 226) && (byte c2 =? 129) && (byte c3 =? 159)
   || (byte c1 =? 227) && (byte c2 =? 128) && (byte c3 =? 128)
   || (byte c1 =? 239) && (byte c2 =? 187) && (byte c3 =? 191))%N.

(** [s.trimStart()] *)
Fixpoint trimStart (s : string) : string :=
  match s with
  | String c1 s1 =>
      if space1 c1 then trimStart s1
      else
        match s1 with
        | String c2 s2 =>
            if space2 c1 c2 then trimStart s2
            else
              match s2 with
              | String c3 s3 =>
                  if space3 c1 c2 c3 then trimStart s3 else s
              | EmptyString => s
              end
        | EmptyString => s
        end
  | EmptyString => EmptyString
  end.

(** [s.trimEnd()]: the string is cut where what remains is white space
    only. *)
Fixpoint trimEnd (s : string) : string :=
  match s with
  | String c s' =>
      if truthy (trimStart s) then String c (trimEnd s') else EmptyString
  | EmptyString => EmptyString
  end.

(** [s.trim()] *)
Definition trim (s : string) : string := trimEnd (trimStart s).

(** The UTF-16 code units of a string: one per code point below U+10000,
    a surrogate pair above; a byte that begins no well-formed sequence is
    read as U+FFFD. *)
Definition continuation (c : ascii) : bool :=
  ((128 <=? byte c) && (byte c <? 192))%N.

Definition units_of_code_point (cp : N) : list N :=
  (if cp <? 65536 then [cp]
   else [55296 + (cp - 65536) / 1024; 56320 + (cp - 65536) mod 1024])%N.

Fixpoint code_units (s : string) : list N :=
  match s with
  | EmptyString => []
  | String c1 s1 =>
      if (byte c1 <? 128)%N then byte c1 :: code_units s1
      else
        match s1 with
        | String c2 s2 =>
            if ((192 <=? byte c1) && (byte c1 <? 224))%N && continuation c2
            then ((byte c1 - 192) * 64 + (byte c2 - 128))%N :: code_units s2
            else
              match s2 with
              | String c3 s3 =>
                  if ((224 <=? byte c1) && (byte c1 <? 240))%N
                     && continuation c2 && continuation c3
                  then ((byte c1 - 224) * 4096 + (byte c2 - 128) * 64
                        + (byte c3 - 128))%N :: code_units s3
                  else
                    match s3 with
                    | String c4 s4 =>
                        if ((240 <=? byte c1) && (byte c1 <? 248))%N
                           && continuation c2 && continuation c3
                           && continuation c4
                        then
                          units_of_code_point
                            ((byte c1 - 240) * 262144 + (byte c2 - 128) * 4096
                             + (byte c3 - 128) * 64 + (byte c4 - 128))%N
                          ++ code_units s4
                        else 65533%N :: code_units s1
                    | EmptyString => 65533%N :: code_units s1
                    end
              | EmptyString => 65533%N :: code_units s1
              end
        | EmptyString => [65533%N]
        end
  end.

(** The order of two sequences of code units: by the first unit that
    differs, a proper prefix coming first. *)
Fixpoint compare_lists (a b : list N) : comparison :=
  match a, b with
  | [], [] => Eq
  | [], _ :: _ => Lt
  | _ :: _, [] => Gt
  | x :: a', y :: b' =>
      match (x ?= y)%N with
      | Eq => compare_lists a' b'
      | c => c
      end
  end.

(** ** Host calls and their trace *)

Inductive GitCmd :=
| Revparse (args : list string)
| Status
| DiffSummary (args : list string)
| Diff (args : list string).

Inductive Event :=
| EvStat (p : string)
| EvReaddir (p : string)
| EvReadFile (p : string)
| EvGit (cmd : GitCmd).

(** A computation yields a value or throws ([None]), and records the host
    calls it made. *)
Definition Eff (A : Type) : Type := (option A * list Event)%type.

Definition ret {A} (a : A) : Eff A := (Some a, []).

Definition bind {A B} (m : Eff A) (k : A -> Eff B) : Eff B :=
  match fst m with
  | Some a => (fst (k a), snd m ++ snd (k a))
  | None => (None, snd m)
  end.

(** [try { m } catch { h }] *)
Definition try_catch {A} (m : Eff A) (h : Eff A) : Eff A :=
  match fst m with
  | Some a => m
  | None => (fst h, snd m ++ snd h)
  end.

(** One host call, answered by [r]; [None] when the call throws. *)
Definition perform {A} (e : Event) (r : option A) : Eff A := (r, [e]).

(** A step that makes no host call but may throw. *)
Definition of_option {A} (o : option A) : Eff A := (o, []).

(** [Promise.all([m1, m2])]: both calls are issued; the result is rejected
    when either is. *)
Definition promise_all {A B} (m1 : Eff A) (m2 : Eff B) : Eff (A * B) :=
  (match fst m1, fst m2 with
   | Some a, Some b => Some (a, b)
   | _, _ => None
   end, snd m1 ++ snd m2).

Notation "x <- m ;; k" := (bind m (fun x => k))
  (at level 100, m at next level, right associativity).

(** ** The host *)

(** What the filesystem holds at a path: a regular file, a directory with
    its entries ([None] when the directory cannot be read), or something
    else (socket, device, dangling link). *)
Inductive Node :=
| NFile
| NOther
| NDir (entries : option (list (string * Node))).

(** [stat.isDirectory()], [entry.isDirectory()] *)
Definition isDirectory (n : Node) : bool :=
  match n with NDir _ => true | _ => false end.

(** [stat.isFile()], [entry.isFile()] *)
Definition isFile (n : Node) : bool :=
  match n with NFile => true | _ => false end.

Record RenamedFile := { rn_from : string; rn_to : string }.

(** The fields of simple-git's [StatusResult] that the code reads. *)
Record StatusResult := {
  modified : list string;
  created : list string;
  deleted : list string;
  renamed : list RenamedFile;
  not_added : list string }.

(** One entry of a diff summary; the counts are those of a text file and
    are not read when the entry is binary. *)
Record DiffFile := {
  df_file : string;
  df_binary : bool;
  df_insertions : Z;
  df_deletions : Z }.

Record DiffResult := { df_files : list DiffFile }.

(** A simple-git client bound to a directory: what each command answers,
    [None] when the command is rejected. *)
Record SimpleGit := {
  git_revparse : list string -> option string;
  git_status : option StatusResult;
  git_diffSummary : list string -> option DiffResult;
  git_diff : list string -> option string }.

Record Host := {
  (* node:path *)
  resolve : string -> string -> string;
  join : string -> string -> string;
  relative : string -> string -> string;
  (* String.prototype.localeCompare: negative, zero or positive *)
  localeCompare : string -> string -> Z;
  (* whether a call can spread that many arguments, as
     [results.push(...items)] does; past the limit of the engine the call
     throws a RangeError *)
  spread_ok : nat -> bool;
  (* node:fs: what is at a path (None: statSync throws), the content of a
     file (None: readFileSync throws) *)
  fs_node : string -> option Node;
  fs_read : string -> option string;
  (* simpleGit(dir); None when it throws *)
  simpleGit : string -> option SimpleGit }.

(** ** Arrays and sets *)

(** [Array.prototype.sort(cmp)]: a stable sort by the comparator. *)
Fixpoint insert_by {A} (cmp : A -> A -> Z) (x : A) (l : list A) : list A :=
  match l with
  | [] => [x]
  | y :: l' => if cmp x y <=? 0 then x :: l else y :: insert_by cmp x l'
  end.

Definition sort_by {A} (cmp : A -> A -> Z) (l : list A) : list A :=
  foldr (insert_by cmp) [] l.

(** Keep the elements whose key has not been seen yet, adding each kept
    key to [seen]: a filter over a mutable [Set], and, with the identity
    as key, the elements of [new Set(l)] in insertion order. *)
Fixpoint filter_seen {A} (key : A -> string) (seen : gset string)
    (l : list A) : list A :=
  match l with
  | [] => []
  | x :: l' =>
      if decide (key x ∈ seen) then filter_seen key seen l'
      else x :: filter_seen key ({[key x]} ∪ seen) l'
  end.

(** The default comparator of [sort()]: by code units. *)
Definition compare_units (a b : string) : Z :=
  match compare_lists (code_units a) (code_units b) with
  | Lt => -1
  | Eq => 0
  | Gt => 1
  end.

(** ** src/files.ts *)

Section Files.
Variable H : Host.

Definition statSync (p : string) : Eff Node :=
  perform (EvStat p) (fs_node H p).

(** [readdirSync(dir, { withFileTypes: true })], where [n] is what the
    filesystem holds at [dir]. *)
Definition readdirSync (dir : string) (n : Node)
  : Eff (list (string * Node)) :=
  perform (EvReaddir dir)
    (match n with NDir (Some es) => Some es | _ => None end).

Definition readFileSync (p : string) : Eff string :=
  perform (EvReadFile p) (fs_read H p).

(** The loop of [collectFiles] over the entries of [dir], [recur] being
    the recursive call and [results] the array filled so far. When
    [results.push(...sub)] throws, [sub] being too long to be spread, the
    [try] ends there: the handler is empty and [results] is returned as
    filled so far. *)
Definition collect_entries (recur : Node -> string -> Eff (list string))
    (dir projectRoot : string)
  : list (string * Node) -> list string -> Eff (list string) :=
  fix loop (es : list (string * Node)) (results : list string)
      {struct es} : Eff (list string) :=
    match es with
    | [] => ret results
    | (name, child) :: es' =>
        let fullPath := join H dir name in
        if isDirectory child then
          if (name =? "node_modules")%string || (name =? ".git")%string
          then loop es' results
          else
            sub <- recur child fullPath ;;
            if spread_ok H (length sub) then loop es' (results ++ sub)
            else ret results
        else if isFile child then
          loop es' (results ++ [relative H projectRoot fullPath])
        else loop es' results
    end.

(** [collectFiles(dir, projectRoot)], [n] being the directory tree at
    [dir]. [readdirSync] throws before anything is pushed, so that the
    handler returns the empty [results]; a push that throws is dealt with
    in the loop. *)
Fixpoint collectFiles (n : Node) (dir projectRoot : string) {struct n}
  : Eff (list string) :=
  try_catch
    (match n with
     | NDir (Some entries) =>
         _ <- readdirSync dir n ;;
         collect_entries
           (fun child fullPath => collectFiles child fullPath projectRoot)
           dir projectRoot entries []
     | _ => _ <- readdirSync dir n ;; ret []
     end)
    (ret []).

Definition resolveEditablePatterns (patterns : list string)
    (projectRoot : string) : list string :=
  map (fun p => resolve H projectRoot p) patterns.

(** The loop of [resolveEditableFiles], [files] being the array filled so
    far. When [files.push(...sub)] throws, the handler skips the
    pattern. *)
Fixpoint resolveEditableFiles_loop (resolvedPatterns : list string)
    (projectRoot : string) (files : list string) : Eff (list string) :=
  match resolvedPatterns with
  | [] => ret files
  | abs :: rest =>
      files' <- try_catch
                  (stat <- statSync abs ;;
                   if isDirectory stat then
                     sub <- collectFiles stat abs projectRoot ;;
                     if spread_ok H (length sub) then ret (files ++ sub)
                     else of_option None
                   else if isFile stat then
                     ret (files ++ [relative H projectRoot abs])
                   else ret files)
                  (ret files) ;;
      resolveEditableFiles_loop rest projectRoot files'
  end.

Definition resolveEditableFiles (resolvedPatterns : list string)
    (projectRoot : string) : Eff (list string) :=
  files <- resolveEditableFiles_loop resolvedPatterns projectRoot [] ;;
  ret (sort_by compare_units (filter_seen id ∅ files)).

(** The loop of [isPathAllowed]; [hit] is whether the body returned true. *)
Fixpoint isPathAllowed_loop (abs : string) (resolvedPatterns : list string)
  : Eff bool :=
  match resolvedPatterns with
  | [] => ret false
  | patternAbs :: rest =>
      hit <- try_catch
               (stat <- statSync patternAbs ;;
                if isDirectory stat then
                  ret (startsWith abs (patternAbs +:+ "/"))
                else ret (abs =? patternAbs)%string)
               (ret (startsWith abs (patternAbs +:+ "/")
                     || (abs =? patternAbs)%string)) ;;
      if hit then ret true else isPathAllowed_loop abs rest
  end.

Definition isPathAllowed (requestedPath : string)
    (resolvedPatterns : list string) (projectRoot : string) : Eff bool :=
  if startsWith requestedPath "/" then ret false
  else
    let abs := resolve H projectRoot requestedPath in
    isPathAllowed_loop abs resolvedPatterns.

End Files.

(** ** JSON values and responses *)

Inductive json :=
| JBool (b : bool)
| JNum (n : Z)
| JStr (s : string)
| JArr (items : list json)
| JObj (fields : list (string * json)).

(** The value of a field of an object, when present. *)
Fixpoint assoc (k : string) (fields : list (string * json)) : option json :=
  match fields with
  | [] => None
  | (k', v) :: rest => if (k =? k')%string then Some v else assoc k rest
  end.

Definition field (k : string) (j : json) : option json :=
  match j with JObj fields => assoc k fields | _ => None end.

(** [res.statusCode] (200 unless set) and the body given to [res.end]. *)
Record Response := { statusCode : Z; body : json }.

Definition respond (j : json) : Response := {| statusCode := 200; body := j |}.

(** The method of a request, and what
    [new URL(req.url ?? "/", "http://localhost")] gives: [None] when it
    throws, and else the value of the [path] query parameter. *)
Record Request := { method : string; url : option (option string) }.

(** The [path] query parameter of a request whose URL parses. *)
Definition query_path (req : Request) : option string :=
  match url req with Some filePath => filePath | None => None end.

Record ChangedFile := {
  path : string;
  status : string;
  insertions : Z;
  deletions : Z }.

Definition json_of_file (f : ChangedFile) : json :=
  JObj [("path", JStr (path f)); ("status", JStr (status f));
        ("insertions", JNum (insertions f)); ("deletions", JNum (deletions f))].

(** The bodies and responses that the two git routes write. *)
Definition method_not_allowed : Response :=
  {| statusCode := 405; body := JObj [("error", JStr "Method not allowed")] |}.

Definition not_a_repo_status : json :=
  JObj [("files", JArr []); ("git", JBool false)].

Definition status_body (files : list ChangedFile)
    (totalInsertions totalDeletions : Z) : json :=
  JObj [("files", JArr (map json_of_file files)); ("git", JBool true);
        ("insertions", JNum totalInsertions);
        ("deletions", JNum totalDeletions)].

Definition not_a_repo_diff : json :=
  JObj [("diff", JStr EmptyString); ("git", JBool false)].

Definition bad_request : Response :=
  {| statusCode := 400;
     body := JObj [("error", JStr "Absolute paths not allowed")] |}.

Definition diff_body (d p : string) : json :=
  JObj [("diff", JStr d); ("path", JStr p)].

Definition whole_diff_body (d : string) : json := JObj [("diff", JStr d)].

Definition empty_diff : json := whole_diff_body EmptyString.

(** ** src/git.ts *)

Record LineStat := { ins : Z; del : Z }.

(** The variables [repoRoot] and [git] of [registerGitRoutes]. *)
Record RepoState := { repoRoot : option string; git : option SimpleGit }.

Definition initial_state : RepoState := {| repoRoot := None; git := None |}.

Section Git.
Variable H : Host.

Definition revparse (g : SimpleGit) (args : list string) : Eff string :=
  perform (EvGit (Revparse args)) (git_revparse g args).

Definition gitStatus (g : SimpleGit) : Eff StatusResult :=
  perform (EvGit Status) (git_status g).

Definition diffSummary (g : SimpleGit) (args : list string)
  : Eff DiffResult :=
  perform (EvGit (DiffSummary args)) (git_diffSummary g args).

Definition gitDiff (g : SimpleGit) (args : list string) : Eff string :=
  perform (EvGit (Diff args)) (git_diff g args).

(** [stats.get(path) ?? { ins: 0, del: 0 }] *)
Definition stat_of (stats : gmap string LineStat) (p : string) : LineStat :=
  default {| ins := 0; del := 0 |} (stats !! p).

Definition push (stats : gmap string LineStat) (status : string)
    (p : string) : ChangedFile :=
  let s := stat_of stats p in
  {| path := p; status := status; insertions := ins s; deletions := del s |}.

(** The array [files] of [mapStatus] before it is filtered. *)
Definition pushed (result : StatusResult) (stats : gmap string LineStat)
  : list ChangedFile :=
  map (push stats "M") (modified result)
  ++ map (push stats "A") (created result)
  ++ map (push stats "D") (deleted result)
  ++ map (fun f => push stats "R" (rn_to f)) (renamed result)
  ++ map (push stats "?") (not_added result).

Definition mapStatus (result : StatusResult) (stats : gmap string LineStat)
  : list ChangedFile :=
  sort_by (fun a b => localeCompare H (path a) (path b))
    (filter_seen path ∅ (pushed result stats)).

(** The body of the loop over the files of one diff summary. *)
Definition add_summary_file (stats : gmap string LineStat) (f : DiffFile)
  : gmap string LineStat :=
  if df_binary f then stats
  else
    let existing := stat_of stats (df_file f) in
    <[df_file f := {| ins := ins existing + df_insertions f;
                      del := del existing + df_deletions f |}]> stats.

Definition add_summary (stats : gmap string LineStat) (summary : DiffResult)
  : gmap string LineStat :=
  foldl add_summary_file stats (df_files summary).

(** The number of lines the code counts: [content.split("\n").length]. *)
Definition line_count (content : string) : Z :=
  Z.of_nat (length (split newline content)).

(** The loop over the untracked files. *)
Fixpoint count_untracked (repoRoot : string) (untrackedFiles : list string)
    (stats : gmap string LineStat) : Eff (gmap string LineStat) :=
  match untrackedFiles with
  | [] => ret stats
  | filePath :: rest =>
      stats' <- try_catch
                  (content <- readFileSync H (join H repoRoot filePath) ;;
                   let lines := line_count content in
                   ret (<[filePath := {| ins := lines; del := 0 |}]> stats))
                  (ret stats) ;;
      count_untracked repoRoot rest stats'
  end.

(** The sum of [f] over [stats.values()]. *)
Definition total (f : LineStat -> Z) (stats : gmap string LineStat) : Z :=
  map_fold (fun _ s acc => acc + f s) 0 stats.

(** [getDiffStats]: the stats map and the two totals. The only call that
    can throw inside the outer [try] is [Promise.all], at which point the
    map is empty and the totals are zero. *)
Definition getDiffStats (g : SimpleGit) (repoRoot : string)
    (untrackedFiles : list string)
  : Eff (gmap string LineStat * Z * Z) :=
  try_catch
    (summaries <- promise_all (diffSummary g ["--cached"])
                              (diffSummary g []) ;;
     let stats := add_summary (add_summary ∅ (fst summaries))
                              (snd summaries) in
     stats <- count_untracked repoRoot untrackedFiles stats ;;
     ret (stats, total ins stats, total del stats))
    (ret (∅, 0, 0)).

(** The diff synthesized for a file without tracked history. *)
Definition synthesized (filePath content : string) : string :=
  let lines := split newline content in
  let added := String.concat nl (map (fun l => "+" +:+ l) lines) in
  "--- /dev/null" +:+ nl +:+ "+++ b/" +:+ filePath +:+ nl
  +:+ "@@ -0,0 +1," +:+ number_to_string (length lines) +:+ " @@" +:+ nl
  +:+ added.

Definition getFileDiff (g : SimpleGit) (repoRoot filePath : string)
  : Eff string :=
  let abs := resolve H repoRoot filePath in
  if negb (startsWith abs (repoRoot +:+ "/"))
     && negb (abs =? repoRoot)%string
  then ret EmptyString
  else
    try_catch
      (staged <- gitDiff g ["--cached"; "--"; filePath] ;;
       unstaged <- gitDiff g ["--"; filePath] ;;
       if truthy staged && truthy unstaged
       then ret (staged +:+ nl +:+ unstaged)
       else if truthy staged then ret staged
       else if truthy unstaged then ret unstaged
       else
         try_catch
           (content <- readFileSync H (join H repoRoot filePath) ;;
            ret (synthesized filePath content))
           (ret EmptyString))
      (ret EmptyString).

(** [findRepoRoot(cwd)]: the trimmed answer of [rev-parse], or null. *)
Definition findRepoRoot (cwd : string) : Eff (option string) :=
  try_catch
    (g <- of_option (simpleGit H cwd) ;;
     root <- revparse g ["--show-toplevel"] ;;
     ret (Some (trim root)))
    (ret None).

Variable projectRoot : string.

(** The handle when both variables are set and the root is truthy. *)
Definition cached (st : RepoState) : option (SimpleGit * string) :=
  match git st, repoRoot st with
  | Some g, Some r => if truthy r then Some (g, r) else None
  | _, _ => None
  end.

(** [ensureGit()]: its outcome and the variables it leaves behind. *)
Definition ensureGit (st : RepoState)
  : Eff (option (SimpleGit * string)) * RepoState :=
  match cached st with
  | Some ctx => (ret (Some ctx), st)
  | None =>
      let found := findRepoRoot projectRoot in
      match fst found with
      | None => ((None, snd found), st)
      | Some r =>
          let st1 := {| repoRoot := r; git := git st |} in
          match r with
          | Some root =>
              if truthy root then
                match simpleGit H root with
                | Some g =>
                    ((Some (Some (g, root)), snd found),
                     {| repoRoot := r; git := Some g |})
                | None => ((None, snd found), st1)
                end
              else ((Some None, snd found), st1)
          | None => ((Some None, snd found), st1)
          end
      end
  end.

(** The [then] callback of the status route. *)
Definition status_then (ctx : option (SimpleGit * string)) : Eff Response :=
  match ctx with
  | None => ret (respond not_a_repo_status)
  | Some (g, root) =>
      result <- gitStatus g ;;
      st <- getDiffStats g root (not_added result) ;;
      let files := mapStatus result (fst (fst st)) in
      ret (respond (status_body files (snd (fst st)) (snd st)))
  end.

(** GET /via/git/status: the response, and the handle variables after.
    This handler does not read the URL. *)
Definition status_route (st : RepoState) (req : Request)
  : Eff Response * RepoState :=
  if negb (method req =? "GET")%string then (ret method_not_allowed, st)
  else
    let ensured := ensureGit st in
    (try_catch (ctx <- fst ensured ;; status_then ctx)
               (ret (respond not_a_repo_status)),
     snd ensured).

(** The [then] callback of the diff route. *)
Definition diff_then (filePath : option string)
    (ctx : option (SimpleGit * string)) : Eff Response :=
  match ctx with
  | None => ret (respond not_a_repo_diff)
  | Some (g, root) =>
      match filePath with
      | Some (String c rest as p) =>
          if startsWith p "/" then ret bad_request
          else
            diff <- getFileDiff g root p ;;
            ret (respond (diff_body diff p))
      | _ =>
          staged <- gitDiff g ["--cached"] ;;
          unstaged <- gitDiff g [] ;;
          let combined :=
            if truthy staged && truthy unstaged
            then staged +:+ nl +:+ unstaged
            else if truthy staged then staged
            else if truthy unstaged then unstaged
            else EmptyString in
          ret (respond (whole_diff_body combined))
      end
  end.

(** GET /via/git/diff: the response, and the handle variables after.
    The URL is parsed after the method test and before [ensureGit] is
    called, outside the promise chain: when it throws, the handler
    throws. *)
Definition diff_route (st : RepoState) (req : Request)
  : Eff Response * RepoState :=
  if negb (method req =? "GET")%string then (ret method_not_allowed, st)
  else
    match url req with
    | None => (of_option None, st)
    | Some filePath =>
        let ensured := ensureGit st in
        (try_catch (ctx <- fst ensured ;; diff_then filePath ctx)
                   (ret (respond empty_diff)),
         snd ensured)
    end.

End Git.

(** ** Notions used to state the properties *)

(** Containment, in the words of the specification. The query's resolved
    path [abs] is contained in the pattern [pat]: for a pattern that exists
    as a directory, [abs] begins with the pattern's path plus a separator;
    for a pattern that exists and is not a directory (a file), the two
    paths are equal; for a pattern absent from disk, either test. *)
Definition contains (H : Host) (abs pat : string) : bool :=
  match fs_node H pat with
  | Some (NDir _) => startsWith abs (pat +:+ "/")
  | Some _ => (abs =? pat)%string
  | None => startsWith abs (pat +:+ "/") || (abs =? pat)%string
  end.

(** The number of lines of a text, in the words of the specification (the
    file's current line count): one for every line that a newline ends, and
    one for a last line that no newline ends. *)
Fixpoint text_lines (content : string) : Z :=
  match content with
  | EmptyString => 0
  | String c rest =>
      if Ascii.eqb c newline then 1 + text_lines rest
      else match rest with
           | EmptyString => 1
           | String _ _ => text_lines rest
           end
  end.

(** The text ends with a line that no newline ends. *)
Fixpoint open_end (content : string) : bool :=
  match content with
  | EmptyString => false
  | String c EmptyString => negb (Ascii.eqb c newline)
  | String _ rest => open_end rest
  end.

(** The names of the subdirectories that the walk does not enter. *)
Definition skipped (name : string) : bool :=
  (name =? "node_modules")%string || (name =? ".git")%string.

(** [Walk n names name]: in the directory tree [n], descending through the
    subdirectories [names], in order, leads to the regular file [name]. *)
Inductive Walk : Node -> list string -> string -> Prop :=
| Walk_file entries name :
    In (name, NFile) entries ->
    Walk (NDir (Some entries)) [] name
| Walk_dir entries d child names name :
    In (d, child) entries ->
    isDirectory child = true ->
    Walk child names name ->
    Walk (NDir (Some entries)) (d :: names) name.

(** The path of the directory reached from [dir] through [names]. *)
Definition descend (H : Host) (dir : string) (names : list string) : string :=
  fold_left (join H) names dir.

(** [p] is the project-relative path of a file of the tree [n] at [dir]
    that is reached without entering a skipped subdirectory. *)
Definition listed (H : Host) (projectRoot : string) (n : Node) (dir p : string)
  : Prop :=
  exists names name,
    Walk n names name
    /\ Forall (fun d => skipped d = false) names
    /\ p = relative H projectRoot (join H (descend H dir names) name).

(** Where a listed path [p] comes from, for the resolved pattern [abs]:
    the pattern is a regular file, or it is a directory and [p] is a file
    of its tree reached without entering a skipped subdirectory. *)
Definition origin (H : Host) (projectRoot abs p : string) : Prop :=
  (fs_node H abs = Some NFile /\ p = relative H projectRoot abs)
  \/ (exists n names name,
        fs_node H abs = Some n
        /\ Walk n names name
        /\ Forall (fun d => skipped d = false) names
        /\ p = relative H projectRoot (join H (descend H abs names) name)).

(** A path has a segment that is node_modules or .git. *)
Definition has_skipped_segment (p : string) : bool :=
  existsb skipped (split slash p).

(** The first element of [l] that has the key of [x]. *)
Definition first_with {A} (key : A -> string) (x : A) (l : list A) : option A :=
  find (fun y => (key y =? key x)%string) l.

Definition mem (p : string) (l : list string) : bool :=
  existsb (String.eqb p) l.

(** The status under which a path is reported, in the words of the
    specification: that of the first category that holds it, the
    categories being taken in the order modified, added, deleted, renamed
    (by destination path), untracked. *)
Definition first_status (result : StatusResult) (p : string) : option string :=
  if mem p (modified result) then Some "M"
  else if mem p (created result) then Some "A"
  else if mem p (deleted result) then Some "D"
  else if mem p (map rn_to (renamed result)) then Some "R"
  else if mem p (not_added result) then Some "?"
  else None.

(** Every path of the five categories. *)
Definition all_paths (result : StatusResult) : list string :=
  modified result ++ created result ++ deleted result
  ++ map rn_to (renamed result) ++ not_added result.

(** The stats accumulated from the two diff summaries. *)
Definition summary_stats (staged unstaged : DiffResult) : gmap string LineStat :=
  add_summary (add_summary ∅ staged) unstaged.

(** The counts that a client reports for text files are not negative. *)
Definition sane_counts (g : SimpleGit) : Prop :=
  forall args summary,
    git_diffSummary g args = Some summary ->
    Forall (fun d => df_binary d = false ->
                     0 <= df_insertions d /\ 0 <= df_deletions d)
      (df_files summary).

Definition nonneg_stats (stats : gmap string LineStat) : Prop :=
  map_Forall (fun (_ : string) s => 0 <= ins s /\ 0 <= del s) stats.

(** Repository discovery fails: [simpleGit] throws on the project root, or
    [rev-parse --show-toplevel] is rejected (not a repository, git not
    installed). *)
Definition discovery_fails (H : Host) (projectRoot : string) : Prop :=
  match simpleGit H projectRoot with
  | None => True
  | Some g => git_revparse g ["--show-toplevel"] = None
  end.

(** The host call of the repository discovery. *)
Definition discovery : Event := EvGit (Revparse ["--show-toplevel"]).

(** The resolved path stays within the repository root. *)
Definition inside (H : Host) (repoRoot filePath : string) : bool :=
  startsWith (resolve H repoRoot filePath) (repoRoot +:+ "/")
  || (resolve H repoRoot filePath =? repoRoot)%string.

(** A response is a client error. *)
Definition client_error (r : Response) : bool :=
  (400 <=? statusCode r) && (statusCode r <? 500).

(** ** A POSIX host for the examples

    [node:path] on POSIX, by path segments. The process working directory
    [cwd] is absolute. *)
Module Posix.

(** [normalizeString(path, allowAboveRoot)] over the segments of the
    path; [stack] holds the segments kept so far, last first. *)
Fixpoint normalize_go (allowAboveRoot : bool) (stack segs : list string)
  : list string :=
  match segs with
  | [] => rev stack
  | seg :: rest =>
      if (seg =? EmptyString)%string || (seg =? ".")%string
      then normalize_go allowAboveRoot stack rest
      else if (seg =? "..")%string then
        match stack with
        | top :: stack' =>
            if (top =? "..")%string
            then normalize_go allowAboveRoot (".." :: stack) rest
            else normalize_go allowAboveRoot stack' rest
        | [] =>
            if allowAboveRoot
            then normalize_go allowAboveRoot [".."] rest
            else normalize_go allowAboveRoot [] rest
        end
      else normalize_go allowAboveRoot (seg :: stack) rest
  end.

(** The arguments of [resolve], last first, then the working directory:
    prepend until an absolute one is met; empty arguments are skipped. *)
Fixpoint resolve_chain (args : list string) (acc : string) : string :=
  match args with
  | [] => acc
  | p :: rest =>
      if truthy p then
        if startsWith p "/" then p +:+ "/" +:+ acc
        else resolve_chain rest (p +:+ "/" +:+ acc)
      else resolve_chain rest acc
  end.

Definition resolve_args (cwd : string) (args : list string) : string :=
  "/" +:+ String.concat "/"
            (normalize_go false []
               (split slash (resolve_chain (rev args ++ [cwd]) EmptyString))).

Definition resolve (cwd from to : string) : string :=
  resolve_args cwd [from; to].

Definition endsWithSlash (p : string) : bool :=
  match String.rev p with
  | String c _ => Ascii.eqb c slash
  | EmptyString => false
  end.

Definition normalize (p : string) : string :=
  if truthy p then
    let isAbsolute := startsWith p "/" in
    let trailing := endsWithSlash p in
    let inner :=
      String.concat "/" (normalize_go (negb isAbsolute) [] (split slash p)) in
    if truthy inner then
      (if isAbsolute then "/" else EmptyString) +:+ inner
      +:+ (if trailing then "/" else EmptyString)
    else if isAbsolute then "/"
    else if trailing then "./" else "."
  else ".".

Definition join (a b : string) : string :=
  if truthy a then
    if truthy b then normalize (a +:+ "/" +:+ b) else normalize a
  else if truthy b then normalize b else ".".

Fixpoint strip_common (a b : list string) : list string * list string :=
  match a, b with
  | x :: a', y :: b' =>
      if (x =? y)%string then strip_common a' b' else (a, b)
  | _, _ => (a, b)
  end.

Definition segments (p : string) : list string :=
  filter (fun s => truthy s = true) (split slash p).

Definition relative (cwd from to : string) : string :=
  let from' := resolve_args cwd [from] in
  let to' := resolve_args cwd [to] in
  let rest := strip_common (segments from') (segments to') in
  String.concat "/" (map (fun _ => "..") (fst rest) ++ snd rest).

End Posix.

Fixpoint lookup_path {A} (k : string) (l : list (string * A)) : option A :=
  match l with
  | [] => None
  | (k', v) :: rest => if (k =? k')%string then Some v else lookup_path k rest
  end.

(** A host over POSIX paths whose filesystem and repositories are given by
    tables; its collation compares code units, and it spreads up to
    125000 arguments. *)
Definition posix_host (cwd : string) (nodes : list (string * Node))
    (contents : list (string * string)) (repos : list (string * SimpleGit))
  : Host :=
  {| resolve := Posix.resolve cwd;
     join := Posix.join;
     relative := Posix.relative cwd;
     localeCompare := compare_units;
     spread_ok := fun n => Z.of_nat n <=? 125000;
     fs_node := fun p => lookup_path p nodes;
     fs_read := fun p => lookup_path p contents;
     simpleGit := fun p => lookup_path p repos |}.

(** *** A project with a vendored submodule

    [/proj/vendor] holds a checkout whose [.git] is a regular file (as in
    a submodule or a worktree), a dependency cache and a socket;
    [/proj/node_modules/pkg] is a package directory; [/proj/drafts] does
    not exist. *)
Definition vendor_nodes : list (string * Node) :=
  [("/proj/vendor",
    NDir (Some [("lib", NDir (Some [("a.ts", NFile); (".git", NFile)]));
                ("node_modules", NDir (Some [("dep.js", NFile)]));
                ("sock", NOther)]));
   ("/proj/node_modules/pkg", NDir (Some [("index.js", NFile)]));
   ("/proj/README.md", NFile)].

Definition vendor_host : Host := posix_host "/proj" vendor_nodes [] [].

(** *** A repository like the one of the tests

    The repository root is [/repo] and the project root [/repo/site]. One
    tracked file is modified, two files are untracked, of which one cannot
    be read. *)
Definition demo_status : StatusResult :=
  {| modified := ["existing.txt"];
     created := [];
     deleted := [];
     renamed := [];
     not_added := ["new-file.txt"; "locked.txt"] |}.

Definition demo_summary (args : list string) : option DiffResult :=
  match args with
  | [] => Some {| df_files := [{| df_file := "existing.txt"; df_binary := false;
                                   df_insertions := 1; df_deletions := 0 |}] |}
  | _ => Some {| df_files := [] |}
  end.

Definition demo_diff (args : list string) : option string :=
  if bool_decide (args = ["--"; "existing.txt"]) then Some "+world"
  else if bool_decide (args = ["--cached"; "--"; "both.txt"]) then Some "+a"
  else if bool_decide (args = ["--"; "both.txt"]) then Some "+b"
  else Some EmptyString.

Definition demo_git : SimpleGit :=
  {| git_revparse := fun _ => Some ("/repo" +:+ nl);
     git_status := Some demo_status;
     git_diffSummary := demo_summary;
     git_diff := demo_diff |}.

Definition demo_contents : list (string * string) :=
  [("/repo/new-file.txt", "brand new" +:+ nl);
   ("/repo/existing.txt", "hello" +:+ nl +:+ "world" +:+ nl)].

Definition repo_host : Host :=
  posix_host "/repo/site" [] demo_contents
    [("/repo/site", demo_git); ("/repo", demo_git)].

(** The same repository when the diff summaries cannot be obtained. *)
Definition summaryless_git : SimpleGit :=
  {| git_revparse := git_revparse demo_git;
     git_status := git_status demo_git;
     git_diffSummary := fun _ => None;
     git_diff := git_diff demo_git |}.

Definition summaryless_host : Host :=
  posix_host "/repo/site" [] demo_contents
    [("/repo/site", summaryless_git); ("/repo", summaryless_git)].

(** *** A directory outside any repository: every git command fails. *)
Definition failing_git : SimpleGit :=
  {| git_revparse := fun _ => None;
     git_status := None;
     git_diffSummary := fun _ => None;
     git_diff := fun _ => None |}.

Definition plain_host : Host :=
  posix_host "/tmp/plain" [] [] [("/tmp/plain", failing_git)].

Definition get (p : option string) : Request :=
  {| method := "GET"; url := Some p |}.

(** *** A project whose root is a pattern too

    [/proj] and its subdirectory [/proj/vendor] both exist as
    directories. *)
Definition nested_nodes : list (string * Node) :=
  [("/proj/vendor", NDir (Some [("a.ts", NFile)]));
   ("/proj", NDir (Some [("vendor", NDir (Some [("a.ts", NFile)]))]))].

Definition nested_host : Host := posix_host "/proj" nested_nodes [] [].

(** *** A host that can spread two arguments at most. *)
Definition cramped_host : Host :=
  {| resolve := resolve vendor_host;
     join := join vendor_host;
     relative := relative vendor_host;
     localeCompare := localeCompare vendor_host;
     spread_ok := fun n => (n <=? 1)%nat;
     fs_node := fs_node vendor_host;
     fs_read := fs_read vendor_host;
     simpleGit := simpleGit vendor_host |}.

(** *** A collation that sets case aside first

    As the collation of the platform does on ASCII letters, and unlike the
    order of the code units, [caseless] compares two strings through their
    lower-case forms; strings that differ by case only come with the lower
    case first. *)
Definition lower (c : ascii) : ascii :=
  if ((65 <=? byte c) && (byte c <=? 90))%N then ascii_of_N (byte c + 32)
  else c.

Fixpoint lower_case (s : string) : string :=
  match s with
  | String c s' => String (lower c) (lower_case s')
  | EmptyString => EmptyString
  end.

Definition caseless (a b : string) : Z :=
  let c := compare_units (lower_case a) (lower_case b) in
  if c =? 0 then compare_units b a else c.

Definition collating_host : Host :=
  {| resolve := resolve repo_host;
     join := join repo_host;
     relative := relative repo_host;
     localeCompare := caseless;
     spread_ok := spread_ok repo_host;
     fs_node := fs_node repo_host;
     fs_read := fs_read repo_host;
     simpleGit := simpleGit repo_host |}.

Definition case_status : StatusResult :=
  {| modified := ["Z"; "B"];
     created := ["b"];
     deleted := ["a"];
     renamed := [];
     not_added := ["_x"] |}.

(** *** A status in which categories overlap and a file is renamed. *)
Definition busy_status : StatusResult :=
  {| modified := ["src/b.ts"; "src/a.ts"];
     created := ["src/new.ts"; "src/a.ts"];
     deleted := ["old.ts"];
     renamed := [{| rn_from := "before.ts"; rn_to := "after.ts" |};
                 {| rn_from := "src/c.ts"; rn_to := "src/b.ts" |}];
     not_added := ["notes.md"; "src/new.ts"] |}.

(** ** Sums over diff summaries *)

(** The sum of [f] over the text entries of a diff summary. *)
Definition text_sum (f : DiffFile -> Z) (l : list DiffFile) : Z :=
  fold_right (fun d acc => if df_binary d then acc else f d + acc) 0 l.


(** The lines counted for the untracked files that can be read. *)
Definition untracked_lines (H : Host) (repoRoot : string)
    (untrackedFiles : list string) : Z :=
  fold_right (fun f acc => match fs_read H (join H repoRoot f) with
                           | Some content => line_count content + acc
                           | None => acc
                           end) 0 untrackedFiles.


(** [Reach n names]: in the directory tree [n], the names [names] lead,
    in order, through entries of the directories met that are themselves
    directories and whose names are neither node_modules nor .git. *)
Inductive Reach : Node -> list string -> Prop :=
| Reach_here entries : Reach (NDir entries) []
| Reach_step entries d child names :
    In (d, child) entries ->
    isDirectory child = true ->
    skipped d = false ->
    Reach child names ->
    Reach (NDir (Some entries)) (d :: names).

(** A host call that opens a directory of the tree [n] at [dir] reached in
    that way. *)
Definition opened (H : Host) (n : Node) (dir : string) (e : Event) : Prop :=
  exists names, Reach n names /\ e = EvReaddir (descend H dir names).

(** The number of regular files of a tree. *)
Fixpoint weight (n : Node) : nat :=
  match n with
  | NFile => 1
  | NOther | NDir None => 0
  | NDir (Some entries) =>
      (fix sum (es : list (string * Node)) : nat :=
         match es with
         | [] => 0
         | (_, child) :: es' => weight child + sum es'
         end) entries
  end%nat.

Definition entries_weight (es : list (string * Node)) : nat :=
  list_sum (map (fun e => weight (snd e)) es).

(** The paths given to [statSync] in a trace, in order. *)
Fixpoint stats (trace : list Event) : list string :=
  match trace with
  | [] => []
  | EvStat p :: rest => p :: stats rest
  | _ :: rest => stats rest
  end.

(** ** src/files.ts: the routes *)

(** A value read from the parsed request body: [undefined] (the key is
    missing), [null], a string, or any other value (number, boolean,
    array, object) with its truthiness. *)
Inductive JsValue :=
| VUndefined
| VNull
| VString (s : string)
| VOther (isTruthy : bool).

Definition js_truthy (v : JsValue) : bool :=
  match v with
  | VString s => truthy s
  | VOther b => b
  | VUndefined | VNull => false
  end.

(** What [JSON.parse] returned for the request body: [null], or a value
    together with what its properties [path] and [content] read as (both
    [undefined] for a number, a boolean, a string or an array). *)
Inductive ParsedBody :=
| BodyNull
| BodyValue (writePath writeContent : JsValue).

(** A request: its method; what [new URL(req.url, base)] gives, [None]
    when it throws and else the value of the [path] query parameter; and
    the parsed body, [None] when [JSON.parse(await readBody(req))]
    throws. *)
Record FileRequest := {
  fr_method : string;
  fr_url : option (option string);
  fr_body : option ParsedBody }.

(** The host calls of the file routes: those of the resolver, and
    [writeFileSync(p, data, "utf-8")]. *)
Inductive FileEvent :=
| Fs (e : Event)
| EvWriteFile (p : string) (data : JsValue).

(** What a handler did: the response it wrote ([None] when it threw
    before writing one) and its host calls, in order. *)
Definition Handled : Type := (option Response * list FileEvent)%type.

Definition called {A} (m : Eff A) : list FileEvent := map Fs (snd m).

Definition error_response (code : Z) (msg : string) : Response :=
  {| statusCode := code; body := JObj [("error", JStr msg)] |}.

Definition files_body (files : list string) : json :=
  JObj [("files", JArr (map JStr files))].

Definition file_body (filePath content : string) : json :=
  JObj [("path", JStr filePath); ("content", JStr content)].

Definition written_body (writePath : string) : json :=
  JObj [("status", JStr "ok"); ("path", JStr writePath)].

Section FileRoutes.
Variable H : Host.

(** [writeFileSync(p, data, "utf-8")]: [None] when it returns, and when it
    throws the message that the handler reports. *)
Variable writeFileSync : string -> JsValue -> option string.

Variable editable : list string.
Variable projectRoot : string.

Definition resolvedPatterns : list string :=
  resolveEditablePatterns H editable projectRoot.

(** /via/files *)
Definition files_route (req : FileRequest) : Handled :=
  if negb (fr_method req =? "GET")%string
  then (Some (error_response 405 "Method not allowed"), [])
  else
    let files := resolveEditableFiles H resolvedPatterns projectRoot in
    (option_map (fun l => respond (files_body l)) (fst files), called files).

(** /via/file, method GET *)
Definition file_get (filePath : option string) : Handled :=
  match filePath with
  | Some (String _ _ as p) =>
      let allowed := isPathAllowed H p resolvedPatterns projectRoot in
      match fst allowed with
      | None => (None, called allowed)
      | Some false =>
          (Some (error_response 403 "Path not in editable list"),
           called allowed)
      | Some true =>
          let abs := resolve H projectRoot p in
          let content := readFileSync H abs in
          (Some match fst content with
                | Some c => respond (file_body p c)
                | None => error_response 404 "File not found"
                end,
           called allowed ++ called content)
      end
  | _ => (Some (error_response 400 "Missing path parameter"), [])
  end.

(** /via/file, method POST. Reading [body.path] throws when the body is
    [null]; [requestedPath.startsWith] throws when the path is a truthy
    value that is not a string. *)
Definition file_post (parsed : option ParsedBody) : Handled :=
  match parsed with
  | None => (Some (error_response 400 "Invalid JSON body"), [])
  | Some BodyNull => (None, [])
  | Some (BodyValue writePath writeContent) =>
      if negb (js_truthy writePath)
         || match writeContent with VUndefined => true | _ => false end
      then (Some (error_response 400 "Missing path or content"), [])
      else
        match writePath with
        | VString p =>
            let allowed := isPathAllowed H p resolvedPatterns projectRoot in
            match fst allowed with
            | None => (None, called allowed)
            | Some false =>
                (Some (error_response 403 "Path not in editable list"),
                 called allowed)
            | Some true =>
                let abs := resolve H projectRoot p in
                (Some match writeFileSync abs writeContent with
                      | None => respond (written_body p)
                      | Some msg => error_response 500 msg
                      end,
                 called allowed ++ [EvWriteFile abs writeContent])
            end
        | _ => (None, [])
        end
  end.

(** /via/file. The URL is parsed before the method is looked at. *)
Definition file_route (req : FileRequest) : Handled :=
  match fr_url req with
  | None => (None, [])
  | Some filePath =>
      if (fr_method req =? "GET")%string then file_get filePath
      else if (fr_method req =? "POST")%string then file_post (fr_body req)
      else (Some (error_response 405 "Method not allowed"), [])
  end.

End FileRoutes.

(** A GET of [/via/file?path=p]. *)
Definition get_file (p : string) : FileRequest :=
  {| fr_method := "GET"; fr_url := Some (Some p); fr_body := None |}.

(** A POST to [/via/file] whose body is a JSON object with the path [p]
    and the content [data]. *)
Definition post (p : string) (data : JsValue) : FileRequest :=
  {| fr_method := "POST"; fr_url := Some None;
     fr_body := Some (BodyValue (VString p) data) |}.

(** The response to a path that is not allowed. *)
Definition forbidden : Response :=
  error_response 403 "Path not in editable list".

(** The code unit of the three bytes that begin with [c1] and [c2] is a
    surrogate, U+D800 to U+DFFF: in a well-formed string, one that has no
    pair. *)
Definition surrogate (c1 c2 : ascii) : bool :=
  ((byte c1 =? 237) && (160 <=? byte c2) && (byte c2 <? 192))%N.

Definition lone_surrogate_first (s : string) : bool :=
  match s with
  | String c1 (String c2 (String c3 _)) => surrogate c1 c2 && continuation c3
  | _ => false
  end.

Fixpoint has_lone_surrogate (s : string) : bool :=
  match s with
  | String _ s' => lone_surrogate_first s || has_lone_surrogate s'
  | EmptyString => false
  end.

(** The bytes that [writeFileSync(p, data, "utf-8")] stores for the string
    [data]: its UTF-8 encoding, in which U+FFFD stands for every lone
    surrogate. *)
Definition replacement : string :=
  String (ascii_of_N 239) (String (ascii_of_N 191)
    (String (ascii_of_N 189) EmptyString)).

Fixpoint to_utf8 (s : string) : string :=
  match s with
  | String c1 s1 =>
      match s1 with
      | String c2 (String c3 s3) =>
          if surrogate c1 c2 && continuation c3 then replacement +:+ to_utf8 s3
          else String c1 (to_utf8 s1)
      | _ => String c1 (to_utf8 s1)
      end
  | EmptyString => EmptyString
  end.

(** The host after the bytes [stored] have been written to the path [p],
    which held a regular file: the file reads as [stored], the tree is as
    before. *)
Definition overwritten (H : Host) (p stored : string) : Host :=
  {| resolve := resolve H;
     join := join H;
     relative := relative H;
     localeCompare := localeCompare H;
     spread_ok := spread_ok H;
     fs_node := fs_node H;
     fs_read := fun q => if (q =? p)%string then Some stored else fs_read H q;
     simpleGit := simpleGit H |}.

(** The host after a host call of the file routes: a
    [writeFileSync(p, data, "utf-8")] of a string that has returned
    overwrites [p]; the other calls read only. *)
Definition after_call (writeFileSync : string -> JsValue -> option string)
    (H : Host) (e : FileEvent) : Host :=
  match e with
  | EvWriteFile p (VString data) =>
      match writeFileSync p (VString data) with
      | None => overwritten H p (to_utf8 data)
      | Some _ => H
      end
  | _ => H
  end.

Definition after_calls (writeFileSync : string -> JsValue -> option string)
    (H : Host) (trace : list FileEvent) : Host :=
  fold_left (after_call writeFileSync) trace H.

(** ** src/logger.ts *)

Module Logger.

Inductive Level := Info | Warn | Error.

Record LogEntry := { level : Level; text : string; timestamp : Z }.

Definition MAX_LOG_LINES : nat := 100.

Definition escape : ascii := ascii_of_nat 27.

(** The class [[0-9;]] *)
Definition is_parameter (c : ascii) : bool :=
  let n := nat_of_ascii c in
  (Nat.leb 48 n && Nat.leb n 57) || Nat.eqb n 59.

(** The length of the longest run of [[0-9;]] at the head of [s]. *)
Fixpoint parameters (s : string) : nat :=
  match s with
  | String c s' => if is_parameter c then S (parameters s') else 0%nat
  | EmptyString => 0%nat
  end.

(** [ANSI_RE] at the head of [s]: the length of the match, if any. The
    run of parameters is taken whole, since the character that ends the
    match is not a parameter. *)
Definition ANSI_RE (s : string) : option nat :=
  match s with
  | String c1 (String c2 rest) =>
      if Ascii.eqb c1 escape && Ascii.eqb c2 "["%char then
        match String.get (parameters rest) rest with
        | Some c => if Ascii.eqb c "m"%char
                    then Some (3 + parameters rest)%nat else None
        | None => None
        end
      else None
  | _ => None
  end.

(** [text.replace(ANSI_RE, empty)], the regular expression being global:
    the text is scanned from the left; a match is dropped and the scan
    resumes after it; [skip] counts the characters of the current match
    that are still to be dropped. *)
Fixpoint replace_from (skip : nat) (s : string) : string :=
  match s with
  | EmptyString => EmptyString
  | String c s' =>
      match skip with
      | S k => replace_from k s'
      | O =>
          match ANSI_RE s with
          | Some n => replace_from (Nat.pred n) s'
          | None => String c (replace_from 0 s')
          end
      end
  end.

Definition replace_ANSI (text : string) : string := replace_from 0 text.

(** [level.toUpperCase()] *)
Definition toUpperCase (l : Level) : string :=
  match l with Info => "INFO" | Warn => "WARN" | Error => "ERROR" end.

(** The fields [_entries] and [logPath] of a [LogBuffer]. *)
Record LogBuffer := { _entries : list LogEntry; logPath : option string }.

(** [new LogBuffer()] *)
Definition new : LogBuffer := {| _entries := []; logPath := None |}.

(** The host calls of the buffer, and the call of a method of the
    logger that [wrapLogger] wraps. *)
Inductive LogEvent :=
| EvMkdir (dir : string)
| EvWriteLog (p content : string)
| EvLogger (lvl : Level) (msg : string).

(** What a method did: whether it returned ([None] when it threw), and
    its host calls. *)
Definition Done : Type := (option unit * list LogEvent)%type.

Section Buffer.
Variable H : Host.

(** [new Date(t).toISOString()] *)
Variable toISOString : Z -> string.

(** Whether [mkdirSync(dir, { recursive: true })] and
    [writeFileSync(p, content)] return rather than throw. *)
Variable mkdirSync : string -> bool.
Variable writeFileSync : string -> string -> bool.

Definition log_line (e : LogEntry) : string :=
  "[" +:+ toISOString (timestamp e) +:+ "] [" +:+ toUpperCase (level e)
  +:+ "] " +:+ text e.

Definition log_content (entries : list LogEntry) : string :=
  String.concat nl (map log_line entries) +:+ nl.

Definition flush (b : LogBuffer) : Done :=
  match logPath b with
  | Some (String _ _ as p) =>
      let content := log_content (_entries b) in
      (if writeFileSync p content then Some tt else None,
       [EvWriteLog p content])
  | _ => (Some tt, [])
  end.

Definition init (b : LogBuffer) (projectRoot : string) : Done * LogBuffer :=
  let dir := join H projectRoot ".viagen" in
  if mkdirSync dir then
    let b' := {| _entries := _entries b;
                 logPath := Some (join H dir "server.log") |} in
    ((fst (flush b'), EvMkdir dir :: snd (flush b')), b')
  else ((None, [EvMkdir dir]), b).

(** [push(level, text)], [now] being what [Date.now()] returns. *)
Definition push (b : LogBuffer) (lvl : Level) (msg : string) (now : Z)
  : Done * LogBuffer :=
  let pushed :=
    _entries b
    ++ [{| level := lvl; text := replace_ANSI msg; timestamp := now |}] in
  let kept :=
    if Nat.ltb MAX_LOG_LINES (length pushed) then tl pushed else pushed in
  let b' := {| _entries := kept; logPath := logPath b |} in
  (flush b', b').

Definition getEntries (b : LogBuffer) : list LogEntry := _entries b.

Definition recentErrors (b : LogBuffer) : list string :=
  map (fun e => "[" +:+ toUpperCase (level e) +:+ "] " +:+ text e)
    (List.filter (fun e => match level e with
                      | Error | Warn => true
                      | Info => false
                      end)
       (_entries b)).

(** The method that [wrapLogger] installs for the level [lvl]: the
    message is pushed, then handed to the original method (taken to
    return). *)
Definition wrapped (lvl : Level) (b : LogBuffer) (msg : string) (now : Z)
  : Done * LogBuffer :=
  let r := push b lvl msg now in
  match fst (fst r) with
  | Some _ => ((Some tt, snd (fst r) ++ [EvLogger lvl msg]), snd r)
  | None => ((None, snd (fst r)), snd r)
  end.

(** A message of the wrapped logger: its level, its text, and the time at
    which it is pushed. *)
Definition Message : Type := (Level * string * Z)%type.

(** The buffer after the messages [msgs] were pushed, in order. *)
Definition push_all (b : LogBuffer) (msgs : list Message) : LogBuffer :=
  fold_left (fun b m => snd (push b (fst (fst m)) (snd (fst m)) (snd m)))
    msgs b.

End Buffer.

(** The entry that [push] makes of a message. *)
Definition entry_of (m : Level * string * Z) : LogEntry :=
  {| level := fst (fst m); text := replace_ANSI (snd (fst m));
     timestamp := snd m |}.

(** A select-graphic-rendition sequence: ESC, an opening bracket,
    parameters, and the letter m. *)
Definition sgr (params : string) : string :=
  String escape ("[" +:+ params +:+ "m").

(** A message is a warning or an error. *)
Definition is_problem (m : Level * string * Z) : bool :=
  match fst (fst m) with Error | Warn => true | Info => false end.

(** The line that [recentErrors] shows for a message. *)
Definition problem_line (m : Level * string * Z) : string :=
  "[" +:+ toUpperCase (fst (fst m)) +:+ "] " +:+ replace_ANSI (snd (fst m)).

(** Every character of [s] is a digit or a semicolon. *)
Definition all_parameters (s : string) : Prop :=
  parameters s = String.length s.

(** A hundred and one messages, numbered from 0. *)
Definition many_messages : list (Level * string * Z) :=
  map (fun n => (Info, "tick", Z.of_nat n)) (seq 0 101).

End Logger.

(** ** src/logs.ts *)

(** A JavaScript number: not-a-number, an infinity, or a finite value. *)
Inductive JsNumber :=
| NaN
| Infinity (negative : bool)
| Finite (q : Q).

(** [a > b] *)
Definition js_gt (a b : JsNumber) : bool :=
  match a, b with
  | NaN, _ | _, NaN => false
  | Infinity negative, Infinity negative' => negb negative && negative'
  | Infinity negative, Finite _ => negb negative
  | Finite _, Infinity negative => negative
  | Finite x, Finite y => negb (Qle_bool x y)
  end.

(** A request: its method, and what [new URL(req.url, base)] gives,
    [None] when it throws and else the value of the [since] query
    parameter. *)
Record LogRequest := {
  lr_method : string;
  lr_url : option (option string) }.

Definition level_name (l : Logger.Level) : string :=
  match l with
  | Logger.Info => "info"
  | Logger.Warn => "warn"
  | Logger.Error => "error"
  end.

Definition json_of_entry (e : Logger.LogEntry) : json :=
  JObj [("level", JStr (level_name (Logger.level e)));
        ("text", JStr (Logger.text e));
        ("timestamp", JNum (Logger.timestamp e))].

Definition logs_body (entries : list Logger.LogEntry) : json :=
  JObj [("entries", JArr (map json_of_entry entries));
        ("count", JNum (Z.of_nat (length entries)))].

Section Logs.

(** [Number(s)] *)
Variable Number : string -> JsNumber.

Definition since_of (sinceParam : option string) : JsNumber :=
  match sinceParam with
  | Some (String _ _ as s) => Number s
  | _ => Finite 0
  end.

(** The entries that the route returns. *)
Definition logs_entries (b : Logger.LogBuffer) (sinceParam : option string)
  : list Logger.LogEntry :=
  let since := since_of sinceParam in
  if js_gt since (Finite 0)
  then List.filter (fun e => js_gt (Finite (inject_Z (Logger.timestamp e))) since)
         (Logger.getEntries b)
  else Logger.getEntries b.

(** /via/logs: the response, [None] when the handler throws. *)
Definition logs_route (b : Logger.LogBuffer) (req : LogRequest)
  : option Response :=
  if negb (lr_method req =? "GET")%string then Some method_not_allowed
  else
    match lr_url req with
    | None => None
    | Some sinceParam => Some (respond (logs_body (logs_entries b sinceParam)))
    end.

End Logs.

(** ** src/health.ts *)

(** [!!env[key]] *)
Definition env_set (env : gmap string string) (key : string) : bool :=
  match env !! key with Some v => truthy v | None => false end.

Definition health_body (ok git : bool) : json :=
  JObj [("status", JStr (if ok then "ok" else "error"));
        ("configured", JBool ok); ("git", JBool git)].

(** /via/health *)
Definition health_route (env : gmap string string) : Response :=
  let configured :=
    env_set env "ANTHROPIC_API_KEY" || env_set env "CLAUDE_ACCESS_TOKEN" in
  let git := env_set env "GITHUB_TOKEN" in
  if configured then respond (health_body true git)
  else respond (health_body false git).

(** ** src/oauth.ts: the callback server *)

(** What the handler of [startCallbackServer] does with a request: the
    status and text it writes, and the code it resolves the waiting
    promise with, if it does. *)
Record Callback := {
  cb_status : Z;
  cb_text : string;
  cb_resolved : option string }.

Definition authenticated_page : string :=
  "<html><body style='font-family:system-ui;background:#09090b;color:#e4e4e7;display:flex;justify-content:center;align-items:center;height:100vh;margin:0;'><div style='text-align:center'><h2>Authenticated</h2><p style='color:#a1a1aa'>You can close this tab.</p></div></body></html>".

(** The request handler, [code] and [state] being the query parameters
    of those names in a request whose URL parses. *)
Definition callback_handler (expectedState : string)
    (code state : option string) : Callback :=
  match code with
  | Some (String _ _ as c) =>
      if bool_decide (state = Some expectedState)
      then {| cb_status := 200; cb_text := authenticated_page;
              cb_resolved := Some c |}
      else {| cb_status := 400; cb_text := "Invalid state parameter";
              cb_resolved := None |}
  | _ => {| cb_status := 400; cb_text := "Missing authorization code";
            cb_resolved := None |}
  end.

(** *** A client whose [rev-parse] prints a no-break space and a newline *)

(** U+00A0, in UTF-8. *)
Definition no_break_space : string :=
  String (ascii_of_nat 194) (String (ascii_of_nat 160) EmptyString).

Definition blank_git : SimpleGit :=
  {| git_revparse := fun _ => Some (no_break_space +:+ nl);
     git_status := git_status demo_git;
     git_diffSummary := git_diffSummary demo_git;
     git_diff := git_diff demo_git |}.

Definition blank_host : Host :=
  posix_host "/tmp/blank" [] [] [("/tmp/blank", blank_git)].

(** *** Fixtures for the routes *)

(** A buffer like the one of the tests; two entries bear the same
    timestamp. *)
Definition demo_buffer : Logger.LogBuffer :=
  Logger.push_all (fun _ => "t") (fun _ _ => true) Logger.new
    [(Logger.Info, "Server started", 10);
     (Logger.Warn, "Deprecation warning", 20);
     (Logger.Error, "Build failed", 20);
     (Logger.Info, "New entry", 30)].

Definition demo_Number (s : string) : JsNumber :=
  if (s =? "20")%string then Finite (inject_Z 20)
  else if (s =? "-5")%string then Finite (inject_Z (-5))
  else NaN.

Definition get_logs (since : option string) : LogRequest :=
  {| lr_method := "GET"; lr_url := Some since |}.

(** A write that succeeds everywhere but under [/proj/vendor/locked]. *)
Definition demo_write (p : string) (data : JsValue) : option string :=
  match data with
  | VString _ =>
      if startsWith p "/proj/vendor/locked/"
      then Some "EACCES: permission denied" else None
  | _ => Some "The data argument must be of type string"
  end.

Definition readme_host : Host :=
  posix_host "/proj" vendor_nodes [("/proj/README.md", "# viagen")] [].


(** * Properties *)

(** ** Computations *)

Lemma fst_bind {A B} (m : Eff A) (k : A -> Eff B) :
  fst (bind m k) = match fst m with Some a => fst (k a) | None => None end.
Proof. unfold bind. destruct (fst m); reflexivity. Qed.

Lemma snd_bind {A B} (m : Eff A) (k : A -> Eff B) :
  snd (bind m k)
  = match fst m with Some a => snd m ++ snd (k a) | None => snd m end.
Proof. unfold bind. destruct (fst m); reflexivity. Qed.

Lemma fst_try_catch {A} (m h : Eff A) :
  fst (try_catch m h) = match fst m with Some a => Some a | None => fst h end.
Proof. unfold try_catch. destruct (fst m) eqn:E; [exact E | reflexivity]. Qed.

Lemma snd_try_catch {A} (m h : Eff A) :
  snd (try_catch m h)
  = match fst m with Some _ => snd m | None => snd m ++ snd h end.
Proof. unfold try_catch. destruct (fst m); reflexivity. Qed.

Lemma value_bind {A B} (m : Eff A) (k : A -> Eff B) (a : A) :
  fst m = Some a -> fst (bind m k) = fst (k a).
Proof. intros E. unfold bind. rewrite E. reflexivity. Qed.

Lemma value_bind_None {A B} (m : Eff A) (k : A -> Eff B) :
  fst m = None -> fst (bind m k) = None.
Proof. intros E. unfold bind. rewrite E. reflexivity. Qed.

Lemma value_try_Some {A} (m h : Eff A) (a : A) :
  fst m = Some a -> fst (try_catch m h) = Some a.
Proof. intros E. unfold try_catch. rewrite E. exact E. Qed.

Lemma value_try_None {A} (m h : Eff A) :
  fst m = None -> fst (try_catch m h) = fst h.
Proof. intros E. unfold try_catch. rewrite E. reflexivity. Qed.

(** ** Strings *)

Lemma truthy_true s : truthy s = true <-> s <> EmptyString.
Proof. destruct s; cbn; split; congruence. Qed.


Lemma append_nil_l (s : string) : EmptyString +:+ s = s.
Proof. reflexivity. Qed.

Lemma append_cons (c : ascii) (a b : string) :
  String c a +:+ b = String c (a +:+ b).
Proof. reflexivity. Qed.

Lemma append_assoc (a b c : string) : (a +:+ b) +:+ c = a +:+ (b +:+ c).
Proof.
  induction a as [|x a IH]; rewrite ?append_nil_l, ?append_cons;
    [reflexivity | rewrite IH; reflexivity].
Qed.

Lemma prefix_append (a b : string) : String.prefix a (a +:+ b) = true.
Proof.
  induction a as [|c a IH]; rewrite ?append_nil_l, ?append_cons.
  - destruct b; reflexivity.
  - cbn. destruct (ascii_dec c c); [exact IH | contradiction].
Qed.

Lemma prefix_append_self (d s : string) :
  String.prefix (d +:+ s) d = true -> s = EmptyString.
Proof.
  induction d as [|a d IH]; simpl.
  - destruct s; [reflexivity | discriminate].
  - destruct (ascii_dec a a); [exact IH | discriminate].
Qed.

Lemma startsWith_self_separator (d : string) :
  startsWith d (d +:+ "/") = false.
Proof.
  unfold startsWith. destruct (String.prefix (d +:+ "/") d) eqn:E; [|reflexivity].
  apply prefix_append_self in E. discriminate.
Qed.


Lemma split_nonempty sep s : split sep s <> [].
Proof.
  destruct s as [|c s]; cbn; [discriminate|].
  destruct (Ascii.eqb c sep); [discriminate|].
  destruct (split sep s); discriminate.
Qed.

Lemma split_length sep s : length (split sep s) = S (occurrences sep s).
Proof.
  induction s as [|c s IH]; cbn; [reflexivity|].
  destruct (Ascii.eqb c sep); cbn; [rewrite IH; reflexivity|].
  destruct (split sep s); cbn in *; congruence.
Qed.

Lemma split_no_sep sep s : occurrences sep s = 0%nat -> split sep s = [s].
Proof.
  induction s as [|c s IH]; cbn; [reflexivity|].
  destruct (Ascii.eqb c sep); [discriminate|].
  intros E. rewrite (IH E). reflexivity.
Qed.

Lemma split_app_sep sep a b :
  split sep (a +:+ String sep b) = split sep a ++ split sep b.
Proof.
  induction a as [|c a IH]; rewrite ?append_nil_l, ?append_cons; cbn [split].
  - rewrite Ascii.eqb_refl. reflexivity.
  - destruct (Ascii.eqb c sep); [rewrite IH; reflexivity|].
    rewrite IH. destruct (split sep a) eqn:E; [|reflexivity].
    exfalso. exact (split_nonempty sep a E).
Qed.


Lemma split_concat sep (ls : list string) :
  ls <> [] ->
  Forall (fun piece => occurrences sep piece = 0%nat) ls ->
  split sep (String.concat (String sep EmptyString) ls) = ls.
Proof.
  intros Hne Hall. induction Hall as [|x ls Hx Hls IH]; [contradiction|].
  destruct ls as [|y ls].
  - apply split_no_sep, Hx.
  - change (String.concat (String sep EmptyString) (x :: y :: ls))
      with (x +:+ String sep (String.concat (String sep EmptyString) (y :: ls))).
    rewrite split_app_sep, (split_no_sep _ _ Hx), IH by discriminate.
    reflexivity.
Qed.




(** ** Sorting and de-duplication *)


Lemma find_app_first {A} (f : A -> bool) (l1 l2 : list A) :
  find f (l1 ++ l2) = match find f l1 with Some x => Some x | None => find f l2 end.
Proof.
  induction l1 as [|x l1 IH]; cbn; [reflexivity|].
  destruct (f x); [reflexivity | exact IH].
Qed.

Lemma mem_In (p : string) (l : list string) : mem p l = true <-> In p l.
Proof.
  unfold mem. rewrite existsb_exists. split.
  - intros (x & Hx & E). apply String.eqb_eq in E. subst. exact Hx.
  - intros Hp. exists p. split; [exact Hp | apply String.eqb_refl].
Qed.

Lemma insert_by_perm {A} (cmp : A -> A -> Z) (x : A) (l : list A) :
  Permutation (insert_by cmp x l) (x :: l).
Proof.
  induction l as [|y l IH]; cbn [insert_by]; [reflexivity|].
  destruct (cmp x y <=? 0); [reflexivity|].
  rewrite IH. apply perm_swap.
Qed.

Lemma sort_by_perm {A} (cmp : A -> A -> Z) (l : list A) :
  Permutation (sort_by cmp l) l.
Proof.
  induction l as [|x l IH]; cbn; [reflexivity|].
  fold (sort_by cmp l). rewrite insert_by_perm. constructor. exact IH.
Qed.

Lemma sort_by_In {A} (cmp : A -> A -> Z) (l : list A) (x : A) :
  In x (sort_by cmp l) <-> In x l.
Proof.
  split; apply Permutation_in; [|symmetry]; apply sort_by_perm.
Qed.

Section Sorting.
Context {A : Type} (cmp : A -> A -> Z).
Hypothesis cmp_total : forall a b, cmp a b <= 0 \/ cmp b a <= 0.
Hypothesis cmp_trans : forall a b c, cmp a b <= 0 -> cmp b c <= 0 -> cmp a c <= 0.

Lemma insert_by_sorted (x : A) (l : list A) :
  StronglySorted (fun a b => cmp a b <= 0) l ->
  StronglySorted (fun a b => cmp a b <= 0) (insert_by cmp x l).
Proof.
  induction 1 as [|y l Hl IH Hy]; cbn [insert_by].
  - constructor; constructor.
  - destruct (Z.leb_spec (cmp x y) 0) as [Hxy|Hxy].
    + constructor; [constructor; assumption|].
      constructor; [exact Hxy|].
      eapply Forall_impl; [exact Hy|]. intros z Hyz. cbn in Hyz.
      eapply cmp_trans; eassumption.
    + constructor; [exact IH|].
      apply List.Forall_forall. intros z Hz.
      apply (Permutation_in _ (insert_by_perm cmp x l)) in Hz.
      destruct Hz as [<-|Hz].
      * destruct (cmp_total x y); [lia | assumption].
      * rewrite List.Forall_forall in Hy. apply Hy, Hz.
Qed.

Lemma sort_by_sorted (l : list A) :
  StronglySorted (fun a b => cmp a b <= 0) (sort_by cmp l).
Proof.
  induction l as [|x l IH]; cbn; [constructor|].
  apply insert_by_sorted, IH.
Qed.

End Sorting.

Lemma filter_seen_incl {A} (key : A -> string) (l : list A) :
  forall seen x, In x (filter_seen key seen l) -> In x l.
Proof.
  induction l as [|y l IH]; intros seen x; cbn [filter_seen]; [auto|].
  destruct (decide (key y ∈ seen)).
  - intros Hx. right. eapply IH, Hx.
  - intros [->|Hx]; [left; reflexivity | right; eapply IH, Hx].
Qed.

Lemma filter_seen_keys {A} (key : A -> string) (l : list A) :
  forall seen x, In x l -> key x ∉ seen ->
    exists y, In y (filter_seen key seen l) /\ key y = key x.
Proof.
  induction l as [|y l IH]; intros seen x; cbn [filter_seen]; [intros []|].
  intros [->|Hx] Hseen.
  - destruct (decide (key x ∈ seen)); [contradiction|].
    exists x. split; [left|]; reflexivity.
  - destruct (decide (key y ∈ seen)).
    + apply IH; assumption.
    + destruct (decide (key x = key y)) as [E|NE].
      * exists y. split; [left; reflexivity | congruence].
      * destruct (IH ({[key y]} ∪ seen) x Hx) as (z & Hz & Ez).
        { rewrite elem_of_union, elem_of_singleton. tauto. }
        exists z. split; [right; exact Hz | exact Ez].
Qed.

Lemma filter_seen_id_In (l : list string) (x : string) :
  In x (filter_seen id ∅ l) <-> In x l.
Proof.
  split; [apply filter_seen_incl|].
  intros Hx. destruct (filter_seen_keys id l ∅ x Hx) as (y & Hy & Ey);
    [set_solver|].
  unfold id in Ey. subst y. exact Hy.
Qed.

Section FirstOccurrence.
Context {A : Type} (key : A -> string).

Lemma filter_seen_first (l : list A) :
  forall seen x,
    In x (filter_seen key seen l)
    <-> (key x ∉ seen) /\ first_with key x l = Some x.
Proof.
  unfold first_with.
  induction l as [|y l IH]; intros seen x; cbn [filter_seen find].
  - split; [intros [] | intros [_ ?]; discriminate].
  - destruct (String.eqb_spec (key y) (key x)) as [E|NE];
      destruct (decide (key y ∈ seen)) as [Hy|Hy].
    + rewrite IH. split.
      * intros [Hx _]. rewrite <- E in Hx. contradiction.
      * intros [Hx _]. rewrite <- E in Hx. contradiction.
    + cbn [In]. rewrite IH. split.
      * intros [->|[Hx _]]; [auto|].
        exfalso. apply Hx. rewrite elem_of_union, elem_of_singleton. auto.
      * intros [_ Heq]. left. congruence.
    + apply IH.
    + cbn [In]. rewrite IH. split.
      * intros [->|[Hx Hf]]; [congruence|]. split; [|exact Hf].
        intros Hin. apply Hx. rewrite elem_of_union. auto.
      * intros [Hx Hf]. right. split; [|exact Hf].
        rewrite elem_of_union, elem_of_singleton. intros [?|?]; auto.
Qed.

Lemma filter_seen_NoDup (l : list A) :
  forall seen, NoDup (map key (filter_seen key seen l)).
Proof.
  induction l as [|y l IH]; intros seen; cbn [filter_seen map].
  - constructor.
  - destruct (decide (key y ∈ seen)); [apply IH|].
    cbn [map]. constructor; [|apply IH].
    rewrite list_elem_of_In, in_map_iff. intros (z & Ez & Hz).
    apply filter_seen_first in Hz. destruct Hz as [Hz _]. apply Hz.
    rewrite elem_of_union, elem_of_singleton. auto.
Qed.

End FirstOccurrence.

Lemma compare_lists_refl (a : list N) : compare_lists a a = Eq.
Proof.
  induction a as [|x a IH]; [reflexivity|].
  cbn [compare_lists]. rewrite N.compare_refl. exact IH.
Qed.

Lemma compare_lists_antisym (a : list N) :
  forall b, compare_lists b a = CompOpp (compare_lists a b).
Proof.
  induction a as [|x a IH]; intros [|y b]; try reflexivity.
  cbn [compare_lists]. rewrite (N.compare_antisym x y).
  destruct (x ?= y)%N; cbn [CompOpp]; [apply IH|reflexivity|reflexivity].
Qed.

Lemma compare_lists_trans (a : list N) :
  forall b c,
    compare_lists a b <> Gt -> compare_lists b c <> Gt ->
    compare_lists a c <> Gt.
Proof.
  induction a as [|x a IH]; intros [|y b] [|z c]; cbn [compare_lists];
    try congruence.
  destruct (x ?= y)%N eqn:Hxy; destruct (y ?= z)%N eqn:Hyz;
    destruct (x ?= z)%N eqn:Hxz; try congruence;
    rewrite ?N.compare_eq_iff, ?N.compare_lt_iff, ?N.compare_gt_iff in *;
    try (exfalso; lia); try (intros _ _; discriminate).
  apply IH.
Qed.

Lemma compare_units_le (a b : string) :
  compare_units a b <= 0 <-> compare_lists (code_units a) (code_units b) <> Gt.
Proof.
  unfold compare_units.
  destruct (compare_lists (code_units a) (code_units b)); split;
    intros; try lia; congruence.
Qed.

Lemma compare_units_flip (a b : string) :
  compare_units b a = - compare_units a b.
Proof.
  unfold compare_units.
  rewrite (compare_lists_antisym (code_units a) (code_units b)).
  destruct (compare_lists (code_units a) (code_units b)); reflexivity.
Qed.

Lemma compare_units_total (a b : string) :
  compare_units a b <= 0 \/ compare_units b a <= 0.
Proof.
  rewrite !compare_units_le.
  rewrite (compare_lists_antisym (code_units a) (code_units b)).
  destruct (compare_lists (code_units a) (code_units b)); cbn [CompOpp];
    [left|left|right]; congruence.
Qed.

Lemma compare_units_trans (a b c : string) :
  compare_units a b <= 0 -> compare_units b c <= 0 -> compare_units a c <= 0.
Proof. rewrite !compare_units_le. apply compare_lists_trans. Qed.

(** ** The POSIX host *)

Example posix_resolve_relative :
  Posix.resolve "/home" "/proj" "src/../lib//a.ts" = "/proj/lib/a.ts".
Proof. reflexivity. Qed.

Example posix_resolve_absolute :
  Posix.resolve "/home" "/proj" "/etc/passwd" = "/etc/passwd".
Proof. reflexivity. Qed.

Example posix_resolve_above_root : Posix.resolve "/home" "/proj" "../.." = "/".
Proof. reflexivity. Qed.

Example posix_join_entry : Posix.join "/proj/src" "a.ts" = "/proj/src/a.ts".
Proof. reflexivity. Qed.

Example posix_relative_below :
  Posix.relative "/home" "/proj" "/proj/src/a.ts" = "src/a.ts".
Proof. reflexivity. Qed.

Example posix_relative_above :
  Posix.relative "/home" "/proj/site" "/proj/lib/a.ts" = "../lib/a.ts".
Proof. reflexivity. Qed.

Example repo_root_differs_from_project_root :
  fst (findRepoRoot repo_host "/repo/site") = Some (Some "/repo").
Proof. reflexivity. Qed.

(** ** Allowed paths *)

Lemma isPathAllowed_loop_value (H : Host) (abs : string) (pats : list string) :
  fst (isPathAllowed_loop H abs pats) = Some (existsb (contains H abs) pats).
Proof.
  induction pats as [|pat pats IH]; [reflexivity|].
  cbn [isPathAllowed_loop existsb].
  unfold contains, bind, try_catch, statSync, perform, ret; cbn [fst snd].
  destruct (fs_node H pat) as [[| |es]|]; cbn [fst snd isDirectory].
  all: match goal with
       | |- context [if ?b then (Some true, _) else _] =>
           destruct b; cbn [fst snd orb]; [reflexivity | exact IH]
       end.
Qed.

Lemma isPathAllowed_value
    (H : Host) (requestedPath : string) (resolvedPatterns : list string)
    (projectRoot : string) :
  startsWith requestedPath "/" = false ->
  fst (isPathAllowed H requestedPath resolvedPatterns projectRoot)
  = Some (existsb (contains H (resolve H projectRoot requestedPath))
            resolvedPatterns).
Proof.
  intros Hrel. unfold isPathAllowed. rewrite Hrel.
  apply isPathAllowed_loop_value.
Qed.

(** C1. A requested path that starts with "/" is refused, whatever the
    patterns and the project root are, and before the filesystem is
    consulted for any pattern: the call returns false and its trace of
    host calls is empty. *)
Theorem isPathAllowed_rejects_absolute
    (H : Host) (requestedPath : string) (resolvedPatterns : list string)
    (projectRoot : string) :
  startsWith requestedPath "/" = true ->
  isPathAllowed H requestedPath resolvedPatterns projectRoot = (Some false, []).
Proof.
  intros Habs. unfold isPathAllowed. rewrite Habs. reflexivity.
Qed.

Lemma isPathAllowed_rejects_absolute_witness :
  startsWith "/etc/passwd" "/" = true
  /\ isPathAllowed vendor_host "/etc/passwd" ["/proj/vendor"; "/proj/drafts"]
       "/proj" = (Some false, []).
Proof.
  split; [reflexivity|].
  apply isPathAllowed_rejects_absolute. reflexivity.
Defined.



(** C10, as the code has it. A pattern that exists on disk as a directory
    does not by itself admit a query resolving exactly to the pattern's own
    path: when no other pattern contains that path (in particular when it
    is the only pattern) the query is refused. When the same pattern is
    absent from disk, a relative query resolving exactly to its path is
    allowed. *)
Theorem isPathAllowed_pattern_itself
    (H : Host) (requestedPath dir projectRoot : string) :
  startsWith requestedPath "/" = false ->
  resolve H projectRoot requestedPath = dir ->
  (forall entries resolvedPatterns,
     fs_node H dir = Some (NDir entries) ->
     Forall (fun pat => pat = dir \/ contains H dir pat = false)
       resolvedPatterns ->
     fst (isPathAllowed H requestedPath resolvedPatterns projectRoot)
     = Some false)
  /\ (forall entries,
        fs_node H dir = Some (NDir entries) ->
        fst (isPathAllowed H requestedPath [dir] projectRoot) = Some false)
  /\ (forall resolvedPatterns,
        fs_node H dir = None ->
        In dir resolvedPatterns ->
        fst (isPathAllowed H requestedPath resolvedPatterns projectRoot)
        = Some true).
Proof.
  intros Hrel Hres.
  assert (Hgen : forall entries resolvedPatterns,
     fs_node H dir = Some (NDir entries) ->
     Forall (fun pat => pat = dir \/ contains H dir pat = false)
       resolvedPatterns ->
     fst (isPathAllowed H requestedPath resolvedPatterns projectRoot)
     = Some false).
  { intros entries pats Hdir Hall.
    rewrite (isPathAllowed_value H requestedPath pats projectRoot Hrel).
    rewrite Hres. f_equal.
    induction Hall as [|pat pats Hpat _ IH]; [reflexivity|].
    cbn [existsb]. rewrite IH, orb_false_r.
    destruct Hpat as [-> | Hno]; [|exact Hno].
    unfold contains. rewrite Hdir. apply startsWith_self_separator. }
  split; [exact Hgen|]. split.
  - intros entries Hdir. apply (Hgen entries); [exact Hdir|].
    constructor; [left; reflexivity | constructor].
  - intros pats Habsent Hin.
    rewrite (isPathAllowed_value H requestedPath pats projectRoot Hrel).
    rewrite Hres. f_equal. apply existsb_exists. exists dir.
    split; [exact Hin|]. unfold contains. rewrite Habsent.
    rewrite String.eqb_refl. apply orb_true_r.
Qed.

Lemma isPathAllowed_pattern_itself_witness :
  startsWith "vendor" "/" = false
  /\ resolve vendor_host "/proj" "vendor" = "/proj/vendor"
  /\ fst (isPathAllowed vendor_host "vendor" ["/proj/vendor"] "/proj")
     = Some false
  /\ startsWith "drafts" "/" = false
  /\ resolve vendor_host "/proj" "drafts" = "/proj/drafts"
  /\ fst (isPathAllowed vendor_host "drafts" ["/proj/vendor"; "/proj/drafts"]
            "/proj") = Some true.
Proof.
  split; [reflexivity|]. split; [reflexivity|]. split.
  { destruct (isPathAllowed_pattern_itself vendor_host "vendor" "/proj/vendor"
                "/proj" eq_refl eq_refl) as (_ & Hdir & _).
    eapply Hdir. reflexivity. }
  split; [reflexivity|]. split; [reflexivity|].
  destruct (isPathAllowed_pattern_itself vendor_host "drafts" "/proj/drafts"
              "/proj" eq_refl eq_refl) as (_ & _ & Habsent).
  apply Habsent; [reflexivity|]. right. left. reflexivity.
Defined.

(** C10, the counterexample. With the project root and its subdirectory
    [vendor] both given as patterns, both existing as directories, the
    query [vendor] resolves exactly to the path of the second pattern and
    is allowed: the first pattern contains it. *)
Lemma isPathAllowed_pattern_itself_under_ancestor :
  startsWith "vendor" "/" = false
  /\ resolve nested_host "/proj" "vendor" = "/proj/vendor"
  /\ isDirectory <$> fs_node nested_host "/proj/vendor" = Some true
  /\ isDirectory <$> fs_node nested_host "/proj" = Some true
  /\ fst (isPathAllowed nested_host "vendor" ["/proj/vendor"; "/proj"] "/proj")
     = Some true
  /\ fst (isPathAllowed nested_host "vendor" ["/proj/vendor"] "/proj")
     = Some false.
Proof. repeat split; vm_compute; reflexivity. Qed.

(** ** The listing of editable files *)

Lemma Node_tree_ind (P : Node -> Prop) :
  P NFile -> P NOther -> P (NDir None) ->
  (forall entries, Forall (fun e => P (snd e)) entries -> P (NDir (Some entries))) ->
  forall n, P n.
Proof.
  intros HF HO HN HD. fix IH 1.
  intros [| |[entries|]]; [exact HF | exact HO | | exact HN].
  apply HD. induction entries as [|e entries IHes]; constructor.
  - apply IH.
  - exact IHes.
Qed.

Lemma listed_not_dir H root n dir p :
  (forall entries, n <> NDir (Some entries)) -> ~ listed H root n dir p.
Proof.
  intros Hn (names & name & HW & _). inversion HW; subst; eapply Hn; eauto.
Qed.

Lemma collect_entries_value H root dir recur es :
  Forall (fun e => forall d, exists l,
            fst (recur (snd e) d) = Some l
            /\ forall p, In p l -> listed H root (snd e) d p) es ->
  forall results, exists l,
    fst (collect_entries H recur dir root es results) = Some l
    /\ forall p, In p l ->
         In p results
         \/ exists name child, In (name, child) es
              /\ ((child = NFile /\ p = relative H root (join H dir name))
                  \/ (isDirectory child = true /\ skipped name = false
                      /\ listed H root child (join H dir name) p)).
Proof.
  induction 1 as [|[name child] es Hc _ IH]; intros results.
  - exists results. split; [reflexivity|]. auto.
  - cbn [collect_entries]. cbn [snd] in Hc.
    assert (Hrest : forall results' (l : list string),
              (forall p, In p l ->
                 In p results'
                 \/ exists n' c', In (n', c') es
                      /\ ((c' = NFile /\ p = relative H root (join H dir n'))
                          \/ (isDirectory c' = true /\ skipped n' = false
                              /\ listed H root c' (join H dir n') p))) ->
              forall p, In p l ->
                In p results'
                \/ exists n' c', In (n', c') ((name, child) :: es)
                     /\ ((c' = NFile /\ p = relative H root (join H dir n'))
                         \/ (isDirectory c' = true /\ skipped n' = false
                             /\ listed H root c' (join H dir n') p))).
    { intros results' l Hl q Hq.
      destruct (Hl q Hq) as [?|(n' & c' & Hin & Hcase)]; [auto|].
      right. exists n', c'. split; [right; exact Hin | exact Hcase]. }
    destruct child as [| |entries]; cbn [isDirectory isFile].
    + destruct (IH (results ++ [relative H root (join H dir name)]))
        as (l & El & Hl).
      exists l. split; [exact El|]. intros q Hq.
      destruct (Hrest _ l Hl q Hq) as [Hin|Hex]; [|auto].
      apply in_app_iff in Hin as [?|[<-|[]]]; [auto|].
      right. exists name, NFile. split; [left; reflexivity|]. auto.
    + destruct (IH results) as (l & El & Hl).
      exists l. split; [exact El|]. apply Hrest, Hl.
    + fold (skipped name). destruct (skipped name) eqn:Hskip.
      * destruct (IH results) as (l & El & Hl).
        exists l. split; [exact El|]. apply Hrest, Hl.
      * destruct (Hc (join H dir name)) as (sub & Esub & Hsub).
        rewrite (value_bind _ _ sub Esub).
        destruct (spread_ok H (length sub)).
        -- destruct (IH (results ++ sub)) as (l & El & Hl).
           exists l. split; [exact El|]. intros q Hq.
           destruct (Hrest _ l Hl q Hq) as [Hin|Hex]; [|auto].
           apply in_app_iff in Hin as [?|Hin]; [auto|].
           right. exists name, (NDir entries).
           split; [left; reflexivity|]. right. auto.
        -- exists results. split; [reflexivity|]. auto.
Qed.

Lemma listed_dir_iff H root entries dir p :
  listed H root (NDir (Some entries)) dir p <->
  exists name child, In (name, child) entries
    /\ ((child = NFile /\ p = relative H root (join H dir name))
        \/ (isDirectory child = true /\ skipped name = false
            /\ listed H root child (join H dir name) p)).
Proof.
  split.
  - intros (names & name & HW & Hns & ->). inversion HW; subst.
    + exists name, NFile. split; [assumption|]. left. auto.
    + exists d, child. split; [assumption|]. right.
      inversion Hns; subst. repeat split; try assumption.
      exists names0, name. auto.
  - intros (name & child & Hin & [[-> ->]|(Hd & Hs & names & f & HW & Hns & ->)]).
    + exists [], name. repeat split; [constructor; exact Hin | constructor].
    + exists (name :: names), f. repeat split.
      * econstructor; eassumption.
      * constructor; assumption.
Qed.

(** [collectFiles] never throws, and lists exactly the files of the tree
    that are reached without entering a skipped subdirectory. *)
Lemma collectFiles_value H root n :
  forall dir, exists l,
    fst (collectFiles H n dir root) = Some l
    /\ forall p, In p l -> listed H root n dir p.
Proof.
  induction n as [| | |entries IH] using Node_tree_ind; intros dir.
  1-3: exists []; split; [reflexivity|]; intros p [].
  destruct (collect_entries_value H root dir
              (fun child fullPath => collectFiles H child fullPath root)
              entries IH []) as (l & El & Hl).
  exists l. split.
  - cbn [collectFiles]. unfold try_catch, bind, readdirSync, perform.
    cbn [fst snd]. rewrite El. reflexivity.
  - intros p Hp. apply listed_dir_iff.
    destruct (Hl p Hp) as [[]|?]. assumption.
Qed.

Lemma resolveEditableFiles_loop_value H root pats :
  forall files, exists l,
    fst (resolveEditableFiles_loop H pats root files) = Some l
    /\ forall p, In p l ->
         In p files \/ exists abs, In abs pats /\ origin H root abs p.
Proof.
  induction pats as [|abs pats IH]; intros files.
  - exists files. split; [reflexivity|]. auto.
  - cbn [resolveEditableFiles_loop].
    assert (Hstep : exists files',
      fst (try_catch
             (stat <- statSync H abs ;;
              if isDirectory stat then
                sub <- collectFiles H stat abs root ;;
                if spread_ok H (length sub) then ret (files ++ sub)
                else of_option None
              else if isFile stat then ret (files ++ [relative H root abs])
              else ret files)
             (ret files)) = Some files'
      /\ forall p, In p files' -> In p files \/ origin H root abs p).
    { assert (Estat : fst (statSync H abs) = fs_node H abs) by reflexivity.
      destruct (fs_node H abs) as [n|] eqn:En.
      - destruct n as [| |entries].
        + exists (files ++ [relative H root abs]). split.
          { apply value_try_Some. rewrite (value_bind _ _ _ Estat).
            reflexivity. }
          intros p Hp. apply in_app_iff in Hp as [?|[<-|[]]]; [auto|].
          right. left. auto.
        + exists files. split; [|auto].
          apply value_try_Some. rewrite (value_bind _ _ _ Estat).
          reflexivity.
        + destruct (collectFiles_value H root (NDir entries) abs)
            as (sub & Esub & Hsub).
          destruct (spread_ok H (length sub)) eqn:Hspread.
          * exists (files ++ sub). split.
            { apply value_try_Some. rewrite (value_bind _ _ _ Estat).
              cbn [isDirectory]. rewrite (value_bind _ _ _ Esub).
              rewrite Hspread. reflexivity. }
            intros p Hp. apply in_app_iff in Hp as [?|Hp]; [auto|].
            destruct (Hsub p Hp) as (ns & f & HW & Hns & ->).
            right. right. exists (NDir entries), ns, f. auto.
          * exists files. split; [|auto].
            rewrite value_try_None; [reflexivity|].
            rewrite (value_bind _ _ _ Estat). cbn [isDirectory].
            rewrite (value_bind _ _ _ Esub). rewrite Hspread. reflexivity.
      - exists files. split; [|auto].
        rewrite value_try_None; [reflexivity|].
        apply value_bind_None, Estat. }
    destruct Hstep as (files' & Estep & Hstep).
    destruct (IH files') as (l & El & Hl).
    exists l. split.
    { rewrite (value_bind _ _ files' Estep). exact El. }
    intros p Hp. destruct (Hl p Hp) as [Hin|(a & Hin & Ho)].
    + destruct (Hstep p Hin) as [?|Ho]; [auto|].
      right. exists abs. split; [left; reflexivity | exact Ho].
    + right. exists a. split; [right; exact Hin | exact Ho].
Qed.

(** C4, as the code has it. The listing never throws, and every path it
    returns comes from a resolved pattern in one of two ways: the pattern
    is a regular file and the path is its project-relative form, or the
    pattern is a directory and the path is that of a regular file reached
    from it by descending only through subdirectories whose names are
    neither node_modules nor .git, at any depth. The name of the file
    itself and the location of the pattern are not filtered. *)
Theorem resolveEditableFiles_listing
    (H : Host) (resolvedPatterns : list string) (projectRoot : string) :
  exists l,
    fst (resolveEditableFiles H resolvedPatterns projectRoot) = Some l
    /\ forall p, In p l ->
         exists abs,
           In abs resolvedPatterns
           /\ ((fs_node H abs = Some NFile /\ p = relative H projectRoot abs)
               \/ (exists n names name,
                     fs_node H abs = Some n
                     /\ Walk n names name
                     /\ Forall (fun d => skipped d = false) names
                     /\ p = relative H projectRoot
                             (join H (descend H abs names) name))).
Proof.
  fold (origin H projectRoot).
  destruct (resolveEditableFiles_loop_value H projectRoot resolvedPatterns [])
    as (files & Efiles & Hfiles).
  exists (sort_by compare_units (filter_seen id ∅ files)). split.
  - unfold resolveEditableFiles. rewrite (value_bind _ _ files Efiles).
    reflexivity.
  - intros p Hp. rewrite sort_by_In, filter_seen_id_In in Hp.
    destruct (Hfiles p Hp) as [[]|?]. assumption.
Qed.

(** Two directory patterns whose listing has paths with a .git and a
    node_modules segment: a regular file named .git inside the walk, and a
    pattern that lies under node_modules. *)
Lemma listing_skips_only_directories :
  isDirectory <$> fs_node vendor_host "/proj/vendor" = Some true
  /\ isDirectory <$> fs_node vendor_host "/proj/node_modules/pkg" = Some true
  /\ fst (resolveEditableFiles vendor_host
            ["/proj/vendor"; "/proj/node_modules/pkg"] "/proj")
     = Some ["node_modules/pkg/index.js"; "vendor/lib/.git"; "vendor/lib/a.ts"]
  /\ has_skipped_segment "vendor/lib/.git" = true
  /\ has_skipped_segment "node_modules/pkg/index.js" = true
  /\ ~ (forall l p,
          fst (resolveEditableFiles vendor_host
                 ["/proj/vendor"; "/proj/node_modules/pkg"] "/proj") = Some l ->
          In p l -> has_skipped_segment p = false).
Proof.
  split; [reflexivity|]. split; [reflexivity|].
  split; [vm_compute; reflexivity|]. split; [reflexivity|].
  split; [reflexivity|].
  intros Hall.
  specialize (Hall ["node_modules/pkg/index.js"; "vendor/lib/.git";
                    "vendor/lib/a.ts"] "vendor/lib/.git").
  assert (Hno : has_skipped_segment "vendor/lib/.git" = false).
  { apply Hall; [vm_compute; reflexivity | right; left; reflexivity]. }
  vm_compute in Hno. discriminate.
Qed.

(** On a host that cannot spread two arguments, the files of
    [/proj/vendor/lib] are collected and then lost: the push of the two of
    them throws in the walk of [/proj/vendor], which returns what it has
    so far. *)
Example listing_without_what_cannot_be_spread :
  fst (resolveEditableFiles cramped_host
         ["/proj/vendor"; "/proj/node_modules/pkg"] "/proj")
  = Some ["node_modules/pkg/index.js"].
Proof. vm_compute. reflexivity. Qed.

(** ** The list of changed files *)

Lemma find_map_push stats s p ps :
  find (fun y => (path y =? p)%string) (map (push stats s) ps)
  = if mem p ps then Some (push stats s p) else None.
Proof.
  induction ps as [|a ps IH]; cbn; [reflexivity|].
  rewrite (String.eqb_sym p a).
  destruct (String.eqb_spec a p) as [->|NE]; cbn; [reflexivity | exact IH].
Qed.

Lemma first_with_pushed result stats f :
  first_with path f (pushed result stats)
  = option_map (fun s => push stats s (path f)) (first_status result (path f)).
Proof.
  unfold first_with, pushed, first_status.
  replace (map (fun r => push stats "R" (rn_to r)) (renamed result))
    with (map (push stats "R") (map rn_to (renamed result)))
    by (rewrite map_map; reflexivity).
  rewrite !find_app_first, !find_map_push.
  repeat match goal with |- context [mem ?p ?l] => destruct (mem p l) end;
    reflexivity.
Qed.

Lemma map_path_pushed result stats :
  map path (pushed result stats) = all_paths result.
Proof.
  unfold pushed, all_paths. rewrite !map_app, !map_map. cbn [push path].
  rewrite !map_id. reflexivity.
Qed.

Lemma mapStatus_In (H : Host) result stats f :
  In f (mapStatus H result stats) <->
  exists s, first_status result (path f) = Some s /\ f = push stats s (path f).
Proof.
  unfold mapStatus. rewrite sort_by_In, filter_seen_first, first_with_pushed.
  split.
  - intros [_ Hf].
    destruct (first_status result (path f)) as [s|]; [|discriminate].
    exists s. split; [reflexivity|]. cbn in Hf. congruence.
  - intros (s & Es & Ef). split; [apply not_elem_of_empty|].
    rewrite Es. cbn. congruence.
Qed.

Lemma caseless_total a b : caseless a b <= 0 \/ caseless b a <= 0.
Proof.
  unfold caseless.
  rewrite (compare_units_flip (lower_case a) (lower_case b)).
  rewrite (compare_units_flip a b).
  destruct (Z.eqb_spec (compare_units (lower_case a) (lower_case b)) 0);
    destruct (Z.eqb_spec (- compare_units (lower_case a) (lower_case b)) 0);
    lia.
Qed.

(** C8, as the code has it. The list built by [mapStatus] holds exactly
    the paths of the modified, added, deleted, renamed (by destination) and
    untracked categories, each path once, reported with the status of the
    first category that holds it and with its line counts. With a
    collation that is a total preorder, the list is sorted by path under
    that collation, [localeCompare]; it is sorted in the order of the code
    units when the collation is that order. *)
Theorem mapStatus_union_dedup_sorted
    (H : Host) (result : StatusResult) (stats : gmap string LineStat) :
  (forall a b, localeCompare H a b <= 0 \/ localeCompare H b a <= 0) ->
  (forall a b c, localeCompare H a b <= 0 -> localeCompare H b c <= 0 ->
                 localeCompare H a c <= 0) ->
  let files := mapStatus H result stats in
  (forall p, In p (map path files) <-> In p (all_paths result))
  /\ NoDup (map path files)
  /\ (forall f, In f files <->
         exists s, first_status result (path f) = Some s
                   /\ f = push stats s (path f))
  /\ StronglySorted (fun a b => localeCompare H (path a) (path b) <= 0) files
  /\ ((forall a b, localeCompare H a b = compare_units a b) ->
      StronglySorted (fun a b => compare_units (path a) (path b) <= 0) files).
Proof.
  intros Htotal Htrans files.
  assert (Hsorted : StronglySorted
            (fun a b => localeCompare H (path a) (path b) <= 0) files).
  { apply sort_by_sorted.
    - intros a b. apply Htotal.
    - intros a b c. apply Htrans. }
  assert (Hunits : (forall a b, localeCompare H a b = compare_units a b) ->
            StronglySorted (fun a b => compare_units (path a) (path b) <= 0)
              files).
  { intros Hcmp. induction Hsorted as [|f l _ IH Hall]; constructor.
    - exact IH.
    - eapply Forall_impl; [exact Hall|]. intros g Hg. cbn beta in *.
      rewrite <- Hcmp. exact Hg. }
  subst files. unfold mapStatus.
  set (cmp := fun a b => localeCompare H (path a) (path b)).
  set (kept := filter_seen path ∅ (pushed result stats)).
  assert (Hperm : Permutation (sort_by cmp kept) kept) by apply sort_by_perm.
  repeat split.
  - rewrite (Permutation_map path Hperm). intros Hp.
    rewrite <- (map_path_pushed result stats). apply in_map_iff in Hp.
    destruct Hp as (f & <- & Hf). apply in_map, (filter_seen_incl _ _ _ _ Hf).
  - rewrite (Permutation_map path Hperm), <- (map_path_pushed result stats).
    intros Hp. apply in_map_iff in Hp. destruct Hp as (f & <- & Hf).
    destruct (filter_seen_keys path _ ∅ f Hf) as (g & Hg & E).
    { apply not_elem_of_empty. }
    rewrite <- E. apply in_map, Hg.
  - rewrite (Permutation_map path Hperm). apply filter_seen_NoDup.
  - intros Hf. apply (Permutation_in _ Hperm) in Hf.
    apply filter_seen_first in Hf. destruct Hf as [_ Hf].
    rewrite first_with_pushed in Hf.
    destruct (first_status result (path f)) as [s|]; [|discriminate].
    exists s. split; [reflexivity|]. cbn in Hf. congruence.
  - intros (s & Es & Ef). apply (Permutation_in _ (Permutation_sym Hperm)).
    apply filter_seen_first. split; [apply not_elem_of_empty|].
    rewrite first_with_pushed, Es. cbn. congruence.
  - exact Hsorted.
  - exact Hunits.
Qed.

Lemma mapStatus_union_dedup_sorted_witness :
  (forall a b, localeCompare repo_host a b <= 0 \/ localeCompare repo_host b a <= 0)
  /\ (forall a b c, localeCompare repo_host a b <= 0 ->
                    localeCompare repo_host b c <= 0 ->
                    localeCompare repo_host a c <= 0)
  /\ mapStatus repo_host busy_status ∅
     = [{| path := "after.ts"; status := "R"; insertions := 0; deletions := 0 |};
        {| path := "notes.md"; status := "?"; insertions := 0; deletions := 0 |};
        {| path := "old.ts"; status := "D"; insertions := 0; deletions := 0 |};
        {| path := "src/a.ts"; status := "M"; insertions := 0; deletions := 0 |};
        {| path := "src/b.ts"; status := "M"; insertions := 0; deletions := 0 |};
        {| path := "src/new.ts"; status := "A"; insertions := 0; deletions := 0 |}]
  /\ (forall p, In p (map path (mapStatus repo_host busy_status ∅))
                <-> In p (all_paths busy_status))
  /\ NoDup (map path (mapStatus repo_host busy_status ∅))
  /\ StronglySorted
       (fun a b => compare_units (path a) (path b) <= 0)
       (mapStatus repo_host busy_status ∅).
Proof.
  split; [exact compare_units_total|]. split; [exact compare_units_trans|].
  split; [vm_compute; reflexivity|].
  destruct (mapStatus_union_dedup_sorted repo_host busy_status ∅
              compare_units_total compare_units_trans)
    as (Hunion & Hnodup & _ & _ & Hunits).
  split; [exact Hunion|]. split; [exact Hnodup|].
  apply Hunits. reflexivity.
Defined.

(** C8, the counterexample. Under a collation that sets case aside first,
    as the collation of the platform does, the list comes in an order that
    is not the order of the code units: [a], [b] and [B] come before [Z],
    and [b] before [B]. *)
Lemma mapStatus_not_in_code_unit_order :
  map path (mapStatus collating_host case_status ∅) = ["_x"; "a"; "b"; "B"; "Z"]
  /\ (forall a b, caseless a b <= 0 \/ caseless b a <= 0)
  /\ compare_units "a" "B" = 1
  /\ compare_units "a" "Z" = 1
  /\ compare_units "b" "B" = 1
  /\ ~ StronglySorted (fun a b => compare_units (path a) (path b) <= 0)
        (mapStatus collating_host case_status ∅).
Proof.
  split; [vm_compute; reflexivity|]. split; [exact caseless_total|].
  split; [reflexivity|]. split; [reflexivity|]. split; [reflexivity|].
  intros Hs. apply StronglySorted_inv in Hs. destruct Hs as [Hs _].
  apply StronglySorted_inv in Hs. destruct Hs as [_ Hall].
  apply Forall_inv_tail, Forall_inv in Hall. vm_compute in Hall.
  apply Hall. reflexivity.
Qed.

(** ** Diff statistics *)

(** The count of the code is one more than the number of newline
    characters of the content. *)
Lemma line_count_newlines content :
  line_count content = 1 + Z.of_nat (occurrences newline content).
Proof. unfold line_count. rewrite split_length. lia. Qed.

(** The count of the code against the number of lines of the text: they
    agree on a text whose last line no newline ends, and the count of the
    code is one more on every other text: on the empty text, and on a text
    that ends with a newline. *)
Lemma line_count_text_lines content :
  line_count content = text_lines content + (if open_end content then 0 else 1).
Proof.
  rewrite line_count_newlines.
  induction content as [|c rest IH]; [reflexivity|].
  cbn [occurrences text_lines open_end].
  destruct (Ascii.eqb c newline) eqn:E.
  - destruct rest as [|c' rest'].
    + cbn. reflexivity.
    + cbn [negb]. lia.
  - destruct rest as [|c' rest'].
    + cbn. reflexivity.
    + lia.
Qed.

Lemma count_untracked_value H root untracked :
  forall stats, exists stats',
    fst (count_untracked H root untracked stats) = Some stats'
    /\ forall p,
         stats' !! p
         = match (if mem p untracked then fs_read H (join H root p) else None) with
           | Some c => Some {| ins := line_count c; del := 0 |}
           | None => stats !! p
           end.
Proof.
  induction untracked as [|f rest IH]; intros stats.
  - exists stats. split; reflexivity.
  - cbn [count_untracked]. rewrite fst_bind, fst_try_catch, fst_bind.
    unfold readFileSync, perform. cbn [fst].
    destruct (fs_read H (join H root f)) as [c|] eqn:Er; cbn [fst ret].
    + destruct (IH (<[f := {| ins := line_count c; del := 0 |}]> stats))
        as (stats' & E & Hl).
      exists stats'. split; [exact E|]. intros p. rewrite Hl.
      unfold mem. cbn [existsb]. fold (mem p rest).
      destruct (String.eqb_spec p f) as [->|NE]; cbn [orb].
      * rewrite Er. destruct (mem f rest); [reflexivity|].
        apply lookup_insert_eq.
      * rewrite lookup_insert_ne by congruence. reflexivity.
    + destruct (IH stats) as (stats' & E & Hl).
      exists stats'. split; [exact E|]. intros p. rewrite Hl.
      unfold mem. cbn [existsb]. fold (mem p rest).
      destruct (String.eqb_spec p f) as [->|NE]; cbn [orb]; [|reflexivity].
      rewrite Er. destruct (mem f rest); reflexivity.
Qed.

(** [getDiffStats] never throws. When both summaries are obtained, the map
    is that of the summaries overridden by the untracked files that can be
    read; otherwise it is empty. The totals are the sums over the map. *)
Lemma getDiffStats_value H g root untracked :
  exists stats,
    fst (getDiffStats H g root untracked)
    = Some (stats, total ins stats, total del stats)
    /\ match git_diffSummary g ["--cached"], git_diffSummary g [] with
       | Some staged, Some unstaged =>
           fst (count_untracked H root untracked (summary_stats staged unstaged))
           = Some stats
       | _, _ => stats = ∅
       end.
Proof.
  unfold getDiffStats. rewrite fst_try_catch, fst_bind.
  unfold promise_all, diffSummary, perform. cbn [fst].
  destruct (git_diffSummary g ["--cached"]) as [staged|];
    [destruct (git_diffSummary g []) as [unstaged|]|].
  - destruct (count_untracked_value H root untracked
                (summary_stats staged unstaged)) as (stats & E & _).
    exists stats. split; [|exact E].
    rewrite fst_bind. cbn [fst snd]. fold (summary_stats staged unstaged).
    rewrite E. reflexivity.
  - exists ∅. split; reflexivity.
  - exists ∅. split; reflexivity.
Qed.

Lemma stat_of_nonneg stats p :
  nonneg_stats stats -> 0 <= ins (stat_of stats p) /\ 0 <= del (stat_of stats p).
Proof.
  intros Hs. unfold stat_of. destruct (stats !! p) as [s|] eqn:E; cbn.
  - exact (Hs p s E).
  - lia.
Qed.

Lemma add_summary_nonneg stats summary :
  nonneg_stats stats ->
  Forall (fun d => df_binary d = false ->
                   0 <= df_insertions d /\ 0 <= df_deletions d)
    (df_files summary) ->
  nonneg_stats (add_summary stats summary).
Proof.
  unfold add_summary. generalize (df_files summary) as l.
  intros l Hs Hl. revert stats Hs.
  induction Hl as [|d l Hd _ IH]; intros stats Hs; cbn [foldl]; [exact Hs|].
  apply IH. unfold add_summary_file.
  destruct (df_binary d); [exact Hs|].
  apply map_Forall_insert_2; [|exact Hs]. cbn [ins del].
  destruct (stat_of_nonneg stats (df_file d) Hs), (Hd eq_refl). lia.
Qed.

Lemma add_summary_lookup_other stats summary p :
  Forall (fun d => df_file d <> p) (df_files summary) ->
  add_summary stats summary !! p = stats !! p.
Proof.
  unfold add_summary. generalize (df_files summary) as l. intros l Hl.
  revert stats. induction Hl as [|d l Hd _ IH]; intros stats; cbn [foldl];
    [reflexivity|].
  rewrite IH. unfold add_summary_file.
  destruct (df_binary d); [reflexivity|]. apply lookup_insert_ne, Hd.
Qed.

Lemma count_untracked_nonneg H root untracked stats stats' :
  nonneg_stats stats ->
  fst (count_untracked H root untracked stats) = Some stats' ->
  nonneg_stats stats'.
Proof.
  intros Hs E.
  destruct (count_untracked_value H root untracked stats) as (s & E' & Hl).
  rewrite E in E'. injection E' as <-.
  intros p v Hp. rewrite Hl in Hp.
  destruct (if mem p untracked then fs_read H (join H root p) else None).
  - injection Hp as <-. cbn [ins del]. rewrite line_count_newlines. lia.
  - exact (Hs p v Hp).
Qed.

Lemma total_nonneg (f : LineStat -> Z) stats :
  map_Forall (fun (_ : string) s => 0 <= f s) stats -> 0 <= total f stats.
Proof.
  unfold total.
  apply (map_fold_weak_ind
           (fun r (m : gmap string LineStat) =>
              map_Forall (fun (_ : string) s => 0 <= f s) m -> 0 <= r)).
  - intros _. lia.
  - intros i x m r Hi IH Hall.
    apply map_Forall_insert in Hall; [|exact Hi].
    destruct Hall as [Hx Hm]. specialize (IH Hm). lia.
Qed.

Lemma getDiffStats_nonneg H g root untracked stats tI tD :
  sane_counts g ->
  fst (getDiffStats H g root untracked) = Some (stats, tI, tD) ->
  nonneg_stats stats /\ 0 <= tI /\ 0 <= tD.
Proof.
  intros Hsane E.
  destruct (getDiffStats_value H g root untracked) as (s & E' & Hs).
  rewrite E in E'. injection E' as -> -> ->.
  assert (Hn : nonneg_stats s).
  { destruct (git_diffSummary g ["--cached"]) as [staged|] eqn:E1;
      [destruct (git_diffSummary g []) as [unstaged|] eqn:E2|].
    - eapply count_untracked_nonneg; [|exact Hs].
      unfold summary_stats.
      apply add_summary_nonneg; [|exact (Hsane _ _ E2)].
      apply add_summary_nonneg; [|exact (Hsane _ _ E1)].
      apply map_Forall_empty.
    - subst s. apply map_Forall_empty.
    - subst s. apply map_Forall_empty. }
  split; [exact Hn|]. split; apply total_nonneg.
  - intros p v Hp. apply (Hn p v Hp).
  - intros p v Hp. apply (Hn p v Hp).
Qed.

Lemma mapStatus_nonneg H result stats :
  nonneg_stats stats ->
  Forall (fun f => 0 <= insertions f /\ 0 <= deletions f)
    (mapStatus H result stats).
Proof.
  intros Hs. apply List.Forall_forall. intros f Hf.
  apply mapStatus_In in Hf. destruct Hf as (s & _ & ->).
  cbn [push insertions deletions]. apply stat_of_nonneg, Hs.
Qed.

(** ** The repository handle *)

Lemma findRepoRoot_fails H cwd :
  discovery_fails H cwd -> fst (findRepoRoot H cwd) = Some None.
Proof.
  unfold discovery_fails, findRepoRoot. intros Hd.
  rewrite fst_try_catch, fst_bind. unfold of_option. cbn [fst].
  destruct (simpleGit H cwd) as [g|]; [|reflexivity].
  rewrite fst_bind. unfold revparse, perform. cbn [fst]. rewrite Hd.
  reflexivity.
Qed.

Lemma findRepoRoot_total H cwd : fst (findRepoRoot H cwd) <> None.
Proof.
  unfold findRepoRoot. rewrite fst_try_catch.
  destruct (fst _); discriminate.
Qed.

Lemma findRepoRoot_trace H cwd :
  snd (findRepoRoot H cwd) = [] \/ snd (findRepoRoot H cwd) = [discovery].
Proof.
  unfold findRepoRoot. rewrite snd_try_catch, fst_bind, snd_bind.
  unfold of_option. cbn [fst snd].
  destruct (simpleGit H cwd) as [g|]; [|left; reflexivity].
  rewrite fst_bind, snd_bind. unfold revparse, perform, ret. cbn [fst snd].
  destruct (git_revparse g ["--show-toplevel"]); right; reflexivity.
Qed.

Lemma ensureGit_cached H projectRoot st ctx :
  cached st = Some ctx -> ensureGit H projectRoot st = (ret (Some ctx), st).
Proof. intros E. unfold ensureGit. rewrite E. reflexivity. Qed.

Lemma ensureGit_trace H projectRoot st :
  snd (fst (ensureGit H projectRoot st)) = []
  \/ snd (fst (ensureGit H projectRoot st)) = [discovery].
Proof.
  unfold ensureGit. destruct (cached st); [left; reflexivity|].
  assert (Ht := findRepoRoot_trace H projectRoot).
  destruct (fst (findRepoRoot H projectRoot)) as [[root|]|]; cbn [fst snd];
    try exact Ht.
  destruct (truthy root); [destruct (simpleGit H root)|]; exact Ht.
Qed.

Lemma ensureGit_discovers H projectRoot st g :
  cached st = None ->
  simpleGit H projectRoot = Some g ->
  snd (fst (ensureGit H projectRoot st)) = [discovery].
Proof.
  intros Ec Eg. unfold ensureGit. rewrite Ec.
  assert (Ht : snd (findRepoRoot H projectRoot) = [discovery]).
  { unfold findRepoRoot. rewrite snd_try_catch, fst_bind, snd_bind.
    unfold of_option. cbn [fst snd]. rewrite Eg, fst_bind, snd_bind.
    unfold revparse, perform, ret. cbn [fst snd].
    destruct (git_revparse g ["--show-toplevel"]); reflexivity. }
  destruct (fst (findRepoRoot H projectRoot)) as [[root|]|]; cbn [fst snd];
    try exact Ht.
  destruct (truthy root); [destruct (simpleGit H root)|]; exact Ht.
Qed.

Lemma ensureGit_no_root H projectRoot st :
  cached st = None ->
  discovery_fails H projectRoot ->
  fst (fst (ensureGit H projectRoot st)) = Some None
  /\ cached (snd (ensureGit H projectRoot st)) = None.
Proof.
  intros Ec Hd. unfold ensureGit.
  rewrite Ec, (findRepoRoot_fails H projectRoot Hd). cbn [fst snd].
  split; [reflexivity|]. unfold cached. cbn [git repoRoot].
  destruct (git st); reflexivity.
Qed.

(** ** The status route *)

Lemma status_then_value H g root result :
  git_status g = Some result ->
  exists stats,
    fst (getDiffStats H g root (not_added result))
    = Some (stats, total ins stats, total del stats)
    /\ fst (status_then H (Some (g, root)))
       = Some (respond (status_body (mapStatus H result stats)
                          (total ins stats) (total del stats))).
Proof.
  intros Es.
  destruct (getDiffStats_value H g root (not_added result)) as (stats & E & _).
  exists stats. split; [exact E|].
  cbn [status_then]. rewrite fst_bind. unfold gitStatus, perform. cbn [fst].
  rewrite Es, fst_bind, E. reflexivity.
Qed.

Lemma status_then_fails H g root :
  git_status g = None -> fst (status_then H (Some (g, root))) = None.
Proof.
  intros Es. cbn [status_then]. rewrite fst_bind.
  unfold gitStatus, perform. cbn [fst]. rewrite Es. reflexivity.
Qed.

(** What a GET of the status route answers, by the outcome of [ensureGit]
    and of the [then] callback. *)
Lemma status_route_value H projectRoot st req :
  method req = "GET" ->
  fst (fst (status_route H projectRoot st req))
  = Some match fst (fst (ensureGit H projectRoot st)) with
         | Some ctx =>
             match fst (status_then H ctx) with
             | Some r => r
             | None => respond not_a_repo_status
             end
         | None => respond not_a_repo_status
         end.
Proof.
  intros Hm. unfold status_route. rewrite Hm, String.eqb_refl.
  cbn [negb fst]. rewrite fst_try_catch, fst_bind.
  destruct (fst (fst (ensureGit H projectRoot st))) as [ctx|]; [|reflexivity].
  destruct (fst (status_then H ctx)); reflexivity.
Qed.

Lemma status_route_total H projectRoot st req :
  fst (fst (status_route H projectRoot st req)) <> None.
Proof.
  destruct (String.eqb_spec (method req) "GET") as [Hm|Hm].
  - rewrite (status_route_value H projectRoot st req Hm). discriminate.
  - unfold status_route. apply String.eqb_neq in Hm. rewrite Hm.
    discriminate.
Qed.

Lemma demo_git_sane : sane_counts demo_git.
Proof.
  intros args summary E. destruct args as [|a args]; cbn in E;
    injection E as <-; cbn; repeat constructor; cbn; lia.
Qed.

Example status_of_the_test_repository :
  fst (fst (status_route repo_host "/repo/site" initial_state (get None)))
  = Some (respond (status_body
            [{| path := "existing.txt"; status := "M";
                insertions := 1; deletions := 0 |};
             {| path := "locked.txt"; status := "?";
                insertions := 0; deletions := 0 |};
             {| path := "new-file.txt"; status := "?";
                insertions := 2; deletions := 0 |}] 3 0)).
Proof. vm_compute. reflexivity. Qed.

(** C9, as the code has it. A GET of the status route always answers with
    status 200. When a repository handle is obtained and [git status]
    succeeds, the body is an object with the fields files, git (true),
    insertions and deletions, the counts being non-negative integers (the
    client reporting no negative count). In the degraded case (no handle,
    or [git status] failing) the body is exactly the object with files
    (empty) and git (false): it has no insertions and no deletions field. *)
Theorem status_response_shape
    (H : Host) (projectRoot : string) (st : RepoState) (req : Request) :
  method req = "GET" ->
  let ensured := fst (fst (ensureGit H projectRoot st)) in
  let response := fst (fst (status_route H projectRoot st req)) in
  (forall g root result,
     ensured = Some (Some (g, root)) ->
     git_status g = Some result ->
     sane_counts g ->
     exists files totalInsertions totalDeletions,
       response = Some (respond (status_body files totalInsertions totalDeletions))
       /\ 0 <= totalInsertions /\ 0 <= totalDeletions
       /\ Forall (fun f => 0 <= insertions f /\ 0 <= deletions f) files)
  /\ ((ensured = None \/ ensured = Some None
       \/ exists g root, ensured = Some (Some (g, root)) /\ git_status g = None) ->
      response = Some (respond not_a_repo_status)
      /\ field "insertions" not_a_repo_status = None
      /\ field "deletions" not_a_repo_status = None)
  /\ (cached st = None -> discovery_fails H projectRoot ->
      response = Some (respond not_a_repo_status)).
Proof.
  intros Hm ensured response. subst response.
  rewrite (status_route_value H projectRoot st req Hm). fold ensured.
  split; [|split];
    [| |intros Hc Hd; subst ensured;
        rewrite (proj1 (ensureGit_no_root H projectRoot st Hc Hd));
        reflexivity].
  - intros g root result -> Es Hsane.
    destruct (status_then_value H g root result Es) as (stats & Eg & ->).
    destruct (getDiffStats_nonneg H g root _ _ _ _ Hsane Eg) as (Hn & HI & HD).
    exists (mapStatus H result stats), (total ins stats), (total del stats).
    repeat split; try assumption. apply mapStatus_nonneg, Hn.
  - intros Hdeg. repeat split.
    destruct Hdeg as [-> | [-> | (g & root & -> & Es)]]; [reflexivity..|].
    rewrite (status_then_fails H g root Es). reflexivity.
Qed.

(** Outside a repository the status body has the fields files and git
    only. *)
Lemma status_degraded_lacks_totals :
  fst (fst (status_route plain_host "/tmp/plain" initial_state (get None)))
  = Some (respond not_a_repo_status)
  /\ field "files" not_a_repo_status = Some (JArr [])
  /\ field "git" not_a_repo_status = Some (JBool false)
  /\ field "insertions" not_a_repo_status = None
  /\ field "deletions" not_a_repo_status = None.
Proof. repeat split; vm_compute; reflexivity. Qed.

Lemma status_response_shape_witness :
  method (get None) = "GET"
  /\ fst (fst (ensureGit repo_host "/repo/site" initial_state))
     = Some (Some (demo_git, "/repo"))
  /\ sane_counts demo_git
  /\ exists files totalInsertions totalDeletions,
       fst (fst (status_route repo_host "/repo/site" initial_state (get None)))
       = Some (respond (status_body files totalInsertions totalDeletions))
       /\ 0 <= totalInsertions /\ 0 <= totalDeletions.
Proof.
  split; [reflexivity|]. split; [reflexivity|]. split; [exact demo_git_sane|].
  destruct (status_response_shape repo_host "/repo/site" initial_state
              (get None) eq_refl) as (Hfull & _ & _).
  destruct (Hfull demo_git "/repo" demo_status eq_refl eq_refl demo_git_sane)
    as (files & tI & tD & Hr & HI & HD & _).
  exists files, tI, tD. auto.
Defined.

Lemma first_status_untracked result f :
  first_status result f = Some "?" -> In f (not_added result).
Proof.
  unfold first_status.
  repeat match goal with
         | |- context [if mem f ?l then _ else _] =>
             destruct (mem f l) eqn:?; try discriminate
         end.
  intros _. apply mem_In. assumption.
Qed.

(** C6, as the code has it. Let a repository handle be obtained and [git
    status] succeed, and let [f] be an untracked path (reported as not
    added and in no other category); [f] is listed with status ?. When
    both diff summaries are obtained: if the content of [f] can be read,
    [f] has zero deletions and insertions equal to the number that the
    code counts, the newline-separated pieces of the content. That number
    is the file's line count only when the last line of the content is
    not ended by a newline; on the empty file and on a content that ends
    with a newline it is the line count plus one. If the read fails, the
    file sets no stats, and [f] has the counts accumulated from the two
    summaries, which are zero when the summaries do not mention [f]. When
    a diff summary is rejected, [f] has zero counts even if it can be
    read. *)
Theorem status_untracked_counts
    (H : Host) (projectRoot : string) (st : RepoState) (req : Request)
    (g : SimpleGit) (root : string) (result : StatusResult) (f : string) :
  method req = "GET" ->
  fst (fst (ensureGit H projectRoot st)) = Some (Some (g, root)) ->
  git_status g = Some result ->
  first_status result f = Some "?" ->
  exists files totalInsertions totalDeletions,
    fst (fst (status_route H projectRoot st req))
    = Some (respond (status_body files totalInsertions totalDeletions))
    /\ (forall staged unstaged,
          git_diffSummary g ["--cached"] = Some staged ->
          git_diffSummary g [] = Some unstaged ->
          (forall content,
             fs_read H (join H root f) = Some content ->
             In {| path := f; status := "?";
                   insertions := line_count content; deletions := 0 |} files
             /\ line_count content
                = text_lines content + (if open_end content then 0 else 1))
          /\ (fs_read H (join H root f) = None ->
              In {| path := f; status := "?";
                    insertions := ins (stat_of (summary_stats staged unstaged) f);
                    deletions := del (stat_of (summary_stats staged unstaged) f) |}
                 files
              /\ (Forall (fun d => df_file d <> f)
                    (df_files staged ++ df_files unstaged) ->
                  In {| path := f; status := "?";
                        insertions := 0; deletions := 0 |} files)))
    /\ (git_diffSummary g ["--cached"] = None \/ git_diffSummary g [] = None ->
        In {| path := f; status := "?"; insertions := 0; deletions := 0 |}
           files).
Proof.
  intros Hm He Es Hf.
  destruct (status_then_value H g root result Es) as (stats & Eg & Et).
  destruct (getDiffStats_value H g root (not_added result)) as (s & Eg' & Hs).
  rewrite Eg in Eg'. injection Eg' as <-.
  assert (Hmem : mem f (not_added result) = true)
    by apply mem_In, first_status_untracked, Hf.
  assert (Hentry : forall s0, stat_of stats f = s0 ->
            In {| path := f; status := "?";
                  insertions := ins s0; deletions := del s0 |}
               (mapStatus H result stats)).
  { intros s0 <-. apply mapStatus_In. exists "?". cbn [path].
    split; [exact Hf | reflexivity]. }
  exists (mapStatus H result stats), (total ins stats), (total del stats).
  split; [|split].
  - rewrite (status_route_value H projectRoot st req Hm), He, Et. reflexivity.
  - intros staged unstaged E1 E2. rewrite E1, E2 in Hs.
    destruct (count_untracked_value H root (not_added result)
                (summary_stats staged unstaged)) as (s & Es' & Hl).
    rewrite Hs in Es'. injection Es' as <-.
    specialize (Hl f). rewrite Hmem in Hl. split.
    + intros content Er. split; [|apply line_count_text_lines].
      apply (Hentry {| ins := line_count content; del := 0 |}).
      unfold stat_of. rewrite Hl, Er. reflexivity.
    + intros Er. rewrite Er in Hl.
      assert (Hst : stat_of stats f = stat_of (summary_stats staged unstaged) f).
      { unfold stat_of. rewrite Hl. reflexivity. }
      split; [apply Hentry, Hst|]. intros Hno.
      apply Forall_app in Hno. destruct Hno as [Hno1 Hno2].
      apply (Hentry {| ins := 0; del := 0 |}). rewrite Hst.
      unfold stat_of, summary_stats.
      rewrite !add_summary_lookup_other, lookup_empty by assumption.
      reflexivity.
  - intros Hfail. apply (Hentry {| ins := 0; del := 0 |}).
    assert (stats = ∅) as ->.
    { destruct Hfail as [E|E]; rewrite E in Hs; [exact Hs|].
      destruct (git_diffSummary g ["--cached"]); exact Hs. }
    unfold stat_of. rewrite lookup_empty. reflexivity.
Qed.

(** C6, the divergence. The untracked file [new-file.txt] of the test
    repository holds one line, ended by a newline; with both diff
    summaries obtained, the status route lists it with two insertions. An
    empty untracked file has no line and is counted as one. *)
Lemma status_untracked_count_exceeds_lines :
  fs_read repo_host (join repo_host "/repo" "new-file.txt")
  = Some ("brand new" +:+ nl)
  /\ text_lines ("brand new" +:+ nl) = 1
  /\ first_status demo_status "new-file.txt" = Some "?"
  /\ git_diffSummary demo_git ["--cached"] <> None
  /\ git_diffSummary demo_git [] <> None
  /\ fst (fst (status_route repo_host "/repo/site" initial_state (get None)))
     = Some (respond (status_body
               [{| path := "existing.txt"; status := "M";
                   insertions := 1; deletions := 0 |};
                {| path := "locked.txt"; status := "?";
                   insertions := 0; deletions := 0 |};
                {| path := "new-file.txt"; status := "?";
                   insertions := 2; deletions := 0 |}] 3 0))
  /\ text_lines EmptyString = 0
  /\ line_count EmptyString = 1.
Proof. repeat split; vm_compute; try reflexivity; discriminate. Qed.

(** With the diff summaries rejected, a readable untracked file is listed
    with zero insertions. *)
Lemma status_untracked_counts_need_summaries :
  fst (fst (status_route summaryless_host "/repo/site" initial_state (get None)))
  = Some (respond (status_body
            [{| path := "existing.txt"; status := "M";
                insertions := 0; deletions := 0 |};
             {| path := "locked.txt"; status := "?";
                insertions := 0; deletions := 0 |};
             {| path := "new-file.txt"; status := "?";
                insertions := 0; deletions := 0 |}] 0 0))
  /\ first_status demo_status "new-file.txt" = Some "?"
  /\ fs_read summaryless_host (join summaryless_host "/repo" "new-file.txt")
     = Some ("brand new" +:+ nl)
  /\ text_lines ("brand new" +:+ nl) = 1.
Proof. repeat split; vm_compute; reflexivity. Qed.

Lemma status_untracked_counts_witness :
  method (get None) = "GET"
  /\ fst (fst (ensureGit repo_host "/repo/site" initial_state))
     = Some (Some (demo_git, "/repo"))
  /\ git_status demo_git = Some demo_status
  /\ first_status demo_status "new-file.txt" = Some "?"
  /\ exists files totalInsertions totalDeletions,
       fst (fst (status_route repo_host "/repo/site" initial_state (get None)))
       = Some (respond (status_body files totalInsertions totalDeletions))
       /\ In {| path := "new-file.txt"; status := "?";
                insertions := 2; deletions := 0 |} files.
Proof.
  split; [reflexivity|]. split; [reflexivity|]. split; [reflexivity|].
  split; [reflexivity|].
  destruct (status_untracked_counts repo_host "/repo/site" initial_state
              (get None) demo_git "/repo" demo_status "new-file.txt"
              eq_refl eq_refl eq_refl eq_refl)
    as (files & tI & tD & Hr & Hok & _).
  exists files, tI, tD. split; [exact Hr|].
  destruct (Hok _ _ eq_refl eq_refl) as [Hread _].
  exact (proj1 (Hread ("brand new" +:+ nl) eq_refl)).
Defined.

(** ** The diff route *)



Lemma getFileDiff_total H g repoRoot filePath :
  fst (getFileDiff H g repoRoot filePath) <> None.
Proof.
  unfold getFileDiff.
  destruct (negb _ && negb _); [discriminate|].
  rewrite fst_try_catch. destruct (fst _); discriminate.
Qed.

Lemma getFileDiff_fails H g repoRoot filePath :
  git_diff g ["--cached"; "--"; filePath] = None
  \/ git_diff g ["--"; filePath] = None ->
  fst (getFileDiff H g repoRoot filePath) = Some EmptyString.
Proof.
  intros Hf. unfold getFileDiff.
  destruct (negb _ && negb _); [reflexivity|].
  rewrite fst_try_catch, fst_bind. unfold gitDiff at 1, perform. cbn [fst].
  destruct (git_diff g ["--cached"; "--"; filePath]) as [staged|];
    [|reflexivity].
  rewrite fst_bind. unfold gitDiff at 1, perform. cbn [fst].
  destruct Hf as [Hf|Hf]; [discriminate|]. rewrite Hf. reflexivity.
Qed.

Lemma diff_then_scoped H g root p :
  truthy p = true -> startsWith p "/" = false ->
  diff_then H (Some p) (Some (g, root))
  = (diff <- getFileDiff H g root p ;; ret (respond (diff_body diff p))).
Proof.
  intros Hp Hrel. destruct p as [|c rest]; [discriminate|].
  cbn [diff_then]. rewrite Hrel. reflexivity.
Qed.

Lemma diff_then_absolute H g root p :
  startsWith p "/" = true ->
  diff_then H (Some p) (Some (g, root)) = ret bad_request.
Proof.
  intros Habs. destruct p as [|c rest]; [discriminate|].
  cbn [diff_then]. rewrite Habs. reflexivity.
Qed.

Lemma diff_then_whole_fails H g root :
  git_diff g ["--cached"] = None \/ git_diff g [] = None ->
  fst (diff_then H None (Some (g, root))) = None.
Proof.
  intros Hf. cbn [diff_then]. rewrite fst_bind.
  unfold gitDiff at 1, perform. cbn [fst].
  destruct (git_diff g ["--cached"]) as [staged|]; [|reflexivity].
  rewrite fst_bind. unfold gitDiff at 1, perform. cbn [fst].
  destruct Hf as [Hf|Hf]; [discriminate|]. rewrite Hf. reflexivity.
Qed.

(** What a GET of the diff route answers and the host calls it makes, by
    the outcome of [ensureGit] and of the [then] callback. *)
Lemma query_path_parses (req : Request) (p : string) :
  query_path req = Some p -> url req <> None.
Proof. unfold query_path. destruct (url req); [discriminate|discriminate]. Qed.

Lemma query_path_url (req : Request) :
  url req <> None -> url req = Some (query_path req).
Proof. unfold query_path. destruct (url req); [reflexivity|congruence]. Qed.

Lemma diff_route_value H projectRoot st req :
  method req = "GET" ->
  url req <> None ->
  fst (fst (diff_route H projectRoot st req))
  = Some match fst (fst (ensureGit H projectRoot st)) with
         | Some ctx =>
             match fst (diff_then H (query_path req) ctx) with
             | Some r => r
             | None => respond empty_diff
             end
         | None => respond empty_diff
         end.
Proof.
  intros Hm Hu. unfold diff_route.
  rewrite Hm, String.eqb_refl, (query_path_url req Hu).
  cbn [negb fst]. rewrite fst_try_catch, fst_bind.
  destruct (fst (fst (ensureGit H projectRoot st))) as [ctx|]; [|reflexivity].
  destruct (fst (diff_then H (query_path req) ctx)); reflexivity.
Qed.

Lemma diff_route_trace H projectRoot st req :
  method req = "GET" ->
  url req <> None ->
  snd (fst (diff_route H projectRoot st req))
  = snd (fst (ensureGit H projectRoot st))
    ++ match fst (fst (ensureGit H projectRoot st)) with
       | Some ctx => snd (diff_then H (query_path req) ctx)
       | None => []
       end.
Proof.
  intros Hm Hu. unfold diff_route.
  rewrite Hm, String.eqb_refl, (query_path_url req Hu).
  cbn [negb fst]. rewrite snd_try_catch, fst_bind, snd_bind.
  destruct (fst (fst (ensureGit H projectRoot st))) as [ctx|];
    [|reflexivity].
  destruct (fst (diff_then H (query_path req) ctx));
    [|rewrite app_nil_r]; reflexivity.
Qed.

Lemma diff_route_state H projectRoot st req :
  method req = "GET" ->
  url req <> None ->
  snd (diff_route H projectRoot st req) = snd (ensureGit H projectRoot st).
Proof.
  intros Hm Hu. unfold diff_route.
  rewrite Hm, String.eqb_refl, (query_path_url req Hu). reflexivity.
Qed.

(** A request whose URL cannot be parsed makes the handler throw, before
    [ensureGit] is called. *)
Lemma diff_route_throws H projectRoot st req :
  method req = "GET" ->
  url req = None ->
  diff_route H projectRoot st req = ((None, []), st).
Proof.
  intros Hm Hu. unfold diff_route. rewrite Hm, String.eqb_refl, Hu.
  reflexivity.
Qed.

Lemma diff_route_total H projectRoot st req :
  url req <> None ->
  fst (fst (diff_route H projectRoot st req)) <> None.
Proof.
  intros Hu. destruct (String.eqb_spec (method req) "GET") as [Hm|Hm].
  - rewrite (diff_route_value H projectRoot st req Hm Hu). discriminate.
  - unfold diff_route. apply String.eqb_neq in Hm. rewrite Hm.
    discriminate.
Qed.




(** C3, as the code has it. A GET of the diff route whose path starts
    with "/" first resolves the repository handle: the only host call it
    can make is the repository discovery ([rev-parse --show-toplevel]),
    made when no handle is cached; there is no filesystem access and no
    diff command. With a handle, the answer is the client error 400; when
    no repository root is found, the answer is the degraded body with an
    empty diff and git false, with status 200. *)
Theorem diff_absolute_path
    (H : Host) (projectRoot : string) (st : RepoState) (req : Request)
    (p : string) :
  method req = "GET" ->
  query_path req = Some p ->
  startsWith p "/" = true ->
  let ensured := fst (ensureGit H projectRoot st) in
  let out := fst (diff_route H projectRoot st req) in
  snd out = snd ensured
  /\ (snd out = [] \/ snd out = [discovery])
  /\ (forall g, cached st = None -> simpleGit H projectRoot = Some g ->
                snd out = [discovery])
  /\ (forall ctx, cached st = Some ctx -> out = (Some bad_request, []))
  /\ (forall ctx, fst ensured = Some (Some ctx) -> fst out = Some bad_request)
  /\ (fst ensured = Some None -> fst out = Some (respond not_a_repo_diff))
  /\ (cached st = None -> discovery_fails H projectRoot ->
      fst out = Some (respond not_a_repo_diff))
  /\ (fst ensured = None -> fst out = Some (respond empty_diff)).
Proof.
  intros Hm Hq Habs ensured out.
  pose proof (query_path_parses req p Hq) as Hu.
  assert (Htrace : snd out = snd ensured).
  { subst out ensured. rewrite (diff_route_trace H projectRoot st req Hm Hu), Hq.
    destruct (fst (fst (ensureGit H projectRoot st))) as [[[g root]|]|];
      rewrite ?(diff_then_absolute H g root p Habs); apply app_nil_r. }
  assert (Hval : forall ctx, fst ensured = Some (Some ctx) ->
                             fst out = Some bad_request).
  { intros [g root] He. subst out ensured.
    rewrite (diff_route_value H projectRoot st req Hm Hu), He, Hq.
    rewrite (diff_then_absolute H g root p Habs). reflexivity. }
  assert (Hnone : fst ensured = Some None ->
                  fst out = Some (respond not_a_repo_diff)).
  { intros He. subst out ensured.
    rewrite (diff_route_value H projectRoot st req Hm Hu), He. reflexivity. }
  split; [exact Htrace|].
  split; [|split; [|split; [|split; [|split; [|split]]]]].
  - rewrite Htrace. apply ensureGit_trace.
  - intros g Hc Hg. rewrite Htrace. subst ensured.
    apply (ensureGit_discovers H projectRoot st g Hc Hg).
  - intros ctx Hc. apply injective_projections.
    + apply (Hval ctx). subst ensured.
      rewrite (ensureGit_cached H projectRoot st ctx Hc). reflexivity.
    + rewrite Htrace. subst ensured.
      rewrite (ensureGit_cached H projectRoot st ctx Hc). reflexivity.
  - exact Hval.
  - exact Hnone.
  - intros Hc Hd. apply Hnone. subst ensured.
    apply (ensureGit_no_root H projectRoot st Hc Hd).
  - intros He. subst out ensured.
    rewrite (diff_route_value H projectRoot st req Hm Hu), He. reflexivity.
Qed.

(** Outside a repository, an absolute path gets the degraded answer with
    status 200, after the discovery call was made; inside a repository
    whose handle is not cached yet, the refusal comes after that call. *)
Lemma diff_absolute_path_not_refused_outright :
  let out := fst (diff_route plain_host "/tmp/plain" initial_state
                    (get (Some "/etc/passwd"))) in
  startsWith "/etc/passwd" "/" = true
  /\ out = (Some (respond not_a_repo_diff), [discovery])
  /\ ~ (exists r, fst out = Some r /\ client_error r = true)
  /\ snd out <> []
  /\ fst (diff_route repo_host "/repo/site" initial_state
            (get (Some "/etc/passwd")))
     = (Some bad_request, [discovery]).
Proof.
  cbv zeta. split; [reflexivity|]. split; [vm_compute; reflexivity|].
  split; [|split].
  - intros (r & Hr & Hc). vm_compute in Hr. injection Hr as <-.
    vm_compute in Hc. discriminate.
  - vm_compute. discriminate.
  - vm_compute. reflexivity.
Qed.

Lemma diff_absolute_path_witness :
  method (get (Some "/etc/passwd")) = "GET"
  /\ query_path (get (Some "/etc/passwd")) = Some "/etc/passwd"
  /\ startsWith "/etc/passwd" "/" = true
  /\ fst (fst (ensureGit repo_host "/repo/site" initial_state))
     = Some (Some (demo_git, "/repo"))
  /\ fst (fst (diff_route repo_host "/repo/site" initial_state
                 (get (Some "/etc/passwd"))))
     = Some bad_request
  /\ client_error bad_request = true.
Proof.
  split; [reflexivity|]. split; [reflexivity|]. split; [reflexivity|].
  split; [reflexivity|]. split; [|reflexivity].
  destruct (diff_absolute_path repo_host "/repo/site" initial_state
              (get (Some "/etc/passwd")) "/etc/passwd" eq_refl eq_refl eq_refl)
    as (_ & _ & _ & _ & Hctx & _).
  apply (Hctx (demo_git, "/repo")). reflexivity.
Defined.

(** ** Without a repository *)

(** C5. When the repository discovery fails for the project root (not
    inside a repository, or the git tool failing) and no handle is cached,
    a GET of the status route answers, with status 200, the object whose
    [files] is the empty list and whose [git] is false, and a GET of the
    diff route whose URL parses answers the object whose [diff] is the
    empty string and whose [git] is false; no handle gets cached, so this
    holds for every later request as well. The status route never
    throws, and the diff route never throws on a request whose URL
    parses, whatever the host answers; on a GET whose URL does not parse
    the diff handler throws, before any host call. When a handle exists
    but the git command of the route fails, the answers are degraded
    ones too: git false with no files, and an empty diff. *)
Theorem degraded_without_repository
    (H : Host) (projectRoot : string) (st : RepoState) (req : Request) :
  method req = "GET" ->
  cached st = None ->
  discovery_fails H projectRoot ->
  fst (fst (status_route H projectRoot st req))
  = Some {| statusCode := 200;
            body := JObj [("files", JArr []); ("git", JBool false)] |}
  /\ (url req <> None ->
      fst (fst (diff_route H projectRoot st req))
      = Some {| statusCode := 200;
                body := JObj [("diff", JStr EmptyString);
                              ("git", JBool false)] |})
  /\ cached (snd (status_route H projectRoot st req)) = None
  /\ cached (snd (diff_route H projectRoot st req)) = None
  /\ (forall st' req',
        fst (fst (status_route H projectRoot st' req')) <> None)
  /\ (forall st' req',
        url req' <> None ->
        fst (fst (diff_route H projectRoot st' req')) <> None)
  /\ (forall st' req',
        method req' = "GET" -> url req' = None ->
        diff_route H projectRoot st' req' = ((None, []), st'))
  /\ (forall st' req' g root,
        method req' = "GET" ->
        fst (fst (ensureGit H projectRoot st')) = Some (Some (g, root)) ->
        (git_status g = None ->
         fst (fst (status_route H projectRoot st' req'))
         = Some {| statusCode := 200;
                   body := JObj [("files", JArr []); ("git", JBool false)] |})
        /\ (url req' = Some None ->
            git_diff g ["--cached"] = None \/ git_diff g [] = None ->
            fst (fst (diff_route H projectRoot st' req'))
            = Some {| statusCode := 200;
                      body := JObj [("diff", JStr EmptyString)] |})
        /\ (forall p,
              url req' = Some (Some p) -> p <> EmptyString ->
              startsWith p "/" = false ->
              git_diff g ["--cached"; "--"; p] = None
              \/ git_diff g ["--"; p] = None ->
              fst (fst (diff_route H projectRoot st' req'))
              = Some {| statusCode := 200;
                        body := JObj [("diff", JStr EmptyString);
                                      ("path", JStr p)] |})).
Proof.
  intros Hm Hc Hd.
  destruct (ensureGit_no_root H projectRoot st Hc Hd) as [He Hc'].
  split; [|split; [|split; [|split; [|split; [|split; [|split]]]]]].
  - rewrite (status_route_value H projectRoot st req Hm), He. reflexivity.
  - intros Hu.
    rewrite (diff_route_value H projectRoot st req Hm Hu), He. reflexivity.
  - unfold status_route. rewrite Hm, String.eqb_refl. exact Hc'.
  - destruct (url req) as [filePath|] eqn:Hu.
    + rewrite (diff_route_state H projectRoot st req Hm); [exact Hc'|].
      rewrite Hu. discriminate.
    + rewrite (diff_route_throws H projectRoot st req Hm Hu). exact Hc.
  - intros st' req'. apply status_route_total.
  - intros st' req'. apply diff_route_total.
  - intros st' req'. apply diff_route_throws.
  - intros st' req' g root Hm' He'. split; [|split].
    + intros Es.
      rewrite (status_route_value H projectRoot st' req' Hm'), He'.
      rewrite (status_then_fails H g root Es). reflexivity.
    + intros Hq Hf.
      assert (Hu : url req' <> None) by (rewrite Hq; discriminate).
      rewrite (diff_route_value H projectRoot st' req' Hm' Hu), He'.
      unfold query_path. rewrite Hq.
      rewrite (diff_then_whole_fails H g root Hf). reflexivity.
    + intros p Hq Hp Hrel Hf. apply truthy_true in Hp.
      assert (Hu : url req' <> None) by (rewrite Hq; discriminate).
      rewrite (diff_route_value H projectRoot st' req' Hm' Hu), He'.
      unfold query_path. rewrite Hq.
      rewrite (diff_then_scoped H g root p Hp Hrel), fst_bind.
      rewrite (getFileDiff_fails H g root p Hf). reflexivity.
Qed.

(** A GET of the diff route whose URL cannot be parsed: outside a
    repository as anywhere else, the handler throws instead of giving the
    degraded answer. *)
Lemma diff_route_throws_on_unparsable_url :
  let req := {| method := "GET"; url := None |} in
  discovery_fails plain_host "/tmp/plain"
  /\ diff_route plain_host "/tmp/plain" initial_state req
     = ((None, []), initial_state)
  /\ ~ (forall st req',
          fst (fst (diff_route plain_host "/tmp/plain" st req')) <> None).
Proof.
  cbv zeta. split; [reflexivity|]. split; [reflexivity|].
  intros Hall.
  apply (Hall initial_state {| method := "GET"; url := None |}).
  reflexivity.
Qed.

Lemma degraded_without_repository_witness :
  method (get None) = "GET"
  /\ cached initial_state = None
  /\ discovery_fails plain_host "/tmp/plain"
  /\ fst (fst (status_route plain_host "/tmp/plain" initial_state (get None)))
     = Some {| statusCode := 200;
               body := JObj [("files", JArr []); ("git", JBool false)] |}
  /\ fst (fst (diff_route plain_host "/tmp/plain" initial_state (get None)))
     = Some {| statusCode := 200;
               body := JObj [("diff", JStr EmptyString);
                             ("git", JBool false)] |}.
Proof.
  split; [reflexivity|]. split; [reflexivity|]. split; [reflexivity|].
  destruct (degraded_without_repository plain_host "/tmp/plain" initial_state
              (get None) eq_refl eq_refl eq_refl) as (Hs & Hd & _).
  split; [exact Hs | apply Hd; discriminate].
Defined.

(** * Further properties *)

(** ** The listing: order and host calls *)

Lemma NoDup_sort_by {A} (cmp : A -> A -> Z) (l : list A) :
  NoDup l -> NoDup (sort_by cmp l).
Proof.
  intros Hl. rewrite (sort_by_perm cmp l). exact Hl.
Qed.

(** X1. The editable-file listing is always produced, in ascending order
    of code units, and holds no path twice. *)
Theorem resolveEditableFiles_sorted_unique
    (H : Host) (resolvedPatterns : list string) (projectRoot : string) :
  exists l,
    fst (resolveEditableFiles H resolvedPatterns projectRoot) = Some l
    /\ StronglySorted (fun a b => compare_units a b <= 0) l
    /\ NoDup l.
Proof.
  destruct (resolveEditableFiles_loop_value H projectRoot resolvedPatterns [])
    as (files & Hv & _).
  exists (sort_by compare_units (filter_seen id ∅ files)).
  split; [|split].
  - unfold resolveEditableFiles. rewrite (value_bind _ _ _ Hv). reflexivity.
  - apply sort_by_sorted.
    + apply compare_units_total.
    + apply compare_units_trans.
  - apply NoDup_sort_by.
    pose proof (filter_seen_NoDup id files ∅) as Hn.
    rewrite map_id in Hn. exact Hn.
Qed.

Lemma opened_here H entries dir :
  opened H (NDir entries) dir (EvReaddir dir).
Proof. exists []. split; [constructor | reflexivity]. Qed.

Lemma opened_below H entries name child dir e :
  In (name, child) entries ->
  isDirectory child = true ->
  skipped name = false ->
  opened H child (join H dir name) e ->
  opened H (NDir (Some entries)) dir e.
Proof.
  intros Hin Hd Hs (names & Hn & ->). exists (name :: names).
  split; [econstructor; eassumption | reflexivity].
Qed.

Lemma collect_entries_calls H root dir recur (P : Event -> Prop) es :
  Forall (fun e => isDirectory (snd e) = true -> skipped (fst e) = false ->
                   Forall P (snd (recur (snd e) (join H dir (fst e))))) es ->
  forall results,
    Forall P (snd (collect_entries H recur dir root es results)).
Proof.
  induction 1 as [|[name child] es Hc _ IH]; intros results.
  - constructor.
  - cbn [collect_entries]. cbn [fst snd] in Hc.
    destruct (isDirectory child) eqn:Hd.
    + fold (skipped name). destruct (skipped name) eqn:Hskip.
      * apply IH.
      * rewrite snd_bind.
        pose proof (Hc eq_refl eq_refl) as Hsub.
        destruct (fst (recur child (join H dir name))) as [sub|];
          [|exact Hsub].
        apply Forall_app. split; [exact Hsub|].
        destruct (spread_ok H (length sub)); [apply IH | constructor].
    + destruct (isFile child); apply IH.
Qed.

Lemma collectFiles_calls H root n :
  forall dir,
    isDirectory n = true ->
    Forall (opened H n dir) (snd (collectFiles H n dir root)).
Proof.
  induction n as [| | |entries IH] using Node_tree_ind; intros dir Hn;
    try discriminate.
  - repeat constructor. apply opened_here.
  - cbn [collectFiles]. rewrite snd_try_catch, fst_bind, !snd_bind.
    cbn [readdirSync perform fst snd ret].
    assert (Hes : Forall (opened H (NDir (Some entries)) dir)
                    (snd (collect_entries H
                            (fun child fullPath =>
                               collectFiles H child fullPath root)
                            dir root entries []))).
    { apply collect_entries_calls.
      apply List.Forall_forall. intros [name child] Hin Hd Hs.
      cbn [fst snd] in *.
      eapply Forall_impl.
      - exact (proj1 (List.Forall_forall _ _) IH (name, child) Hin
                 (join H dir name) Hd).
      - intros e. apply (opened_below H entries name child dir e Hin Hd Hs). }
    destruct (fst (collect_entries H _ dir root entries [])).
    + constructor; [apply opened_here | exact Hes].
    + rewrite app_nil_r. constructor; [apply opened_here | exact Hes].
Qed.

Lemma stats_app (t1 t2 : list Event) : stats (t1 ++ t2) = stats t1 ++ stats t2.
Proof.
  induction t1 as [|e t1 IH]; [reflexivity|].
  cbn [app stats]. destruct e; rewrite IH; reflexivity.
Qed.

Lemma stats_opened H n dir (trace : list Event) :
  Forall (opened H n dir) trace -> stats trace = [].
Proof.
  induction 1 as [|e trace (names & _ & ->) _ IH]; [reflexivity|exact IH].
Qed.

(** The host calls for one pattern: its [statSync], then the calls of the
    walk when it is a directory. *)
Lemma pattern_calls H root abs files :
  snd (try_catch
         (stat <- statSync H abs ;;
          if isDirectory stat then
            sub <- collectFiles H stat abs root ;;
            if spread_ok H (length sub) then ret (files ++ sub)
            else of_option None
          else if isFile stat then ret (files ++ [relative H root abs])
          else ret files)
         (ret files))
  = EvStat abs
    :: match fs_node H abs with
       | Some n => if isDirectory n then snd (collectFiles H n abs root)
                   else []
       | None => []
       end.
Proof.
  rewrite snd_try_catch, fst_bind, snd_bind.
  cbn [statSync perform fst snd].
  destruct (fs_node H abs) as [n|]; [|reflexivity].
  destruct (isDirectory n).
  - rewrite fst_bind, snd_bind.
    destruct (fst (collectFiles H n abs root)) as [sub|];
      [destruct (spread_ok H (length sub))|];
      cbn [ret of_option fst snd app]; rewrite ?app_nil_r; reflexivity.
  - destruct (isFile n); reflexivity.
Qed.

Lemma resolveEditableFiles_loop_calls H root pats :
  forall files,
    stats (snd (resolveEditableFiles_loop H pats root files)) = pats
    /\ Forall (fun e =>
                (exists abs, In abs pats /\ e = EvStat abs)
                \/ exists abs n,
                     In abs pats /\ fs_node H abs = Some n
                     /\ opened H n abs e)
         (snd (resolveEditableFiles_loop H pats root files))
    /\ forall abs entries,
         In abs pats -> fs_node H abs = Some (NDir entries) ->
         In (EvReaddir abs) (snd (resolveEditableFiles_loop H pats root files)).
Proof.
  induction pats as [|abs pats IH]; intros files.
  - split; [reflexivity|]. split; [constructor|]. intros ? ? [].
  - cbn [resolveEditableFiles_loop]. rewrite snd_bind.
    set (step := try_catch _ (ret files)).
    assert (Hstep : snd step
                    = EvStat abs
                      :: match fs_node H abs with
                         | Some n => if isDirectory n
                                     then snd (collectFiles H n abs root)
                                     else []
                         | None => []
                         end) by apply pattern_calls.
    assert (Hwalk : forall n, fs_node H abs = Some n -> isDirectory n = true ->
                    Forall (opened H n abs) (snd (collectFiles H n abs root))).
    { intros n _ Hd. apply collectFiles_calls, Hd. }
    assert (Hfst : exists files', fst step = Some files').
    { subst step. rewrite fst_try_catch.
      destruct (fst (stat <- statSync H abs ;; _)); eauto. }
    destruct Hfst as (files' & ->).
    destruct (IH files') as (Hs & Hall & Hroot).
    rewrite Hstep. split; [|split].
    + cbn [app stats]. rewrite stats_app, Hs. f_equal.
      destruct (fs_node H abs) as [n|] eqn:En; [|reflexivity].
      destruct (isDirectory n) eqn:Hd; [|reflexivity].
      rewrite (stats_opened H n abs _ (Hwalk n eq_refl Hd)). reflexivity.
    + cbn [app]. constructor.
      { left. exists abs. split; [left; reflexivity | reflexivity]. }
      apply Forall_app. split.
      * destruct (fs_node H abs) as [n|] eqn:En; [|constructor].
        destruct (isDirectory n) eqn:Hd; [|constructor].
        eapply Forall_impl; [exact (Hwalk n eq_refl Hd)|].
        intros e He. right. exists abs, n.
        split; [left; reflexivity|]. split; [exact En | exact He].
      * eapply Forall_impl; [exact Hall|].
        intros e [(a & Hin & ->)|(a & n & Hin & En & He)].
        -- left. exists a. split; [right; exact Hin | reflexivity].
        -- right. exists a, n. split; [right; exact Hin|]. auto.
    + intros a entries [<-|Hin] En.
      * right. apply in_app_iff. left. rewrite En. cbn [isDirectory].
        destruct entries as [es|]; cbn [collectFiles].
        -- rewrite snd_try_catch, fst_bind, !snd_bind.
           cbn [readdirSync perform fst snd].
           destruct (fst (collect_entries H _ abs root es []));
             left; reflexivity.
        -- left. reflexivity.
      * right. apply in_app_iff. right. apply (Hroot a entries Hin En).
Qed.

(** X2. The host calls of the listing. [statSync] is called once per
    resolved pattern, in the order of the patterns. Every other call is a
    [readdirSync] of a directory reached from a pattern that is a
    directory, through entries of the tree that are directories and whose
    names are neither node_modules nor .git: the subdirectories so named
    are not entered, no file content is read, and no git command is run.
    The directory of each directory pattern is itself opened. *)
Theorem resolveEditableFiles_calls
    (H : Host) (resolvedPatterns : list string) (projectRoot : string) :
  let trace := snd (resolveEditableFiles H resolvedPatterns projectRoot) in
  stats trace = resolvedPatterns
  /\ Forall (fun e =>
              (exists abs, In abs resolvedPatterns /\ e = EvStat abs)
              \/ exists abs n names,
                   In abs resolvedPatterns
                   /\ fs_node H abs = Some n
                   /\ Reach n names
                   /\ e = EvReaddir (descend H abs names))
       trace
  /\ forall abs entries,
       In abs resolvedPatterns ->
       fs_node H abs = Some (NDir entries) ->
       In (EvReaddir abs) trace.
Proof.
  cbn zeta. unfold resolveEditableFiles. rewrite snd_bind.
  destruct (resolveEditableFiles_loop_calls H projectRoot resolvedPatterns [])
    as (Hs & Hall & Hroot).
  assert (Htrace :
    match fst (resolveEditableFiles_loop H resolvedPatterns projectRoot []) with
    | Some a =>
        snd (resolveEditableFiles_loop H resolvedPatterns projectRoot [])
        ++ snd (ret (sort_by compare_units (filter_seen id ∅ a)))
    | None => snd (resolveEditableFiles_loop H resolvedPatterns projectRoot [])
    end = snd (resolveEditableFiles_loop H resolvedPatterns projectRoot [])).
  { destruct (fst (resolveEditableFiles_loop H resolvedPatterns projectRoot []));
      [apply app_nil_r | reflexivity]. }
  rewrite Htrace. split; [exact Hs|]. split; [|exact Hroot].
  eapply Forall_impl; [exact Hall|].
  intros e [?|(abs & n & Hin & En & names & Hr & ->)]; [auto|].
  right. exists abs, n, names. auto.
Qed.

(** ** Allowed paths: host calls, pattern sets, directory boundaries *)

Lemma isPathAllowed_loop_step H abs pat rest :
  isPathAllowed_loop H abs (pat :: rest)
  = if contains H abs pat then (Some true, [EvStat pat])
    else (fst (isPathAllowed_loop H abs rest),
          EvStat pat :: snd (isPathAllowed_loop H abs rest)).
Proof.
  cbn [isPathAllowed_loop].
  unfold contains, bind, try_catch, statSync, perform, ret; cbn [fst snd].
  destruct (fs_node H pat) as [[| |es]|]; cbn [fst snd isDirectory].
  all: match goal with
       | |- context [if ?b then (Some true, _) else _] =>
           destruct b; cbn [fst snd orb app]; reflexivity
       end.
Qed.

Lemma isPathAllowed_loop_calls H abs pats :
  exists checked rest,
    pats = checked ++ rest
    /\ snd (isPathAllowed_loop H abs pats) = map EvStat checked
    /\ (fst (isPathAllowed_loop H abs pats) = Some true ->
        exists front pat,
          checked = front ++ [pat]
          /\ contains H abs pat = true
          /\ Forall (fun q => contains H abs q = false) front)
    /\ (fst (isPathAllowed_loop H abs pats) = Some false -> rest = []).
Proof.
  induction pats as [|pat pats IH].
  - exists [], []. split; [reflexivity|]. split; [reflexivity|].
    split; [discriminate | reflexivity].
  - rewrite isPathAllowed_loop_step.
    destruct (contains H abs pat) eqn:Hc.
    + exists [pat], pats. split; [reflexivity|]. split; [reflexivity|].
      split; [|discriminate].
      intros _. exists [], pat. split; [reflexivity|].
      split; [exact Hc | constructor].
    + destruct IH as (checked & rest & -> & Htr & Ht & Hf).
      exists (pat :: checked), rest. cbn [fst snd].
      split; [reflexivity|]. split; [cbn [map]; rewrite Htr; reflexivity|].
      split; [|exact Hf].
      intros Hv. destruct (Ht Hv) as (front & q & -> & Hq & Hfront).
      exists (pat :: front), q. split; [reflexivity|].
      split; [exact Hq | constructor; assumption].
Qed.

(** ** The listing is complete where arrays can be spread *)

Lemma weight_entries es : weight (NDir (Some es)) = entries_weight es.
Proof.
  unfold entries_weight. induction es as [|[name child] es IH]; [reflexivity|].
  change (weight (NDir (Some ((name, child) :: es))))
    with (weight child + weight (NDir (Some es)))%nat.
  rewrite IH. reflexivity.
Qed.

Lemma collect_entries_complete H root dir recur bound es :
  (forall k, (k <= bound)%nat -> spread_ok H k = true) ->
  Forall (fun e => forall d, exists l,
            fst (recur (snd e) d) = Some l
            /\ (length l <= weight (snd e))%nat
            /\ ((weight (snd e) <= bound)%nat ->
                forall p, listed H root (snd e) d p -> In p l)) es ->
  forall results, exists l,
    fst (collect_entries H recur dir root es results) = Some l
    /\ (length l <= length results + entries_weight es)%nat
    /\ ((entries_weight es <= bound)%nat ->
        forall p,
          In p results
          \/ (exists name child, In (name, child) es
                /\ ((child = NFile /\ p = relative H root (join H dir name))
                    \/ (isDirectory child = true /\ skipped name = false
                        /\ listed H root child (join H dir name) p))) ->
          In p l).
Proof.
  intros Hspread. induction 1 as [|[name child] es Hc _ IH]; intros results.
  - exists results. split; [reflexivity|]. split; [cbn; lia|].
    intros _ p [?|(?&?&[]&_)]. assumption.
  - cbn [collect_entries]. cbn [snd] in Hc.
    assert (Ew : entries_weight ((name, child) :: es)
                 = (weight child + entries_weight es)%nat) by reflexivity.
    rewrite Ew. clear Ew.
    destruct child as [| |entries]; cbn [isDirectory isFile].
    + destruct (IH (results ++ [relative H root (join H dir name)]))
        as (l & El & Hlen & Hl).
      exists l. split; [exact El|]. rewrite length_app in Hlen. cbn in Hlen.
      split; [cbn; lia|]. intros Hb p Hp. apply Hl; [cbn in Hb; lia|].
      destruct Hp as [Hp|(n' & c' & [Heq|Hin] & Hcase)].
      * left. apply in_app_iff. auto.
      * inversion Heq; subst. destruct Hcase as [[_ ->]|[Hd _]].
        -- left. apply in_app_iff. right. left. reflexivity.
        -- discriminate.
      * right. exists n', c'. auto.
    + destruct (IH results) as (l & El & Hlen & Hl).
      exists l. split; [exact El|]. split; [cbn; lia|].
      intros Hb p Hp. apply Hl; [cbn in Hb; lia|].
      destruct Hp as [Hp|(n' & c' & [Heq|Hin] & Hcase)]; [auto| |].
      * inversion Heq; subst. destruct Hcase as [[? _]|[? _]]; discriminate.
      * right. exists n', c'. auto.
    + fold (skipped name). destruct (skipped name) eqn:Hskip.
      * destruct (IH results) as (l & El & Hlen & Hl).
        exists l. split; [exact El|]. split; [lia|].
        intros Hb p Hp. apply Hl; [lia|].
        destruct Hp as [Hp|(n' & c' & [Heq|Hin] & Hcase)]; [auto| |].
        -- inversion Heq; subst.
           destruct Hcase as [[? _]|(_ & Hs & _)]; congruence.
        -- right. exists n', c'. auto.
      * destruct (Hc (join H dir name)) as (sub & Esub & Hsublen & Hsub).
        rewrite (value_bind _ _ sub Esub).
        destruct (spread_ok H (length sub)) eqn:Hok.
        -- destruct (IH (results ++ sub)) as (l & El & Hlen & Hl).
           exists l. split; [exact El|]. rewrite length_app in Hlen.
           split; [lia|]. intros Hb p Hp. apply Hl; [lia|].
           destruct Hp as [Hp|(n' & c' & [Heq|Hin] & Hcase)].
           ++ left. apply in_app_iff. auto.
           ++ inversion Heq; subst.
              destruct Hcase as [[? _]|(_ & _ & Hlisted)]; [discriminate|].
              left. apply in_app_iff. right. apply Hsub; [lia|exact Hlisted].
           ++ right. exists n', c'. auto.
        -- exists results. split; [reflexivity|]. split; [lia|].
           intros Hb. rewrite Hspread in Hok by lia. discriminate.
Qed.

Lemma collectFiles_complete H root bound n :
  (forall k, (k <= bound)%nat -> spread_ok H k = true) ->
  forall dir, exists l,
    fst (collectFiles H n dir root) = Some l
    /\ (length l <= weight n)%nat
    /\ ((weight n <= bound)%nat -> forall p, listed H root n dir p -> In p l).
Proof.
  intros Hspread.
  induction n as [| | |entries IH] using Node_tree_ind; intros dir.
  1-3: exists []; split; [reflexivity|]; split; [cbn; lia|]; intros _ p Hp;
       exfalso; revert Hp; apply listed_not_dir; discriminate.
  destruct (collect_entries_complete H root dir
              (fun child fullPath => collectFiles H child fullPath root)
              bound entries Hspread IH []) as (l & El & Hlen & Hl).
  exists l. split.
  - cbn [collectFiles]. unfold try_catch, bind, readdirSync, perform.
    cbn [fst snd]. rewrite El. reflexivity.
  - rewrite weight_entries. split; [exact Hlen|].
    intros Hb p Hp. apply Hl; [exact Hb|]. right.
    apply listed_dir_iff, Hp.
Qed.

Lemma resolveEditableFiles_loop_complete H root bound pats :
  (forall k, (k <= bound)%nat -> spread_ok H k = true) ->
  (forall abs n, In abs pats -> fs_node H abs = Some n ->
                 (weight n <= bound)%nat) ->
  forall files, exists l,
    fst (resolveEditableFiles_loop H pats root files) = Some l
    /\ forall p,
         In p files \/ (exists abs, In abs pats /\ origin H root abs p) ->
         In p l.
Proof.
  intros Hspread. induction pats as [|abs pats IH]; intros Hbound files.
  - exists files. split; [reflexivity|]. intros p [?|(?&[]&_)]. assumption.
  - cbn [resolveEditableFiles_loop].
    assert (Hstep : exists files',
      fst (try_catch
             (stat <- statSync H abs ;;
              if isDirectory stat then
                sub <- collectFiles H stat abs root ;;
                if spread_ok H (length sub) then ret (files ++ sub)
                else of_option None
              else if isFile stat then ret (files ++ [relative H root abs])
              else ret files)
             (ret files)) = Some files'
      /\ forall p, In p files \/ origin H root abs p -> In p files').
    { assert (Estat : fst (statSync H abs) = fs_node H abs) by reflexivity.
      destruct (fs_node H abs) as [n|] eqn:En.
      - destruct n as [| |entries].
        + exists (files ++ [relative H root abs]). split.
          { apply value_try_Some. rewrite (value_bind _ _ _ Estat).
            reflexivity. }
          intros p [?|[[_ ->]|(n & ns & f & E & HW & _)]];
            apply in_app_iff; [auto|right; left; reflexivity|].
          rewrite En in E. injection E as <-. inversion HW.
        + exists files. split.
          { apply value_try_Some. rewrite (value_bind _ _ _ Estat).
            reflexivity. }
          intros p [?|[[E _]|(n & ns & f & E & HW & _)]];
            [assumption|congruence|].
          rewrite En in E. injection E as <-. inversion HW.
        + destruct (collectFiles_complete H root bound (NDir entries) Hspread
                      abs) as (sub & Esub & Hlen & Hsub).
          assert (Hw : (weight (NDir entries) <= bound)%nat).
          { apply (Hbound abs); [left; reflexivity|exact En]. }
          exists (files ++ sub). split.
          { apply value_try_Some. rewrite (value_bind _ _ _ Estat).
            cbn [isDirectory]. rewrite (value_bind _ _ _ Esub).
            rewrite Hspread by lia. reflexivity. }
          intros p [?|[[E _]|(n & ns & f & E & HW & Hns & ->)]];
            apply in_app_iff; [auto|congruence|].
          rewrite En in E. injection E as <-. right. apply Hsub; [exact Hw|].
          exists ns, f. auto.
      - exists files. split.
        { rewrite value_try_None; [reflexivity|].
          apply value_bind_None, Estat. }
        intros p [?|[[E _]|(n & ns & f & E & _)]];
          [assumption|congruence..]. }
    destruct Hstep as (files' & Estep & Hstep).
    destruct (IH (fun a n Hin => Hbound a n (or_intror Hin)) files')
      as (l & El & Hl).
    exists l. split.
    { rewrite (value_bind _ _ files' Estep). exact El. }
    intros p [Hp|(a & [<-|Hin] & Ho)]; apply Hl.
    + left. apply Hstep. auto.
    + left. apply Hstep. auto.
    + right. exists a. auto.
Qed.

(** X27. Where arrays can be spread, the listing is complete. Let the
    host spread every array of at most [bound] elements, and let the tree
    under every resolved pattern hold at most [bound] regular files. Then
    the listing holds exactly the paths that come from a resolved
    pattern: the project-relative path of a pattern that is a regular
    file, and those of the regular files reached from a pattern that is a
    directory by descending only through subdirectories whose names are
    neither node_modules nor .git. *)
Theorem resolveEditableFiles_complete
    (H : Host) (resolvedPatterns : list string) (projectRoot : string)
    (bound : nat) :
  (forall k, (k <= bound)%nat -> spread_ok H k = true) ->
  (forall abs n, In abs resolvedPatterns -> fs_node H abs = Some n ->
                 (weight n <= bound)%nat) ->
  exists l,
    fst (resolveEditableFiles H resolvedPatterns projectRoot) = Some l
    /\ forall p,
         In p l <-> exists abs, In abs resolvedPatterns
                                /\ origin H projectRoot abs p.
Proof.
  intros Hspread Hbound.
  destruct (resolveEditableFiles_loop_value H projectRoot resolvedPatterns [])
    as (files & Efiles & Hsound).
  destruct (resolveEditableFiles_loop_complete H projectRoot bound
              resolvedPatterns Hspread Hbound [])
    as (files' & Efiles' & Hcomplete).
  assert (files' = files) as -> by congruence.
  exists (sort_by compare_units (filter_seen id ∅ files)). split.
  - unfold resolveEditableFiles. rewrite (value_bind _ _ files Efiles).
    reflexivity.
  - intros p. rewrite sort_by_In, filter_seen_id_In. split.
    + intros Hp. destruct (Hsound p Hp) as [[]|?]. assumption.
    + intros Hp. apply Hcomplete. right. exact Hp.
Qed.

Lemma resolveEditableFiles_complete_witness :
  (forall k, (k <= 3)%nat -> spread_ok vendor_host k = true)
  /\ (forall abs n,
        In abs ["/proj/vendor"; "/proj/README.md"; "/proj/drafts"] ->
        fs_node vendor_host abs = Some n -> (weight n <= 3)%nat)
  /\ fst (resolveEditableFiles vendor_host
            ["/proj/vendor"; "/proj/README.md"; "/proj/drafts"] "/proj")
     = Some ["README.md"; "vendor/lib/.git"; "vendor/lib/a.ts"]
  /\ exists l,
       fst (resolveEditableFiles vendor_host
              ["/proj/vendor"; "/proj/README.md"; "/proj/drafts"] "/proj")
       = Some l
       /\ forall p,
            In p l <-> exists abs,
              In abs ["/proj/vendor"; "/proj/README.md"; "/proj/drafts"]
              /\ origin vendor_host "/proj" abs p.
Proof.
  assert (Hspread : forall k, (k <= 3)%nat -> spread_ok vendor_host k = true).
  { intros k Hk. cbn. apply Z.leb_le. lia. }
  assert (Hbound : forall abs n,
            In abs ["/proj/vendor"; "/proj/README.md"; "/proj/drafts"] ->
            fs_node vendor_host abs = Some n -> (weight n <= 3)%nat).
  { intros abs n [<-|[<-|[<-|[]]]] E; vm_compute in E;
      try discriminate E; injection E as <-; vm_compute; lia. }
  split; [exact Hspread|]. split; [exact Hbound|].
  split; [vm_compute; reflexivity|].
  exact (resolveEditableFiles_complete vendor_host
           ["/proj/vendor"; "/proj/README.md"; "/proj/drafts"] "/proj" 3
           Hspread Hbound).
Defined.

(** X3. Checking a path never throws, and the only host calls it makes
    are [statSync] of the resolved patterns, in their order, up to the
    first pattern that contains the path: when the answer is true the
    last pattern examined contains the path and none before it does; when
    a relative path is refused, every pattern was examined. The requested
    path itself is never examined on disk. *)
Theorem isPathAllowed_calls
    (H : Host) (requestedPath : string) (resolvedPatterns : list string)
    (projectRoot : string) :
  let abs := resolve H projectRoot requestedPath in
  let out := isPathAllowed H requestedPath resolvedPatterns projectRoot in
  fst out <> None
  /\ exists checked rest,
       resolvedPatterns = checked ++ rest
       /\ snd out = map EvStat checked
       /\ (fst out = Some true ->
           exists front pat,
             checked = front ++ [pat]
             /\ contains H abs pat = true
             /\ Forall (fun q => contains H abs q = false) front)
       /\ (fst out = Some false ->
           startsWith requestedPath "/" = true \/ rest = []).
Proof.
  cbn zeta. unfold isPathAllowed.
  destruct (startsWith requestedPath "/") eqn:Hs.
  - split; [discriminate|]. exists [], resolvedPatterns.
    split; [reflexivity|]. split; [reflexivity|].
    split; [discriminate | auto].
  - split; [rewrite isPathAllowed_loop_value; discriminate|].
    destruct (isPathAllowed_loop_calls H
                (resolve H projectRoot requestedPath) resolvedPatterns)
      as (checked & rest & E & Htr & Ht & Hf).
    exists checked, rest. split; [exact E|]. split; [exact Htr|].
    split; [exact Ht | auto].
Qed.

(** X4. Adding patterns never turns an allowed path into a refused one:
    a path allowed under a list of patterns is allowed under every list
    that holds all of them, in whatever order. *)
Theorem isPathAllowed_monotone
    (H : Host) (requestedPath : string) (patterns patterns' : list string)
    (projectRoot : string) :
  (forall pat, In pat patterns -> In pat patterns') ->
  fst (isPathAllowed H requestedPath patterns projectRoot) = Some true ->
  fst (isPathAllowed H requestedPath patterns' projectRoot) = Some true.
Proof.
  intros Hincl. unfold isPathAllowed.
  destruct (startsWith requestedPath "/"); [discriminate|].
  rewrite !isPathAllowed_loop_value. intros E. f_equal.
  injection E as E. apply existsb_exists in E as (pat & Hin & Hc).
  apply existsb_exists. exists pat. auto.
Qed.

Lemma isPathAllowed_monotone_witness :
  (forall pat, In pat ["/proj/vendor"] ->
               In pat ["/proj/README.md"; "/proj/drafts"; "/proj/vendor"])
  /\ fst (isPathAllowed vendor_host "vendor/lib/a.ts" ["/proj/vendor"] "/proj")
     = Some true
  /\ fst (isPathAllowed vendor_host "vendor/lib/a.ts"
            ["/proj/README.md"; "/proj/drafts"; "/proj/vendor"] "/proj")
     = Some true.
Proof.
  assert (Hincl : forall pat, In pat ["/proj/vendor"] ->
            In pat ["/proj/README.md"; "/proj/drafts"; "/proj/vendor"]).
  { intros pat [<-|[]]. right. right. left. reflexivity. }
  split; [exact Hincl|]. split; [vm_compute; reflexivity|].
  apply (isPathAllowed_monotone vendor_host "vendor/lib/a.ts"
           ["/proj/vendor"] _ "/proj" Hincl).
  vm_compute. reflexivity.
Defined.

Lemma prefix_cons c a b : String.prefix (String c a) (String c b) = String.prefix a b.
Proof. cbn [String.prefix]. destruct (ascii_dec c c); congruence. Qed.

Lemma startsWith_append (d s t : string) :
  startsWith (d +:+ s) (d +:+ t) = startsWith s t.
Proof.
  unfold startsWith. induction d as [|c d IH].
  - rewrite !append_nil_l. reflexivity.
  - rewrite !append_cons, prefix_cons. exact IH.
Qed.

Lemma eqb_append_self (d s : string) :
  (d +:+ s =? d)%string = (s =? EmptyString)%string.
Proof.
  induction d as [|c d IH].
  - rewrite append_nil_l. reflexivity.
  - rewrite append_cons. cbn [String.eqb]. rewrite Ascii.eqb_refl. exact IH.
Qed.

(** X5. A directory pattern admits only what lies below it, the
    separator included. For a relative path that resolves to the
    pattern's path followed by [suffix], the answer under that pattern
    alone is whether [suffix] begins with a separator when the pattern is
    a directory on disk (so [/proj/src2/x] is not below [/proj/src]), and
    whether it does or is empty when the pattern is absent from disk. *)
Theorem isPathAllowed_directory_boundary
    (H : Host) (requestedPath dir suffix projectRoot : string) :
  startsWith requestedPath "/" = false ->
  resolve H projectRoot requestedPath = dir +:+ suffix ->
  (forall entries,
     fs_node H dir = Some (NDir entries) ->
     fst (isPathAllowed H requestedPath [dir] projectRoot)
     = Some (startsWith suffix "/"))
  /\ (fs_node H dir = None ->
      fst (isPathAllowed H requestedPath [dir] projectRoot)
      = Some (startsWith suffix "/" || (suffix =? EmptyString)%string)).
Proof.
  intros Hrel Hres.
  rewrite (isPathAllowed_value H _ _ _ Hrel), Hres.
  cbn [existsb]. unfold contains. rewrite orb_false_r.
  rewrite startsWith_append, eqb_append_self.
  split.
  - intros entries ->. reflexivity.
  - intros ->. reflexivity.
Qed.

Lemma isPathAllowed_directory_boundary_witness :
  startsWith "vendored/x.ts" "/" = false
  /\ resolve vendor_host "/proj" "vendored/x.ts" = "/proj/vendor" +:+ "ed/x.ts"
  /\ fst (isPathAllowed vendor_host "vendored/x.ts" ["/proj/vendor"] "/proj")
     = Some false
  /\ startsWith "draftsman.md" "/" = false
  /\ resolve vendor_host "/proj" "draftsman.md" = "/proj/drafts" +:+ "man.md"
  /\ fst (isPathAllowed vendor_host "draftsman.md" ["/proj/drafts"] "/proj")
     = Some false.
Proof.
  split; [reflexivity|]. split; [vm_compute; reflexivity|].
  split.
  { apply (proj1 (isPathAllowed_directory_boundary vendor_host "vendored/x.ts"
                    "/proj/vendor" "ed/x.ts" "/proj" eq_refl eq_refl)
             (Some [("lib", NDir (Some [("a.ts", NFile); (".git", NFile)]));
                    ("node_modules", NDir (Some [("dep.js", NFile)]));
                    ("sock", NOther)])).
    reflexivity. }
  split; [reflexivity|]. split; [vm_compute; reflexivity|].
  apply (proj2 (isPathAllowed_directory_boundary vendor_host "draftsman.md"
                  "/proj/drafts" "man.md" "/proj" eq_refl eq_refl)).
  reflexivity.
Defined.

(** ** The repository handle is discovered once *)

(** X6. Once [ensureGit] has returned a handle, the handle is kept: the
    next call returns the same handle without any host call, and a GET of
    either route that follows a successful one does not run the
    repository discovery again. For the diff route this is said of the
    requests whose URL parses; on the others the handler throws before
    [ensureGit] is called and leaves the variables as they were. *)
Theorem ensureGit_memoizes
    (H : Host) (projectRoot : string) (st : RepoState)
    (ctx : SimpleGit * string) :
  fst (fst (ensureGit H projectRoot st)) = Some (Some ctx) ->
  let st' := snd (ensureGit H projectRoot st) in
  cached st' = Some ctx
  /\ ensureGit H projectRoot st' = ((Some (Some ctx), []), st')
  /\ forall req req',
       method req = "GET" -> method req' = "GET" ->
       snd (status_route H projectRoot st req) = st'
       /\ (url req <> None -> snd (diff_route H projectRoot st req) = st')
       /\ (url req = None -> snd (diff_route H projectRoot st req) = st)
       /\ snd (fst (status_route H projectRoot st' req'))
          = snd (status_then H (Some ctx))
       /\ (url req' <> None ->
           snd (fst (diff_route H projectRoot st' req'))
           = snd (diff_then H (query_path req') (Some ctx))).
Proof.
  intros He st'.
  assert (Hc : cached st' = Some ctx).
  { subst st'. revert He. unfold ensureGit.
    destruct (cached st) as [c|] eqn:Ec.
    - cbn [fst snd ret]. intros E. injection E as <-. exact Ec.
    - destruct (fst (findRepoRoot H projectRoot)) as [[root|]|];
        cbn [fst snd]; try discriminate.
      destruct (truthy root) eqn:Ht; cbn [fst snd]; try discriminate.
      destruct (simpleGit H root) as [g|]; cbn [fst snd]; try discriminate.
      intros E. injection E as <-. unfold cached. cbn [git repoRoot].
      rewrite Ht. reflexivity. }
  assert (He' : ensureGit H projectRoot st' = ((Some (Some ctx), []), st')).
  { apply ensureGit_cached, Hc. }
  split; [exact Hc|]. split; [exact He'|].
  intros req req' Hm Hm'.
  split; [|split; [|split; [|split]]].
  - unfold status_route. rewrite Hm. reflexivity.
  - intros Hu. apply (diff_route_state H projectRoot st req Hm Hu).
  - intros Hu. rewrite (diff_route_throws H projectRoot st req Hm Hu).
    reflexivity.
  - unfold status_route. rewrite Hm'.
    change (negb ("GET" =? "GET")%string) with false. cbn iota.
    cbn [fst snd]. rewrite He'. cbn [fst snd].
    rewrite snd_try_catch, fst_bind, snd_bind. cbn [fst snd app].
    destruct (fst (status_then H (Some ctx))); [reflexivity|].
    cbn [ret snd]. apply app_nil_r.
  - intros Hu. rewrite (diff_route_trace H projectRoot st' req' Hm' Hu).
    rewrite He'. reflexivity.
Qed.

Lemma ensureGit_memoizes_witness :
  fst (fst (ensureGit repo_host "/repo/site" initial_state))
  = Some (Some (demo_git, "/repo"))
  /\ snd (fst (ensureGit repo_host "/repo/site" initial_state)) = [discovery]
  /\ ensureGit repo_host "/repo/site"
       (snd (ensureGit repo_host "/repo/site" initial_state))
     = ((Some (Some (demo_git, "/repo")), []),
        snd (ensureGit repo_host "/repo/site" initial_state)).
Proof.
  split; [vm_compute; reflexivity|]. split; [vm_compute; reflexivity|].
  apply (ensureGit_memoizes repo_host "/repo/site" initial_state
           (demo_git, "/repo")).
  vm_compute. reflexivity.
Defined.

(** ** What the status route reads *)

Lemma count_untracked_calls H root untracked :
  forall stats,
    snd (count_untracked H root untracked stats)
    = map (fun f => EvReadFile (join H root f)) untracked.
Proof.
  induction untracked as [|f rest IH]; intros stats; [reflexivity|].
  cbn [count_untracked map]. rewrite snd_bind, fst_try_catch, snd_try_catch.
  rewrite fst_bind, snd_bind. unfold readFileSync, perform. cbn [fst snd].
  destruct (fs_read H (join H root f)); cbn [fst snd ret app];
    rewrite IH; reflexivity.
Qed.

Lemma getDiffStats_calls H g root untracked :
  snd (getDiffStats H g root untracked)
  = [EvGit (DiffSummary ["--cached"]); EvGit (DiffSummary [])]
    ++ match git_diffSummary g ["--cached"], git_diffSummary g [] with
       | Some _, Some _ => map (fun f => EvReadFile (join H root f)) untracked
       | _, _ => []
       end.
Proof.
  unfold getDiffStats. rewrite snd_try_catch, fst_bind, snd_bind.
  unfold promise_all, diffSummary, perform. cbn [fst snd].
  destruct (git_diffSummary g ["--cached"]) as [staged|];
    [destruct (git_diffSummary g []) as [unstaged|]|]; try reflexivity.
  rewrite fst_bind, snd_bind. cbn [fst snd].
  destruct (count_untracked_value H root untracked
              (add_summary (add_summary ∅ staged) unstaged)) as (s & E & _).
  rewrite E. cbn [fst snd ret]. rewrite count_untracked_calls.
  rewrite app_nil_r. reflexivity.
Qed.

(** X7. With a repository handle and a successful [git status], the
    status operation makes these host calls, in this order: the status
    command, the staged and the unstaged diff summary, and then, only
    when both summaries were obtained, one read per untracked file, of
    that file joined to the repository root. No tracked file is read and
    no file outside the untracked list. *)
Theorem status_reads_only_untracked
    (H : Host) (g : SimpleGit) (root : string) (result : StatusResult) :
  git_status g = Some result ->
  snd (status_then H (Some (g, root)))
  = [EvGit Status; EvGit (DiffSummary ["--cached"]); EvGit (DiffSummary [])]
    ++ match git_diffSummary g ["--cached"], git_diffSummary g [] with
       | Some _, Some _ =>
           map (fun f => EvReadFile (join H root f)) (not_added result)
       | _, _ => []
       end.
Proof.
  intros Es. cbn [status_then]. rewrite snd_bind.
  unfold gitStatus, perform. cbn [fst snd]. rewrite Es.
  rewrite snd_bind, getDiffStats_calls.
  destruct (getDiffStats_value H g root (not_added result)) as (s & E & _).
  rewrite E. cbn [ret snd]. rewrite app_nil_r. reflexivity.
Qed.

Lemma status_reads_only_untracked_witness :
  git_status demo_git = Some demo_status
  /\ snd (status_then repo_host (Some (demo_git, "/repo")))
     = [EvGit Status; EvGit (DiffSummary ["--cached"]); EvGit (DiffSummary []);
        EvReadFile "/repo/new-file.txt"; EvReadFile "/repo/locked.txt"].
Proof.
  split; [reflexivity|].
  rewrite (status_reads_only_untracked repo_host demo_git "/repo" demo_status
             eq_refl).
  vm_compute. reflexivity.
Defined.

(** ** The diff route: paths outside the repository, the whole tree *)

(** X8. A path-scoped diff whose path resolves outside the repository
    root (for instance through [..] segments) is answered with an empty
    diff: [getFileDiff] returns the empty string without any host call,
    so that no diff command is run and no file is read for it; the
    route's only possible host call is the repository discovery. *)
Theorem diff_outside_repository
    (H : Host) (projectRoot : string) (st : RepoState) (req : Request)
    (g : SimpleGit) (root p : string) :
  method req = "GET" ->
  query_path req = Some p ->
  p <> EmptyString ->
  startsWith p "/" = false ->
  fst (fst (ensureGit H projectRoot st)) = Some (Some (g, root)) ->
  inside H root p = false ->
  getFileDiff H g root p = (Some EmptyString, [])
  /\ fst (diff_route H projectRoot st req)
     = (Some (respond (diff_body EmptyString p)),
        snd (fst (ensureGit H projectRoot st))).
Proof.
  intros Hm Hq Hp Hrel He Hin.
  pose proof (query_path_parses req p Hq) as Hu.
  assert (Hd : getFileDiff H g root p = (Some EmptyString, [])).
  { unfold getFileDiff. unfold inside in Hin.
    apply orb_false_iff in Hin as [-> ->]. reflexivity. }
  split; [exact Hd|].
  apply truthy_true in Hp.
  rewrite (surjective_pairing (fst (diff_route H projectRoot st req))).
  rewrite (diff_route_value H projectRoot st req Hm Hu).
  rewrite (diff_route_trace H projectRoot st req Hm Hu).
  rewrite He, Hq, (diff_then_scoped H g root p Hp Hrel), Hd.
  cbn [bind ret fst snd app]. rewrite app_nil_r. reflexivity.
Qed.

Lemma diff_outside_repository_witness :
  method (get (Some "../../etc/passwd")) = "GET"
  /\ startsWith "../../etc/passwd" "/" = false
  /\ resolve repo_host "/repo" "../../etc/passwd" = "/etc/passwd"
  /\ inside repo_host "/repo" "../../etc/passwd" = false
  /\ fst (diff_route repo_host "/repo/site" initial_state
            (get (Some "../../etc/passwd")))
     = (Some (respond (diff_body EmptyString "../../etc/passwd")),
        [discovery]).
Proof.
  split; [reflexivity|]. split; [reflexivity|].
  split; [vm_compute; reflexivity|]. split; [vm_compute; reflexivity|].
  refine (eq_trans
            (proj2 (diff_outside_repository repo_host "/repo/site"
                      initial_state (get (Some "../../etc/passwd"))
                      demo_git "/repo" "../../etc/passwd"
                      eq_refl eq_refl _ eq_refl _ _)) _).
  - discriminate.
  - vm_compute. reflexivity.
  - vm_compute. reflexivity.
  - vm_compute. reflexivity.
Defined.



(** ** An empty repository root *)

(** X10. When [rev-parse --show-toplevel] succeeds but prints only white
    space (of any kind that [trim] removes, line terminators and
    no-break spaces included), the trimmed root is empty and is taken as
    no repository: the status route answers git false with no files, the
    diff route, on a request whose URL parses, an empty diff with git
    false, and no handle is kept. *)
Theorem blank_root_is_no_repository
    (H : Host) (projectRoot : string) (st : RepoState) (req : Request)
    (g : SimpleGit) (printed : string) :
  method req = "GET" ->
  cached st = None ->
  simpleGit H projectRoot = Some g ->
  git_revparse g ["--show-toplevel"] = Some printed ->
  trim printed = EmptyString ->
  fst (fst (status_route H projectRoot st req))
  = Some {| statusCode := 200;
            body := JObj [("files", JArr []); ("git", JBool false)] |}
  /\ (url req <> None ->
      fst (fst (diff_route H projectRoot st req))
      = Some {| statusCode := 200;
                body := JObj [("diff", JStr EmptyString);
                              ("git", JBool false)] |})
  /\ cached (snd (ensureGit H projectRoot st)) = None.
Proof.
  intros Hm Hc Hg Hr Ht.
  assert (Hf : fst (findRepoRoot H projectRoot) = Some (Some EmptyString)).
  { unfold findRepoRoot. rewrite fst_try_catch, fst_bind.
    unfold of_option. cbn [fst]. rewrite Hg, fst_bind.
    unfold revparse, perform. cbn [fst]. rewrite Hr. cbn [ret fst].
    rewrite Ht. reflexivity. }
  assert (He : fst (fst (ensureGit H projectRoot st)) = Some None
               /\ cached (snd (ensureGit H projectRoot st)) = None).
  { unfold ensureGit. rewrite Hc, Hf. cbn [truthy fst snd].
    split; [reflexivity|]. unfold cached. cbn [git repoRoot].
    destruct (git st); reflexivity. }
  destruct He as [He Hc'].
  split; [|split; [|exact Hc']].
  - rewrite (status_route_value H projectRoot st req Hm), He. reflexivity.
  - intros Hu.
    rewrite (diff_route_value H projectRoot st req Hm Hu), He. reflexivity.
Qed.

Lemma blank_root_is_no_repository_witness :
  git_revparse blank_git ["--show-toplevel"] = Some (no_break_space +:+ nl)
  /\ trim (no_break_space +:+ nl) = EmptyString
  /\ fst (fst (status_route blank_host "/tmp/blank" initial_state (get None)))
     = Some {| statusCode := 200;
               body := JObj [("files", JArr []); ("git", JBool false)] |}
  /\ fst (fst (diff_route blank_host "/tmp/blank" initial_state (get None)))
     = Some {| statusCode := 200;
               body := JObj [("diff", JStr EmptyString);
                             ("git", JBool false)] |}.
Proof.
  split; [reflexivity|]. split; [vm_compute; reflexivity|].
  pose proof (blank_root_is_no_repository blank_host "/tmp/blank"
                initial_state (get None) blank_git (no_break_space +:+ nl)
                eq_refl eq_refl eq_refl eq_refl eq_refl) as (Hs & Hd & _).
  split; [exact Hs | apply Hd; discriminate].
Defined.

(** ** Line counts: sums over the diff summaries *)

Lemma text_sum_app f l1 l2 :
  text_sum f (l1 ++ l2) = text_sum f l1 + text_sum f l2.
Proof.
  unfold text_sum. induction l1 as [|d l1 IH]; cbn [app fold_right]; [lia|].
  destruct (df_binary d); lia.
Qed.










Lemma total_empty f : total f ∅ = 0.
Proof. unfold total. apply map_fold_empty. Qed.

Lemma total_insert_fresh f (stats : gmap string LineStat) k v :
  stats !! k = None -> total f (<[k := v]> stats) = total f stats + f v.
Proof.
  intros Hk. unfold total.
  rewrite map_fold_insert_L; [reflexivity| |exact Hk].
  intros. lia.
Qed.

Lemma total_insert f (stats : gmap string LineStat) k v :
  total f (<[k := v]> stats)
  = total f stats - match stats !! k with Some o => f o | None => 0 end + f v.
Proof.
  destruct (stats !! k) as [o|] eqn:Hk.
  - rewrite <- (insert_delete_eq stats k v).
    rewrite total_insert_fresh by apply lookup_delete_eq.
    rewrite <- (insert_delete_id stats k o Hk) at 2.
    rewrite total_insert_fresh by apply lookup_delete_eq. lia.
  - rewrite total_insert_fresh by exact Hk. lia.
Qed.

Lemma total_add_summary_file_ins stats d :
  total ins (add_summary_file stats d)
  = total ins stats + text_sum df_insertions [d].
Proof.
  unfold add_summary_file, text_sum. cbn [fold_right].
  destruct (df_binary d); [lia|].
  rewrite total_insert. unfold stat_of.
  destruct (stats !! df_file d); cbn [default ins id]; lia.
Qed.

Lemma total_add_summary_file_del stats d :
  total del (add_summary_file stats d)
  = total del stats + text_sum df_deletions [d].
Proof.
  unfold add_summary_file, text_sum. cbn [fold_right].
  destruct (df_binary d); [lia|].
  rewrite total_insert. unfold stat_of.
  destruct (stats !! df_file d); cbn [default del id]; lia.
Qed.

Lemma total_add_summary l :
  forall stats,
    total ins (foldl add_summary_file stats l)
    = total ins stats + text_sum df_insertions l
    /\ total del (foldl add_summary_file stats l)
       = total del stats + text_sum df_deletions l.
Proof.
  induction l as [|d l IH]; intros stats; cbn [foldl].
  - unfold text_sum. cbn. lia.
  - destruct (IH (add_summary_file stats d)) as [Hi Hd].
    rewrite Hi, Hd, total_add_summary_file_ins, total_add_summary_file_del.
    change (d :: l) with ([d] ++ l). rewrite !text_sum_app. lia.
Qed.

Lemma total_summary_stats staged unstaged :
  total ins (summary_stats staged unstaged)
  = text_sum df_insertions (df_files staged ++ df_files unstaged)
  /\ total del (summary_stats staged unstaged)
     = text_sum df_deletions (df_files staged ++ df_files unstaged).
Proof.
  unfold summary_stats, add_summary.
  destruct (total_add_summary (df_files unstaged)
              (foldl add_summary_file ∅ (df_files staged))) as [Hi Hd].
  destruct (total_add_summary (df_files staged) ∅) as [Hi' Hd'].
  rewrite !text_sum_app, Hi, Hd, Hi', Hd', !total_empty. lia.
Qed.

Lemma add_summary_file_lookup_text l p :
  Forall (fun d => df_binary d = false -> df_file d <> p) l ->
  forall stats, foldl add_summary_file stats l !! p = stats !! p.
Proof.
  induction 1 as [|d l Hd _ IH]; intros stats; cbn [foldl]; [reflexivity|].
  rewrite IH. unfold add_summary_file.
  destruct (df_binary d) eqn:Hb; [reflexivity|].
  apply lookup_insert_ne, Hd. reflexivity.
Qed.

Lemma count_untracked_total H root untracked :
  NoDup untracked ->
  forall stats,
    (forall f, In f untracked -> stats !! f = None) ->
    exists stats',
      fst (count_untracked H root untracked stats) = Some stats'
      /\ total ins stats' = total ins stats + untracked_lines H root untracked
      /\ total del stats' = total del stats.
Proof.
  induction 1 as [|f rest Hf _ IH]; intros stats Hfresh.
  - exists stats. cbn. split; [reflexivity|]. lia.
  - cbn [count_untracked untracked_lines fold_right].
    rewrite fst_bind, fst_try_catch, fst_bind.
    unfold readFileSync, perform. cbn [fst].
    fold (untracked_lines H root rest).
    destruct (fs_read H (join H root f)) as [c|]; cbn [fst ret].
    + destruct (IH (<[f := {| ins := line_count c; del := 0 |}]> stats))
        as (stats' & E & Hi & Hd).
      { intros f' Hin. rewrite lookup_insert_ne.
        - apply Hfresh. right. exact Hin.
        - intros ->. apply Hf. apply list_elem_of_In. exact Hin. }
      exists stats'. split; [exact E|].
      rewrite Hi, Hd, !total_insert_fresh by (apply Hfresh; left; reflexivity).
      cbn [ins del]. lia.
    + destruct (IH stats) as (stats' & E & Hi & Hd).
      { intros f' Hin. apply Hfresh. right. exact Hin. }
      exists stats'. split; [exact E|]. lia.
Qed.

(** X12. What the totals of [getDiffStats] add up to. When both diff
    summaries are obtained, no untracked file is listed twice and no text
    entry of a summary names an untracked file, the total of insertions
    is the sum of the insertions of all text entries, staged and
    unstaged, plus the lines counted for the untracked files that can be
    read; the total of deletions is the sum of the deletions of all text
    entries. Binary entries and unreadable files add nothing. *)
Theorem getDiffStats_totals
    (H : Host) (g : SimpleGit) (root : string) (untracked : list string)
    (staged unstaged : DiffResult) :
  git_diffSummary g ["--cached"] = Some staged ->
  git_diffSummary g [] = Some unstaged ->
  NoDup untracked ->
  Forall (fun d => df_binary d = false -> ~ In (df_file d) untracked)
    (df_files staged ++ df_files unstaged) ->
  exists stats,
    fst (getDiffStats H g root untracked)
    = Some (stats,
            text_sum df_insertions (df_files staged ++ df_files unstaged)
            + untracked_lines H root untracked,
            text_sum df_deletions (df_files staged ++ df_files unstaged)).
Proof.
  intros Es Eu Hnd Hsep.
  destruct (getDiffStats_value H g root untracked) as (stats & E & Hs).
  rewrite Es, Eu in Hs. exists stats. rewrite E.
  destruct (count_untracked_total H root untracked Hnd
              (summary_stats staged unstaged)) as (stats' & E' & Hi & Hd).
  { intros f Hin. unfold summary_stats, add_summary.
    apply Forall_app in Hsep as [Hst Hun].
    rewrite add_summary_file_lookup_text.
    - rewrite add_summary_file_lookup_text; [apply lookup_empty|].
      eapply Forall_impl; [exact Hst|]. intros d Hd Hb Heq. apply (Hd Hb). rewrite Heq. exact Hin.
    - eapply Forall_impl; [exact Hun|]. intros d Hd Hb Heq. apply (Hd Hb). rewrite Heq. exact Hin. }
  rewrite Hs in E'. injection E' as <-.
  destruct (total_summary_stats staged unstaged) as [Hi' Hd'].
  rewrite Hi, Hd, Hi', Hd'. reflexivity.
Qed.

Lemma getDiffStats_totals_witness :
  NoDup (not_added demo_status)
  /\ exists stats,
       fst (getDiffStats repo_host demo_git "/repo" (not_added demo_status))
       = Some (stats, 3, 0).
Proof.
  assert (Hnd : NoDup (not_added demo_status)).
  { cbn. repeat constructor; rewrite ?list_elem_of_In; cbn; intuition congruence. }
  split; [exact Hnd|].
  destruct (getDiffStats_totals repo_host demo_git "/repo"
              (not_added demo_status) {| df_files := [] |}
              {| df_files := [{| df_file := "existing.txt"; df_binary := false;
                                 df_insertions := 1; df_deletions := 0 |}] |}
              eq_refl eq_refl Hnd) as (stats & E).
  { cbn. repeat constructor. cbn. intros _ [E|[E|[]]]; discriminate. }
  exists stats. rewrite E. vm_compute. reflexivity.
Defined.

(** ** The file routes *)

Lemma isPathAllowed_total H p pats root :
  fst (isPathAllowed H p pats root) <> None.
Proof.
  unfold isPathAllowed. destruct (startsWith p "/"); [discriminate|].
  rewrite isPathAllowed_loop_value. discriminate.
Qed.

Lemma called_isPathAllowed H p pats root e :
  In e (called (isPathAllowed H p pats root)) ->
  exists q, e = Fs (EvStat q) /\ In q pats.
Proof.
  unfold called, isPathAllowed.
  destruct (startsWith p "/"); [intros []|].
  destruct (isPathAllowed_loop_calls H (resolve H root p) pats)
    as (checked & rest & -> & -> & _).
  rewrite map_map. intros Hin. apply in_map_iff in Hin as (q & <- & Hq).
  exists q. split; [reflexivity|]. apply in_app_iff. left. exact Hq.
Qed.

(** X13. Whatever the request to the file route is, a file is read or
    written only after the requested path was found allowed, and the
    file touched is the one the path resolves to from the project root:
    a read happens only for a GET, a write only for a POST, with the
    content of the body. The only other host calls are [statSync] of the
    resolved patterns. *)
Theorem file_route_guarded
    (H : Host) (writeFileSync : string -> JsValue -> option string)
    (editable : list string) (projectRoot : string) (req : FileRequest) :
  let resolved := resolveEditablePatterns H editable projectRoot in
  Forall (fun e =>
            match e with
            | Fs (EvStat q) => In q resolved
            | Fs (EvReadFile q) =>
                fr_method req = "GET"
                /\ exists p,
                     fr_url req = Some (Some p)
                     /\ q = resolve H projectRoot p
                     /\ fst (isPathAllowed H p resolved projectRoot)
                        = Some true
            | EvWriteFile q data =>
                fr_method req = "POST"
                /\ exists p,
                     fr_body req = Some (BodyValue (VString p) data)
                     /\ q = resolve H projectRoot p
                     /\ fst (isPathAllowed H p resolved projectRoot)
                        = Some true
            | Fs _ => False
            end)
    (snd (file_route H writeFileSync editable projectRoot req)).
Proof.
  intros resolved. apply List.Forall_forall. intros e. unfold file_route.
  destruct (fr_url req) as [filePath|] eqn:Hp; [|intros []].
  destruct (String.eqb_spec (fr_method req) "GET") as [Hm|Hm].
  - unfold file_get, resolvedPatterns. fold resolved.
    destruct filePath as [[|c s]|]; try (intros []).
    destruct (fst (isPathAllowed H (String c s) resolved projectRoot))
      as [[|]|] eqn:Ha; cbn [snd].
    + intros Hin. apply in_app_iff in Hin as [Hin|[<-|[]]].
      * apply called_isPathAllowed in Hin as (q & -> & Hq). exact Hq.
      * split; [exact Hm|]. exists (String c s). auto.
    + intros Hin. apply called_isPathAllowed in Hin as (q & -> & Hq). exact Hq.
    + intros Hin. apply called_isPathAllowed in Hin as (q & -> & Hq). exact Hq.
  - destruct (String.eqb_spec (fr_method req) "POST") as [Hm'|Hm'];
      [|intros []].
    unfold file_post, resolvedPatterns. fold resolved.
    destruct (fr_body req) as [[|writePath writeContent]|] eqn:Hb;
      try (intros []).
    destruct (negb (js_truthy writePath)
              || match writeContent with VUndefined => true | _ => false end);
      [intros []|].
    destruct writePath as [| |p|b]; try (intros []).
    destruct (fst (isPathAllowed H p resolved projectRoot))
      as [[|]|] eqn:Ha; cbn [snd].
    + intros Hin. apply in_app_iff in Hin as [Hin|[<-|[]]].
      * apply called_isPathAllowed in Hin as (q & -> & Hq). exact Hq.
      * split; [exact Hm'|]. exists p. auto.
    + intros Hin. apply called_isPathAllowed in Hin as (q & -> & Hq). exact Hq.
    + intros Hin. apply called_isPathAllowed in Hin as (q & -> & Hq). exact Hq.
Qed.

Lemma error_response_inj code code' msg msg' :
  error_response code msg = error_response code' msg' -> code = code'.
Proof. intros E. injection E. auto. Qed.

Lemma file_get_value H write editable root p :
  p <> EmptyString ->
  file_route H write editable root (get_file p)
  = let allowed := isPathAllowed H p (resolveEditablePatterns H editable root)
                     root in
    match fst allowed with
    | None => (None, called allowed)
    | Some false => (Some forbidden, called allowed)
    | Some true =>
        (Some match fs_read H (resolve H root p) with
              | Some c => respond (file_body p c)
              | None => error_response 404 "File not found"
              end,
         called allowed ++ [Fs (EvReadFile (resolve H root p))])
    end.
Proof.
  intros Hp. unfold file_route, get_file, file_get. cbn [fr_method fr_url].
  change ("GET" =? "GET")%string with true. cbn iota.
  destruct p as [|c s]; [congruence|]. reflexivity.
Qed.

Lemma file_post_value H write editable root p data :
  p <> EmptyString -> data <> VUndefined ->
  file_route H write editable root (post p data)
  = let allowed := isPathAllowed H p (resolveEditablePatterns H editable root)
                     root in
    match fst allowed with
    | None => (None, called allowed)
    | Some false => (Some forbidden, called allowed)
    | Some true =>
        (Some match write (resolve H root p) data with
              | None => respond (written_body p)
              | Some msg => error_response 500 msg
              end,
         called allowed ++ [EvWriteFile (resolve H root p) data])
    end.
Proof.
  intros Hp Hd. unfold file_route, post, file_post.
  cbn [fr_method fr_url fr_body].
  change ("POST" =? "GET")%string with false.
  change ("POST" =? "POST")%string with true. cbn iota.
  apply truthy_true in Hp. cbn [js_truthy]. rewrite Hp. cbn [negb orb].
  destruct data; [congruence| | |]; reflexivity.
Qed.

(** X14. Reading and writing pass the same gate. For a non-empty path
    and a body that has a content, a GET answers 403 exactly when the
    path is not allowed, and so does a POST: a path is refused for
    reading if and only if it is refused for writing. A path that begins
    with a slash is refused by both before any host call, the write
    included. *)
Theorem file_route_same_gate
    (H : Host) (writeFileSync : string -> JsValue -> option string)
    (editable : list string) (projectRoot p : string) (data : JsValue) :
  p <> EmptyString ->
  data <> VUndefined ->
  let resolved := resolveEditablePatterns H editable projectRoot in
  let reading := file_route H writeFileSync editable projectRoot (get_file p) in
  let writing :=
    file_route H writeFileSync editable projectRoot (post p data) in
  (fst reading = Some forbidden
   <-> fst (isPathAllowed H p resolved projectRoot) = Some false)
  /\ (fst writing = Some forbidden
      <-> fst (isPathAllowed H p resolved projectRoot) = Some false)
  /\ (fst reading = Some forbidden <-> fst writing = Some forbidden)
  /\ (startsWith p "/" = true ->
      reading = (Some forbidden, []) /\ writing = (Some forbidden, [])).
Proof.
  intros Hp Hd resolved reading writing.
  assert (Hr : fst reading = Some forbidden
               <-> fst (isPathAllowed H p resolved projectRoot) = Some false).
  { subst reading. rewrite (file_get_value H _ _ _ p Hp). cbn zeta.
    fold resolved.
    destruct (fst (isPathAllowed H p resolved projectRoot)) as [[|]|];
      cbn [fst]; split; try congruence; try reflexivity.
    intros E. injection E as E. exfalso. revert E.
    destruct (fs_read H (resolve H projectRoot p)); discriminate. }
  assert (Hw : fst writing = Some forbidden
               <-> fst (isPathAllowed H p resolved projectRoot) = Some false).
  { subst writing. rewrite (file_post_value H _ _ _ p data Hp Hd). cbn zeta.
    fold resolved.
    destruct (fst (isPathAllowed H p resolved projectRoot)) as [[|]|];
      cbn [fst]; split; try congruence; try reflexivity.
    intros E. injection E as E. exfalso. revert E.
    destruct (writeFileSync (resolve H projectRoot p) data); discriminate. }
  split; [exact Hr|]. split; [exact Hw|]. split; [rewrite Hr, Hw; reflexivity|].
  intros Habs. subst reading writing.
  rewrite (file_get_value H _ _ _ p Hp), (file_post_value H _ _ _ p data Hp Hd).
  cbn zeta. unfold isPathAllowed. rewrite Habs. split; reflexivity.
Qed.

Lemma file_route_same_gate_witness :
  fst (file_route readme_host demo_write ["vendor"; "README.md"] "/proj"
         (get_file "../../../etc/passwd")) = Some forbidden
  /\ fst (file_route readme_host demo_write ["vendor"; "README.md"] "/proj"
            (post "../../../etc/passwd" (VString "x"))) = Some forbidden
  /\ file_route readme_host demo_write ["vendor"; "README.md"] "/proj"
       (post "/etc/passwd" (VString "x")) = (Some forbidden, []).
Proof.
  assert (Hn : VString "x" <> VUndefined) by discriminate.
  assert (Hp : "../../../etc/passwd" <> EmptyString) by discriminate.
  assert (Hq : "/etc/passwd" <> EmptyString) by discriminate.
  pose proof (file_route_same_gate readme_host demo_write
                ["vendor"; "README.md"] "/proj" "../../../etc/passwd"
                (VString "x") Hp Hn) as (Hr & Hw & _).
  pose proof (file_route_same_gate readme_host demo_write
                ["vendor"; "README.md"] "/proj" "/etc/passwd"
                (VString "x") Hq Hn) as (_ & _ & _ & Habs).
  split; [apply Hr; vm_compute; reflexivity|].
  split; [apply Hw; vm_compute; reflexivity|].
  apply Habs. reflexivity.
Defined.

Lemma resolveEditableFiles_total H pats root :
  fst (resolveEditableFiles H pats root) <> None.
Proof.
  destruct (resolveEditableFiles_loop_value H root pats []) as (l & E & _).
  unfold resolveEditableFiles. rewrite (value_bind _ _ _ E). discriminate.
Qed.

(** X15. The listing route always writes a response. The file route
    writes a response for every request whose URL parses, but for two
    kinds of POST, on which the handler throws before answering: a body
    that parses to [null], and a body whose [path] is a truthy value
    other than a string while a content is present. *)
Theorem file_routes_respond
    (H : Host) (writeFileSync : string -> JsValue -> option string)
    (editable : list string) (projectRoot : string) (req : FileRequest) :
  fst (files_route H editable projectRoot req) <> None
  /\ (fst (file_route H writeFileSync editable projectRoot req) = None
      <-> fr_url req = None
          \/ (fr_method req = "POST"
              /\ (fr_body req = Some BodyNull
                  \/ exists truthy_path writeContent,
                       fr_body req
                       = Some (BodyValue (VOther truthy_path) writeContent)
                       /\ truthy_path = true
                       /\ writeContent <> VUndefined))).
Proof.
  cut (fst (files_route H editable projectRoot req) <> None
       /\ (fr_url req <> None ->
           fst (file_route H writeFileSync editable projectRoot req) = None
           <-> fr_method req = "POST"
               /\ (fr_body req = Some BodyNull
                   \/ exists truthy_path writeContent,
                        fr_body req
                        = Some (BodyValue (VOther truthy_path) writeContent)
                        /\ truthy_path = true
                        /\ writeContent <> VUndefined))).
  { intros [Hf Hr]. split; [exact Hf|].
    destruct (fr_url req) as [filePath|] eqn:Hurl.
    - assert (Hsome : Some filePath <> None) by discriminate.
      rewrite (Hr Hsome). split; [auto|]. intros [E|E]; [discriminate|exact E].
    - unfold file_route. rewrite Hurl. split; [auto|reflexivity]. }
  split.
  - unfold files_route.
    destruct (negb (fr_method req =? "GET")%string); [discriminate|].
    cbn [fst]. pose proof (resolveEditableFiles_total H
                             (resolvedPatterns H editable projectRoot)
                             projectRoot) as Ht.
    destruct (fst (resolveEditableFiles H _ projectRoot));
      [discriminate | congruence].
  - unfold file_route. intros Hurl.
    destruct (fr_url req) as [filePath|]; [clear Hurl|congruence].
    destruct (String.eqb_spec (fr_method req) "GET") as [Hm|Hm].
    + split.
      * unfold file_get.
        destruct filePath as [[|c s]|]; try discriminate.
        pose proof (isPathAllowed_total H (String c s)
                      (resolvedPatterns H editable projectRoot) projectRoot).
        destruct (fst (isPathAllowed H (String c s) _ projectRoot))
          as [[|]|]; [discriminate | discriminate | congruence].
      * intros [Hpost _]. rewrite Hm in Hpost. discriminate.
    + destruct (String.eqb_spec (fr_method req) "POST") as [Hm'|Hm'].
      * unfold file_post.
        destruct (fr_body req) as [[|writePath writeContent]|].
        -- split; [intros _|reflexivity]. split; [exact Hm' | left; reflexivity].
        -- destruct writePath as [| |p|b]; cbn [js_truthy negb orb].
           ++ split; [discriminate|].
              intros [_ [E|(b & c & E & _)]]; discriminate.
           ++ split; [discriminate|].
              intros [_ [E|(b & c & E & _)]]; discriminate.
           ++ split.
              ** destruct (negb (truthy p)
                           || match writeContent with
                              | VUndefined => true
                              | _ => false
                              end); [discriminate|].
                 pose proof (isPathAllowed_total H p
                               (resolvedPatterns H editable projectRoot)
                               projectRoot).
                 destruct (fst (isPathAllowed H p _ projectRoot))
                   as [[|]|]; [discriminate | discriminate | congruence].
              ** intros [_ [E|(b & c & E & _)]]; discriminate.
           ++ destruct b; cbn [negb orb].
              ** destruct writeContent; cbn iota.
                 --- split; [discriminate|].
                     intros [_ [E|(b & c & E & _ & Hc)]]; [discriminate|].
                     injection E as _ <-. congruence.
                 --- split; [intros _|reflexivity]. split; [exact Hm'|].
                     right. exists true, VNull.
                     split; [reflexivity|]. split; [reflexivity|discriminate].
                 --- split; [intros _|reflexivity]. split; [exact Hm'|].
                     right. exists true, (VString s).
                     split; [reflexivity|]. split; [reflexivity|discriminate].
                 --- split; [intros _|reflexivity]. split; [exact Hm'|].
                     right. exists true, (VOther isTruthy).
                     split; [reflexivity|]. split; [reflexivity|discriminate].
              ** split; [discriminate|].
                 intros [_ [E|(b & c & E & Hb & _)]]; [discriminate|].
                 injection E as <- _. discriminate.
        -- split; [discriminate|].
           intros [_ [E|(b & c & E & _)]]; discriminate.
      * split; [discriminate|]. intros [Hpost _]. contradiction.
Qed.

Lemma to_utf8_cons c s :
  lone_surrogate_first (String c s) = false ->
  to_utf8 (String c s) = String c (to_utf8 s).
Proof.
  intros Hno. cbn [to_utf8]. destruct s as [|c2 [|c3 s3]]; try reflexivity.
  cbn [lone_surrogate_first] in Hno. rewrite Hno. reflexivity.
Qed.

(** A string without a lone surrogate is stored as it is. *)
Lemma to_utf8_well_formed s :
  has_lone_surrogate s = false -> to_utf8 s = s.
Proof.
  induction s as [|c s IH]; [reflexivity|].
  cbn [has_lone_surrogate]. intros Hno. apply orb_false_iff in Hno as [Hc Hs].
  rewrite (to_utf8_cons c s Hc), (IH Hs). reflexivity.
Qed.

Lemma after_calls_reads write H l :
  after_calls write H (map Fs l) = H.
Proof. induction l as [|e l IH]; [reflexivity | exact IH]. Qed.

Lemma after_calls_app write H l1 l2 :
  after_calls write H (l1 ++ l2) = after_calls write (after_calls write H l1) l2.
Proof. apply fold_left_app. Qed.

(** X16. What is written can be read back. Let a POST of a path that holds
    a regular file and of a string content be answered with status ok. Its
    last host call is the write of this content to the resolved path, and
    its other calls read only. On the host in which the calls of the POST
    have taken effect, the file holds the UTF-8 encoding of the content,
    and a GET of the same path is answered with it, under the same path:
    both methods resolve the path in the same way and pass the same gate.
    What is read back is the content itself when the content has no lone
    surrogate. *)
Theorem file_round_trip
    (H : Host) (writeFileSync : string -> JsValue -> option string)
    (editable : list string) (projectRoot p content : string) :
  let posted := file_route H writeFileSync editable projectRoot
                  (post p (VString content)) in
  let abs := resolve H projectRoot p in
  let H' := after_calls writeFileSync H (snd posted) in
  fst posted = Some (respond (written_body p)) ->
  fs_node H abs = Some NFile ->
  (exists reads,
     snd posted = map Fs reads ++ [EvWriteFile abs (VString content)])
  /\ writeFileSync abs (VString content) = None
  /\ fs_read H' abs = Some (to_utf8 content)
  /\ fst (file_route H' writeFileSync editable projectRoot (get_file p))
     = Some (respond (file_body p (to_utf8 content)))
  /\ (has_lone_surrogate content = false ->
      fst (file_route H' writeFileSync editable projectRoot (get_file p))
      = Some (respond (file_body p content))).
Proof.
  intros posted abs H' Hpost Hfile.
  assert (Hp : p <> EmptyString).
  { intros ->. discriminate Hpost. }
  assert (Hd : VString content <> VUndefined) by discriminate.
  subst H' posted.
  rewrite (file_post_value H _ _ _ p _ Hp Hd) in *. cbn zeta in *.
  fold abs in Hpost |- *.
  set (pats := resolveEditablePatterns H editable projectRoot) in *.
  destruct (fst (isPathAllowed H p pats projectRoot)) as [[|]|] eqn:Hallowed;
    [|discriminate Hpost..].
  cbn [fst snd] in *.
  destruct (writeFileSync abs (VString content)) as [msg|] eqn:Hwrite;
    [discriminate Hpost|].
  assert (EH : after_calls writeFileSync H
                 (called (isPathAllowed H p pats projectRoot)
                  ++ [EvWriteFile abs (VString content)])
               = overwritten H abs (to_utf8 content)).
  { rewrite after_calls_app. unfold called. rewrite after_calls_reads.
    cbn [after_calls fold_left after_call]. rewrite Hwrite. reflexivity. }
  rewrite EH.
  assert (Hget : fst (file_route (overwritten H abs (to_utf8 content))
                        writeFileSync editable projectRoot (get_file p))
                 = Some (respond (file_body p (to_utf8 content)))).
  { rewrite (file_get_value _ _ _ _ p Hp). cbn zeta.
    change (resolveEditablePatterns (overwritten H abs (to_utf8 content))
              editable projectRoot) with pats.
    change (isPathAllowed (overwritten H abs (to_utf8 content)) p pats
              projectRoot) with (isPathAllowed H p pats projectRoot).
    rewrite Hallowed.
    change (resolve (overwritten H abs (to_utf8 content)) projectRoot p)
      with abs.
    cbn [fst overwritten fs_read]. rewrite String.eqb_refl. reflexivity. }
  split; [eexists; reflexivity|]. split; [reflexivity|].
  split; [cbn [overwritten fs_read]; rewrite String.eqb_refl; reflexivity|].
  split; [exact Hget|].
  intros Hno. rewrite Hget, (to_utf8_well_formed content Hno). reflexivity.
Qed.

Lemma file_round_trip_witness :
  fst (file_route readme_host demo_write ["vendor"; "README.md"] "/proj"
         (post "README.md" (VString "# viagen 2")))
  = Some (respond (written_body "README.md"))
  /\ fs_node readme_host (resolve readme_host "/proj" "README.md") = Some NFile
  /\ has_lone_surrogate "# viagen 2" = false
  /\ fst (file_route
            (after_calls demo_write readme_host
               (snd (file_route readme_host demo_write ["vendor"; "README.md"]
                       "/proj" (post "README.md" (VString "# viagen 2")))))
            demo_write ["vendor"; "README.md"] "/proj" (get_file "README.md"))
     = Some (respond (file_body "README.md" "# viagen 2")).
Proof.
  assert (Hpost : fst (file_route readme_host demo_write
                         ["vendor"; "README.md"] "/proj"
                         (post "README.md" (VString "# viagen 2")))
                  = Some (respond (written_body "README.md"))).
  { vm_compute. reflexivity. }
  assert (Hfile : fs_node readme_host (resolve readme_host "/proj" "README.md")
                  = Some NFile).
  { vm_compute. reflexivity. }
  split; [exact Hpost|]. split; [exact Hfile|]. split; [reflexivity|].
  exact (proj2 (proj2 (proj2 (proj2
           (file_round_trip readme_host demo_write ["vendor"; "README.md"]
              "/proj" "README.md" "# viagen 2" Hpost Hfile)))) eq_refl).
Defined.

(** A lone surrogate is not read back: U+FFFD is. *)
Example lone_surrogate_is_replaced :
  has_lone_surrogate (String (ascii_of_N 237) (String (ascii_of_N 160)
                        (String (ascii_of_N 128) "x"))) = true
  /\ to_utf8 (String (ascii_of_N 237) (String (ascii_of_N 160)
                (String (ascii_of_N 128) "x"))) = replacement +:+ "x".
Proof. split; reflexivity. Qed.

(** ** The log buffer *)

Lemma push_entries toISOString writeFileSync b lvl msg now :
  Logger._entries (snd (Logger.push toISOString writeFileSync b lvl msg now))
  = (let pushed := Logger._entries b ++ [Logger.entry_of (lvl, msg, now)] in
     if Nat.ltb Logger.MAX_LOG_LINES (length pushed) then tl pushed
     else pushed)
  /\ Logger.logPath
       (snd (Logger.push toISOString writeFileSync b lvl msg now))
     = Logger.logPath b.
Proof. split; reflexivity. Qed.

Lemma push_entries_drop toISOString writeFileSync b lvl msg now :
  (length (Logger._entries b) <= Logger.MAX_LOG_LINES)%nat ->
  let pushed := Logger._entries b ++ [Logger.entry_of (lvl, msg, now)] in
  Logger._entries (snd (Logger.push toISOString writeFileSync b lvl msg now))
  = drop (length pushed - Logger.MAX_LOG_LINES) pushed.
Proof.
  intros Hlen pushed.
  rewrite (proj1 (push_entries toISOString writeFileSync b lvl msg now)).
  cbn zeta. fold pushed.
  assert (Hp : length pushed = S (length (Logger._entries b))).
  { subst pushed. rewrite length_app. cbn [length]. lia. }
  destruct (Nat.ltb_spec Logger.MAX_LOG_LINES (length pushed)) as [Hlt|Hge].
  - replace (length pushed - Logger.MAX_LOG_LINES)%nat with 1%nat by lia.
    destruct pushed; reflexivity.
  - replace (length pushed - Logger.MAX_LOG_LINES)%nat with 0%nat by lia.
    reflexivity.
Qed.

(** X17. The buffer keeps the most recent hundred entries. After any
    sequence of pushes onto a buffer that holds at most a hundred
    entries, the buffer holds the old entries followed by the pushed ones,
    in the order of the pushes, without the oldest ones in excess of a
    hundred; it never holds more than a hundred, and its log path is
    unchanged. *)
Theorem push_all_keeps_most_recent
    (toISOString : Z -> string) (writeFileSync : string -> string -> bool)
    (b : Logger.LogBuffer) (msgs : list Logger.Message) :
  (length (Logger._entries b) <= Logger.MAX_LOG_LINES)%nat ->
  let all := Logger._entries b ++ map Logger.entry_of msgs in
  let b' := Logger.push_all toISOString writeFileSync b msgs in
  Logger._entries b' = drop (length all - Logger.MAX_LOG_LINES) all
  /\ (length (Logger._entries b') <= Logger.MAX_LOG_LINES)%nat
  /\ Logger.logPath b' = Logger.logPath b.
Proof.
  revert b. induction msgs as [|[[lvl msg] now] msgs IH]; intros b Hlen.
  - cbn [map Logger.push_all fold_left]. rewrite app_nil_r.
    replace (length (Logger._entries b) - Logger.MAX_LOG_LINES)%nat
      with 0%nat by lia.
    cbn [drop]. auto.
  - cbn zeta. cbn [Logger.push_all fold_left fst snd map].
    set (b1 := snd (Logger.push toISOString writeFileSync b lvl msg now)).
    pose proof (push_entries_drop toISOString writeFileSync b lvl msg now Hlen)
      as H1. cbn zeta in H1. fold b1 in H1.
    set (X := Logger._entries b ++ [Logger.entry_of (lvl, msg, now)]) in *.
    assert (HX : length X = S (length (Logger._entries b))).
    { subst X. rewrite length_app. cbn [length]. lia. }
    assert (Hlen1 : (length (Logger._entries b1) <= Logger.MAX_LOG_LINES)%nat).
    { rewrite H1, length_drop. lia. }
    destruct (IH b1 Hlen1) as (He & Hl & Hp).
    fold (Logger.push_all toISOString writeFileSync b1 msgs).
    split; [|split; [exact Hl|exact Hp]].
    rewrite He, H1.
    replace (Logger._entries b ++ Logger.entry_of (lvl, msg, now)
             :: map Logger.entry_of msgs)
      with (X ++ map Logger.entry_of msgs)
      by (subst X; rewrite <- app_assoc; reflexivity).
    rewrite <- drop_app_le by lia.
    rewrite drop_drop. f_equal.
    rewrite length_drop, !length_app. lia.
Qed.

Lemma push_all_keeps_most_recent_witness :
  (length (Logger._entries Logger.new) <= Logger.MAX_LOG_LINES)%nat
  /\ length (Logger._entries
               (Logger.push_all (fun _ => "t") (fun _ _ => true) Logger.new
                  Logger.many_messages)) = 100%nat
  /\ Logger.timestamp
       <$> head (Logger._entries
                   (Logger.push_all (fun _ => "t") (fun _ _ => true)
                      Logger.new Logger.many_messages)) = Some 1.
Proof.
  assert (Hlen : (length (Logger._entries Logger.new)
                  <= Logger.MAX_LOG_LINES)%nat).
  { cbn. lia. }
  split; [exact Hlen|].
  destruct (push_all_keeps_most_recent (fun _ => "t") (fun _ _ => true)
              Logger.new Logger.many_messages Hlen) as (He & _ & _).
  rewrite He. split; vm_compute; reflexivity.
Defined.

Lemma append_nil_r (s : string) : s +:+ EmptyString = s.
Proof.
  induction s as [|c s IH]; [reflexivity|].
  rewrite append_cons, IH. reflexivity.
Qed.

Lemma ANSI_RE_other c s :
  c <> Logger.escape -> Logger.ANSI_RE (String c s) = None.
Proof.
  intros Hc. unfold Logger.ANSI_RE. destruct s as [|c2 rest]; [reflexivity|].
  destruct (Ascii.eqb_spec c Logger.escape); [contradiction|]. reflexivity.
Qed.

Lemma replace_from_plain t s :
  occurrences Logger.escape t = 0%nat ->
  Logger.replace_from 0 (t +:+ s) = t +:+ Logger.replace_from 0 s.
Proof.
  induction t as [|c t IH]; intros Ht.
  - rewrite !append_nil_l. reflexivity.
  - rewrite !append_cons. cbn [occurrences] in Ht.
    destruct (Ascii.eqb_spec c Logger.escape) as [E|NE]; [discriminate|].
    cbn [Logger.replace_from]. rewrite ANSI_RE_other by exact NE.
    rewrite IH by exact Ht. reflexivity.
Qed.

Lemma replace_from_skip a s :
  Logger.replace_from (String.length a) (a +:+ s) = Logger.replace_from 0 s.
Proof.
  induction a as [|c a IH].
  - rewrite append_nil_l. reflexivity.
  - rewrite append_cons. cbn [String.length Logger.replace_from]. exact IH.
Qed.

Lemma parameters_run p s :
  Logger.all_parameters p ->
  Logger.parameters (p +:+ String "m" s) = String.length p
  /\ String.get (String.length p) (p +:+ String "m" s) = Some "m"%char.
Proof.
  unfold Logger.all_parameters. induction p as [|c p IH]; intros Hp.
  - rewrite append_nil_l. split; reflexivity.
  - rewrite append_cons. cbn [Logger.parameters String.length] in *.
    destruct (Logger.is_parameter c); [|discriminate].
    injection Hp as Hp. destruct (IH Hp) as [H1 H2].
    split; [rewrite H1; reflexivity | exact H2].
Qed.

Lemma replace_from_sgr p s :
  Logger.all_parameters p ->
  Logger.replace_from 0 (Logger.sgr p +:+ s) = Logger.replace_from 0 s.
Proof.
  intros Hp. unfold Logger.sgr.
  rewrite append_cons, !append_assoc, append_cons, append_nil_l, append_cons.
  rewrite append_nil_l.
  destruct (parameters_run p s Hp) as [H1 H2].
  cbn [Logger.replace_from]. unfold Logger.ANSI_RE.
  rewrite Ascii.eqb_refl. cbn [Ascii.eqb andb Bool.eqb].
  rewrite H1, H2. cbn [Ascii.eqb Bool.eqb Nat.add Nat.pred].
  cbn [Logger.replace_from].
  change (String "m" s) with (String "m" EmptyString +:+ s).
  rewrite <- append_assoc.
  replace (S (String.length p))
    with (String.length (p +:+ String "m" EmptyString)).
  - apply replace_from_skip.
  - clear. induction p as [|c p IH]; [reflexivity|].
    rewrite append_cons. cbn [String.length]. rewrite IH. reflexivity.
Qed.

(** X18. What [push] removes from a message. Text without an escape
    character is kept as it is, up to the first escape character; a
    colour sequence (ESC, an opening bracket, digits and semicolons, the
    letter m) is dropped. So a text without escape characters comes out
    unchanged, and a plain text wrapped in two colour sequences comes out
    as the plain text. *)
Theorem replace_ANSI_strips_colours (p p' t s : string) :
  Logger.all_parameters p ->
  Logger.all_parameters p' ->
  occurrences Logger.escape t = 0%nat ->
  Logger.replace_ANSI (t +:+ Logger.sgr p +:+ s) = t +:+ Logger.replace_ANSI s
  /\ Logger.replace_ANSI t = t
  /\ Logger.replace_ANSI (Logger.sgr p +:+ t +:+ Logger.sgr p') = t.
Proof.
  intros Hp Hp' Ht. unfold Logger.replace_ANSI.
  assert (Hplain : Logger.replace_from 0 t = t).
  { rewrite <- (append_nil_r t) at 1. rewrite replace_from_plain by exact Ht.
    cbn [Logger.replace_from]. apply append_nil_r. }
  split; [|split].
  - rewrite replace_from_plain by exact Ht. rewrite replace_from_sgr by exact Hp.
    reflexivity.
  - exact Hplain.
  - rewrite replace_from_sgr by exact Hp.
    rewrite replace_from_plain by exact Ht.
    rewrite <- (append_nil_r (Logger.sgr p')).
    rewrite replace_from_sgr by exact Hp'.
    cbn [Logger.replace_from]. apply append_nil_r.
Qed.

Lemma replace_ANSI_strips_colours_witness :
  Logger.all_parameters "1;31"
  /\ Logger.all_parameters "0"
  /\ occurrences Logger.escape "Build failed" = 0%nat
  /\ Logger.replace_ANSI
       (Logger.sgr "1;31" +:+ "Build failed" +:+ Logger.sgr "0")
     = "Build failed".
Proof.
  split; [reflexivity|]. split; [reflexivity|]. split; [reflexivity|].
  apply (replace_ANSI_strips_colours "1;31" "0" "Build failed" EmptyString);
    reflexivity.
Defined.

(** X19. A wrapped logger method buffers before it logs. The buffer
    after the call is the buffer after [push], whether or not the log
    file could be written, and the text stored is the message without
    its colour sequences. When the write of the log file succeeds, or
    when the buffer was never initialised, the original method is called
    last, with the message as given; when the write throws, the call
    throws and the original method is never called, although the entry
    is in the buffer. *)
Theorem wrapped_buffers_first
    (toISOString : Z -> string) (writeFileSync : string -> string -> bool)
    (lvl : Logger.Level) (b : Logger.LogBuffer) (msg : string) (now : Z) :
  let out := Logger.wrapped toISOString writeFileSync lvl b msg now in
  let b' := snd out in
  let content := Logger.log_content toISOString (Logger._entries b') in
  b' = snd (Logger.push toISOString writeFileSync b lvl msg now)
  /\ last (Logger._entries b')
     = Some {| Logger.level := lvl; Logger.text := Logger.replace_ANSI msg;
               Logger.timestamp := now |}
  /\ (Logger.logPath b = None ->
      fst out = (Some tt, [Logger.EvLogger lvl msg]))
  /\ (forall p, Logger.logPath b = Some p -> p <> EmptyString ->
        fst out
        = if writeFileSync p content
          then (Some tt, [Logger.EvWriteLog p content;
                          Logger.EvLogger lvl msg])
          else (None, [Logger.EvWriteLog p content])).
Proof.
  cbn zeta.
  set (w := Logger.wrapped toISOString writeFileSync lvl b msg now).
  set (r := Logger.push toISOString writeFileSync b lvl msg now).
  assert (Hsnd : snd w = snd r).
  { subst w. unfold Logger.wrapped. fold r. destruct (fst (fst r)); reflexivity. }
  assert (Hfst : fst w = match fst (fst r) with
                         | Some _ => (Some tt, snd (fst r)
                                       ++ [Logger.EvLogger lvl msg])
                         | None => (None, snd (fst r))
                         end).
  { subst w. unfold Logger.wrapped. fold r. destruct (fst (fst r)); reflexivity. }
  rewrite Hsnd, Hfst. split; [reflexivity|]. split.
  - subst r.
    rewrite (proj1 (push_entries toISOString writeFileSync b lvl msg now)).
    cbn zeta.
    destruct (Nat.ltb Logger.MAX_LOG_LINES
                (length (Logger._entries b
                         ++ [Logger.entry_of (lvl, msg, now)]))) eqn:Hlt.
    + destruct (Logger._entries b) as [|e es]; [discriminate Hlt|].
      cbn [app tl]. apply last_snoc.
    + apply last_snoc.
  - split.
    + intros Hn. subst r. unfold Logger.push, Logger.flush.
      cbn [fst snd Logger.logPath]. rewrite Hn. reflexivity.
    + intros p Hp Hne. subst r. unfold Logger.push, Logger.flush.
      cbn [fst snd Logger.logPath Logger._entries]. rewrite Hp.
      destruct p as [|c p]; [congruence|].
      destruct (writeFileSync (String c p) _); reflexivity.
Qed.

(** ** The log route *)

Lemma js_gt_integers (a b : Z) :
  js_gt (Finite (inject_Z a)) (Finite (inject_Z b)) = (b <? a).
Proof.
  cbn [js_gt]. destruct (Z.ltb_spec b a) as [Hlt|Hge].
  - destruct (Qle_bool (inject_Z a) (inject_Z b)) eqn:E; [|reflexivity].
    apply Qle_bool_iff in E. rewrite <- Zle_Qle in E. lia.
  - assert (E : Qle_bool (inject_Z a) (inject_Z b) = true).
    { apply Qle_bool_iff. rewrite <- Zle_Qle. exact Hge. }
    rewrite E. reflexivity.
Qed.

Lemma sublist_List_filter {A} (f : A -> bool) (l : list A) :
  sublist (List.filter f l) l.
Proof.
  induction l as [|x l IH]; cbn [List.filter]; [constructor|].
  destruct (f x); [apply sublist_skip | apply sublist_cons]; exact IH.
Qed.

(** X20. What a GET of the log route returns, its URL being parsed. The
    body holds entries of the buffer, in the order of the buffer, and
    their number as [count]. Without a [since] parameter, with an empty
    one, or with one that is not a number or not a positive one, these
    are all the entries of the buffer. With a [since] that is a positive
    integer, they are exactly the entries whose timestamp is strictly
    greater: an entry stamped with that very instant is left out. *)
Theorem logs_route_since
    (Number : string -> JsNumber) (b : Logger.LogBuffer) (req : LogRequest)
    (sinceParam : option string) :
  lr_method req = "GET" ->
  lr_url req = Some sinceParam ->
  let entries := logs_entries Number b sinceParam in
  logs_route Number b req = Some (respond (logs_body entries))
  /\ field "count" (logs_body entries)
     = Some (JNum (Z.of_nat (length entries)))
  /\ sublist entries (Logger.getEntries b)
  /\ (sinceParam = None \/ sinceParam = Some EmptyString ->
      entries = Logger.getEntries b)
  /\ (forall s, sinceParam = Some s ->
        js_gt (Number s) (Finite 0) = false ->
        entries = Logger.getEntries b)
  /\ (forall s, sinceParam = Some s -> Number s = NaN ->
        entries = Logger.getEntries b)
  /\ (forall s t, sinceParam = Some s -> s <> EmptyString ->
        Number s = Finite (inject_Z t) -> 0 < t ->
        entries
        = List.filter (fun e => t <? Logger.timestamp e) (Logger.getEntries b)).
Proof.
  intros Hm Hu entries.
  split; [|split; [reflexivity|split; [|split; [|split; [|split]]]]].
  - unfold logs_route. rewrite Hm, Hu. reflexivity.
  - subst entries. unfold logs_entries.
    destruct (js_gt (since_of Number sinceParam) (Finite 0)); [|reflexivity].
    apply sublist_List_filter.
  - subst entries. intros [-> | ->]; reflexivity.
  - subst entries. intros s -> Hs. unfold logs_entries, since_of.
    destruct s as [|c s]; [reflexivity|]. rewrite Hs. reflexivity.
  - subst entries. intros s -> Hs. unfold logs_entries, since_of.
    destruct s as [|c s]; [reflexivity|]. rewrite Hs. reflexivity.
  - subst entries. intros s t -> Hne Hs Ht. unfold logs_entries, since_of.
    destruct s as [|c s]; [congruence|]. rewrite Hs.
    change (Finite 0) with (Finite (inject_Z 0)).
    rewrite js_gt_integers.
    destruct (Z.ltb_spec 0 t) as [_|Hle]; [|lia].
    apply List.filter_ext. intros e. apply js_gt_integers.
Qed.

Lemma logs_route_since_witness :
  lr_method (get_logs (Some "20")) = "GET"
  /\ demo_Number "20" = Finite (inject_Z 20)
  /\ map Logger.timestamp (Logger.getEntries demo_buffer) = [10; 20; 20; 30]
  /\ logs_route demo_Number demo_buffer (get_logs (Some "20"))
     = Some (respond (logs_body
               [{| Logger.level := Logger.Info; Logger.text := "New entry";
                   Logger.timestamp := 30 |}]))
  /\ logs_entries demo_Number demo_buffer (Some "abc")
     = Logger.getEntries demo_buffer.
Proof.
  split; [reflexivity|]. split; [reflexivity|].
  split; [vm_compute; reflexivity|].
  destruct (logs_route_since demo_Number demo_buffer (get_logs (Some "20"))
              (Some "20") eq_refl eq_refl) as (Hr & _ & _ & _ & _ & _ & Hf).
  destruct (logs_route_since demo_Number demo_buffer (get_logs (Some "abc"))
              (Some "abc") eq_refl eq_refl) as (_ & _ & _ & _ & _ & Hn & _).
  split.
  - rewrite Hr. rewrite (Hf "20" 20 eq_refl); [|discriminate|reflexivity|lia].
    vm_compute. reflexivity.
  - apply (Hn "abc"); reflexivity.
Defined.

(** ** The health route *)

Lemma env_set_true env key :
  env_set env key = true <-> exists v, env !! key = Some v /\ v <> EmptyString.
Proof.
  unfold env_set. destruct (env !! key) as [v|].
  - rewrite truthy_true. split.
    + intros Hv. exists v. auto.
    + intros (v' & E & Hv). injection E as ->. exact Hv.
  - split; [discriminate|]. intros (v & E & _). discriminate.
Qed.

(** X21. The health route answers with HTTP status 200 in every case;
    its [status] field is ok exactly when [configured] is true, which
    is exactly when ANTHROPIC_API_KEY or CLAUDE_ACCESS_TOKEN is set to a
    non-empty value (a variable set to the empty string counts as
    unset); its [git] field tells the same of GITHUB_TOKEN. Setting or
    changing any other variable does not change the answer, and
    GITHUB_TOKEN has no part in [status]. *)
Theorem health_route_configured (env : gmap string string) :
  let r := health_route env in
  let configured :=
    env_set env "ANTHROPIC_API_KEY" || env_set env "CLAUDE_ACCESS_TOKEN" in
  statusCode r = 200
  /\ body r = health_body configured (env_set env "GITHUB_TOKEN")
  /\ (field "status" (body r) = Some (JStr "ok")
      <-> field "configured" (body r) = Some (JBool true))
  /\ (field "status" (body r) = Some (JStr "ok")
      <-> exists key v,
            (key = "ANTHROPIC_API_KEY" \/ key = "CLAUDE_ACCESS_TOKEN")
            /\ env !! key = Some v /\ v <> EmptyString)
  /\ (forall key v,
        key <> "ANTHROPIC_API_KEY" -> key <> "CLAUDE_ACCESS_TOKEN" ->
        field "status" (body (health_route (<[key := v]> env)))
        = field "status" (body r)
        /\ (key <> "GITHUB_TOKEN" ->
            health_route (<[key := v]> env) = r)).
Proof.
  cbn zeta. unfold health_route.
  assert (Hset : forall key key' v, key <> key' ->
            env_set (<[key := v]> env) key' = env_set env key').
  { intros key key' v NE. unfold env_set.
    rewrite lookup_insert_ne by exact NE. reflexivity. }
  split; [|split; [|split; [|split]]].
  - destruct (env_set env "ANTHROPIC_API_KEY" || env_set env "CLAUDE_ACCESS_TOKEN");
      reflexivity.
  - destruct (env_set env "ANTHROPIC_API_KEY" || env_set env "CLAUDE_ACCESS_TOKEN");
      reflexivity.
  - destruct (env_set env "ANTHROPIC_API_KEY" || env_set env "CLAUDE_ACCESS_TOKEN");
      cbn; split; congruence.
  - destruct (env_set env "ANTHROPIC_API_KEY" || env_set env "CLAUDE_ACCESS_TOKEN")
      eqn:Hc; cbn.
    + split; [intros _|reflexivity].
      apply orb_true_iff in Hc as [Hc|Hc];
        apply env_set_true in Hc as (v & E & Hv).
      * exists "ANTHROPIC_API_KEY", v. auto.
      * exists "CLAUDE_ACCESS_TOKEN", v. auto.
    + split; [discriminate|].
      intros (key & v & Hk & E & Hv).
      apply orb_false_iff in Hc as [Ha Hb].
      assert (Ht : env_set env key = true).
      { apply env_set_true. exists v. auto. }
      destruct Hk as [-> | ->]; congruence.
  - intros key v Ha Hb. rewrite !Hset by assumption. split.
    + destruct (env_set env "ANTHROPIC_API_KEY" || env_set env "CLAUDE_ACCESS_TOKEN");
        reflexivity.
    + intros Hg. rewrite Hset by exact Hg. reflexivity.
Qed.

(** ** The callback server of the OAuth flow *)

(** X22. The callback server hands an authorization code on to the
    waiting flow only when the request carries a non-empty code together
    with a state equal to the expected one, and it answers 200 in that
    case only. A code with a missing or different state is answered 400
    and is dropped; so is a request with no code or an empty one, even
    when the state is right. *)
Theorem callback_requires_state
    (expectedState : string) (code state : option string) :
  let r := callback_handler expectedState code state in
  (forall c, cb_resolved r = Some c
             <-> code = Some c /\ c <> EmptyString
                 /\ state = Some expectedState)
  /\ (cb_status r = 200 <-> cb_resolved r <> None)
  /\ (cb_resolved r = None -> cb_status r = 400)
  /\ (state <> Some expectedState -> cb_resolved r = None)
  /\ (code = None \/ code = Some EmptyString ->
      r = {| cb_status := 400; cb_text := "Missing authorization code";
             cb_resolved := None |}).
Proof.
  cbn zeta. unfold callback_handler.
  destruct code as [[|a rest]|].
  - split; [|split; [|split; [|split]]]; cbn; try congruence; try lia.
    + intros c. split; [discriminate|]. intros (E & Hc & _).
      injection E as <-. congruence.
    + split; [discriminate|congruence].
  - destruct (bool_decide (state = Some expectedState)) eqn:Hs.
    + apply bool_decide_eq_true in Hs.
      split; [|split; [|split; [|split]]]; cbn; try congruence.
      * intros c. split.
        -- intros E. injection E as <-. split; [reflexivity|].
           split; [discriminate|exact Hs].
        -- intros (E & _). congruence.
      * split; [discriminate|reflexivity].
      * intros [E|E]; discriminate.
    + apply bool_decide_eq_false in Hs.
      split; [|split; [|split; [|split]]]; cbn; try congruence.
      * intros c. split; [discriminate|]. intros (_ & _ & E). contradiction.
      * split; [discriminate|congruence].
      * intros [E|E]; discriminate.
  - split; [|split; [|split; [|split]]]; cbn; try congruence.
    + intros c. split; [discriminate|]. intros (E & _). discriminate.
    + split; [discriminate|congruence].
Qed.

(** ** The host calls of a path-scoped diff *)

(** X23. A path-scoped diff of a path inside the repository runs the
    staged diff, then the unstaged one, each restricted to the path, and
    reads the file, joined to the repository root, only when both diffs
    were obtained and both are empty. Nothing else is read, and nothing
    is read at all when there is a diff to show. *)
Theorem getFileDiff_calls
    (H : Host) (g : SimpleGit) (repoRoot filePath : string) :
  inside H repoRoot filePath = true ->
  snd (getFileDiff H g repoRoot filePath)
  = match git_diff g ["--cached"; "--"; filePath] with
    | None => [EvGit (Diff ["--cached"; "--"; filePath])]
    | Some staged =>
        [EvGit (Diff ["--cached"; "--"; filePath]);
         EvGit (Diff ["--"; filePath])]
        ++ match git_diff g ["--"; filePath] with
           | Some unstaged =>
               if truthy staged || truthy unstaged then []
               else [EvReadFile (join H repoRoot filePath)]
           | None => []
           end
    end.
Proof.
  intros Hin. unfold getFileDiff. unfold inside in Hin.
  destruct (negb (startsWith (resolve H repoRoot filePath) (repoRoot +:+ "/"))
            && negb (resolve H repoRoot filePath =? repoRoot)%string) eqn:Hout.
  { apply andb_true_iff in Hout as [Ha Hb].
    apply negb_true_iff in Ha, Hb. rewrite Ha, Hb in Hin. discriminate. }
  unfold try_catch, bind, gitDiff, readFileSync, perform, ret; cbn [fst snd].
  destruct (git_diff g ["--cached"; "--"; filePath]) as [staged|];
    cbn [fst snd]; [|reflexivity].
  destruct (git_diff g ["--"; filePath]) as [unstaged|];
    cbn [fst snd]; [|reflexivity].
  destruct (truthy staged), (truthy unstaged); cbn [andb orb fst snd];
    try reflexivity.
  destruct (fs_read H (join H repoRoot filePath)); reflexivity.
Qed.

Lemma getFileDiff_calls_witness :
  inside repo_host "/repo" "new-file.txt" = true
  /\ snd (getFileDiff repo_host demo_git "/repo" "new-file.txt")
     = [EvGit (Diff ["--cached"; "--"; "new-file.txt"]);
        EvGit (Diff ["--"; "new-file.txt"]);
        EvReadFile "/repo/new-file.txt"]
  /\ inside repo_host "/repo" "existing.txt" = true
  /\ snd (getFileDiff repo_host demo_git "/repo" "existing.txt")
     = [EvGit (Diff ["--cached"; "--"; "existing.txt"]);
        EvGit (Diff ["--"; "existing.txt"])].
Proof.
  assert (H1 : inside repo_host "/repo" "new-file.txt" = true)
    by (vm_compute; reflexivity).
  assert (H2 : inside repo_host "/repo" "existing.txt" = true)
    by (vm_compute; reflexivity).
  split; [exact H1|]. split.
  { rewrite (getFileDiff_calls repo_host demo_git "/repo" "new-file.txt" H1).
    vm_compute. reflexivity. }
  split; [exact H2|].
  rewrite (getFileDiff_calls repo_host demo_git "/repo" "existing.txt" H2).
  vm_compute. reflexivity.
Defined.

(** ** The log buffer: errors and the log file *)

Lemma push_all_below_capacity toISOString writeFileSync msgs :
  forall b,
    (length (Logger._entries b) + length msgs <= Logger.MAX_LOG_LINES)%nat ->
    Logger._entries (Logger.push_all toISOString writeFileSync b msgs)
    = Logger._entries b ++ map Logger.entry_of msgs.
Proof.
  induction msgs as [|[[lvl msg] now] msgs IH]; intros b Hlen.
  - cbn [Logger.push_all fold_left map]. rewrite app_nil_r. reflexivity.
  - cbn [Logger.push_all fold_left fst snd map length] in *.
    set (b1 := snd (Logger.push toISOString writeFileSync b lvl msg now)).
    assert (H1 : Logger._entries b1
                 = Logger._entries b ++ [Logger.entry_of (lvl, msg, now)]).
    { subst b1.
      rewrite (proj1 (push_entries toISOString writeFileSync b lvl msg now)).
      cbn zeta.
      destruct (Nat.ltb_spec Logger.MAX_LOG_LINES
                  (length (Logger._entries b
                           ++ [Logger.entry_of (lvl, msg, now)])))
        as [Hlt|_]; [|reflexivity].
      rewrite length_app in Hlt. cbn [length] in Hlt. lia. }
    fold (Logger.push_all toISOString writeFileSync b1 msgs).
    rewrite IH.
    + rewrite H1, <- app_assoc. reflexivity.
    + rewrite H1, length_app. cbn [length]. lia.
Qed.

Lemma recentErrors_lines (entries : list Logger.LogEntry) (logPath : option string) :
  Forall (fun line => startsWith line "[WARN] " = true
                      \/ startsWith line "[ERROR] " = true)
    (Logger.recentErrors {| Logger._entries := entries;
                            Logger.logPath := logPath |}).
Proof.
  unfold Logger.recentErrors. cbn [Logger._entries].
  induction entries as [|e es IH]; [constructor|].
  cbn [List.filter]. destruct (Logger.level e) eqn:El; [exact IH| |].
  - cbn [map]. constructor; [|exact IH]. rewrite El. left.
    change ("[" +:+ Logger.toUpperCase Logger.Warn +:+ "] " +:+ Logger.text e)
      with ("[WARN] " +:+ Logger.text e).
    apply prefix_append.
  - cbn [map]. constructor; [|exact IH]. rewrite El. right.
    change ("[" +:+ Logger.toUpperCase Logger.Error +:+ "] " +:+ Logger.text e)
      with ("[ERROR] " +:+ Logger.text e).
    apply prefix_append.
Qed.

(** X24. What [recentErrors] shows. Every line begins with the level in
    capitals, WARN or ERROR, between brackets: an info entry is never
    shown. As long as the buffer does not overflow, pushing messages
    appends to the lines, in the order of the pushes, one line for each
    warning or error, made of its level and of its text without colour
    sequences, and nothing for the info messages. *)
Theorem recentErrors_after_pushes
    (toISOString : Z -> string) (writeFileSync : string -> string -> bool)
    (b : Logger.LogBuffer) (msgs : list Logger.Message) :
  (length (Logger._entries b) + length msgs <= Logger.MAX_LOG_LINES)%nat ->
  let b' := Logger.push_all toISOString writeFileSync b msgs in
  Logger.recentErrors b'
  = Logger.recentErrors b
    ++ map Logger.problem_line (List.filter Logger.is_problem msgs)
  /\ Forall (fun line => startsWith line "[WARN] " = true
                         \/ startsWith line "[ERROR] " = true)
       (Logger.recentErrors b').
Proof.
  intros Hlen b'. split.
  - unfold Logger.recentErrors. subst b'.
    rewrite (push_all_below_capacity _ _ msgs b Hlen).
    rewrite List.filter_app, map_app. f_equal.
    clear. induction msgs as [|[[lvl msg] now] msgs IH]; [reflexivity|].
    cbn [map List.filter Logger.entry_of Logger.level Logger.is_problem fst snd].
    destruct lvl; cbn [map]; rewrite IH; reflexivity.
  - destruct b' as [entries logPath]. apply recentErrors_lines.
Qed.

Lemma recentErrors_after_pushes_witness :
  Logger.recentErrors demo_buffer
  = ["[WARN] Deprecation warning"; "[ERROR] Build failed"].
Proof.
  assert (Hlen : (length (Logger._entries Logger.new) + 4
                  <= Logger.MAX_LOG_LINES)%nat).
  { unfold Logger.MAX_LOG_LINES. cbn. lia. }
  exact (proj1 (recentErrors_after_pushes (fun _ => "t") (fun _ _ => true)
                  Logger.new
                  [(Logger.Info, "Server started", 10);
                   (Logger.Warn, "Deprecation warning", 20);
                   (Logger.Error, "Build failed", 20);
                   (Logger.Info, "New entry", 30)] Hlen)).
Defined.

(** X25. When the log file is written. Before [init], a push writes
    nothing and cannot throw. [init] creates the directory .viagen under
    the project root and at once writes the entries held so far to
    server.log in it, a single empty line when there are none; when the
    directory cannot be created, [init] throws and the buffer is left
    without a log path. After [init], every push rewrites that file
    whole, with the entries kept after the push. *)
Theorem init_then_push
    (H : Host) (toISOString : Z -> string) (mkdirSync : string -> bool)
    (writeFileSync : string -> string -> bool)
    (b : Logger.LogBuffer) (projectRoot : string)
    (lvl : Logger.Level) (msg : string) (now : Z) :
  let dir := join H projectRoot ".viagen" in
  let p := join H dir "server.log" in
  let out := Logger.init H toISOString mkdirSync writeFileSync b projectRoot in
  (Logger.logPath b = None ->
   fst (Logger.push toISOString writeFileSync b lvl msg now) = (Some tt, []))
  /\ (mkdirSync dir = false -> out = ((None, [Logger.EvMkdir dir]), b))
  /\ (mkdirSync dir = true -> p <> EmptyString ->
      snd out = {| Logger._entries := Logger._entries b;
                   Logger.logPath := Some p |}
      /\ snd (fst out)
         = [Logger.EvMkdir dir;
            Logger.EvWriteLog p
              (Logger.log_content toISOString (Logger._entries b))]
      /\ (let pushed :=
            Logger.push toISOString writeFileSync (snd out) lvl msg now in
          snd (fst pushed)
          = [Logger.EvWriteLog p
               (Logger.log_content toISOString
                  (Logger._entries (snd pushed)))]))
  /\ Logger.log_content toISOString [] = nl.
Proof.
  cbn zeta. split; [|split; [|split]].
  - intros Hn. unfold Logger.push, Logger.flush.
    cbn [fst snd Logger.logPath]. rewrite Hn. reflexivity.
  - intros Hmk. unfold Logger.init. rewrite Hmk. reflexivity.
  - intros Hmk Hp. unfold Logger.init. rewrite Hmk. cbn [fst snd].
    split; [reflexivity|].
    unfold Logger.push, Logger.flush. cbn [fst snd Logger.logPath Logger._entries].
    destruct (join H (join H projectRoot ".viagen") "server.log") as [|c p];
      [congruence|].
    split; reflexivity.
  - reflexivity.
Qed.

Lemma init_then_push_witness :
  let out := Logger.init repo_host (fun _ => "t") (fun _ => true)
               (fun _ _ => true) Logger.new "/repo/site" in
  snd out = {| Logger._entries := [];
               Logger.logPath := Some "/repo/site/.viagen/server.log" |}
  /\ snd (fst out)
     = [Logger.EvMkdir "/repo/site/.viagen";
        Logger.EvWriteLog "/repo/site/.viagen/server.log" nl].
Proof.
  assert (Hp : join repo_host (join repo_host "/repo/site" ".viagen")
                 "server.log" <> EmptyString).
  { vm_compute. discriminate. }
  destruct (init_then_push repo_host (fun _ => "t") (fun _ => true)
              (fun _ _ => true) Logger.new "/repo/site" Logger.Info "x" 0)
    as (_ & _ & Hinit & _).
  destruct (Hinit eq_refl Hp) as (Hs & He & _).
  cbn zeta. rewrite Hs, He. split; vm_compute; reflexivity.
Defined.

(** X26. The log file can be split back into its lines. When the buffer
    holds at least one entry and no line of an entry contains a newline,
    the content written to the log file, split at the newlines, is the
    lines of the entries, in their order, followed by one empty piece
    for the final newline: one line per entry. *)
Theorem log_content_lines
    (toISOString : Z -> string) (entries : list Logger.LogEntry) :
  entries <> [] ->
  Forall (fun e => occurrences newline (Logger.log_line toISOString e) = 0%nat)
    entries ->
  split newline (Logger.log_content toISOString entries)
  = map (Logger.log_line toISOString) entries ++ [EmptyString]
  /\ length (split newline (Logger.log_content toISOString entries))
     = S (length entries).
Proof.
  intros Hne Hlines.
  assert (Hs : split newline (Logger.log_content toISOString entries)
               = map (Logger.log_line toISOString) entries ++ [EmptyString]).
  { unfold Logger.log_content, nl. rewrite split_app_sep.
    rewrite split_concat.
    - reflexivity.
    - destruct entries; [congruence|discriminate].
    - apply List.Forall_forall. intros line Hin.
      apply in_map_iff in Hin as (e & <- & He).
      exact (proj1 (List.Forall_forall _ _) Hlines e He). }
  split; [exact Hs|].
  rewrite Hs, length_app, length_map. cbn [length]. lia.
Qed.

Lemma log_content_lines_witness :
  split newline (Logger.log_content (fun _ => "t") (Logger._entries demo_buffer))
  = ["[t] [INFO] Server started"; "[t] [WARN] Deprecation warning";
     "[t] [ERROR] Build failed"; "[t] [INFO] New entry"; EmptyString].
Proof.
  refine (eq_trans
            (proj1 (log_content_lines (fun _ => "t")
                      (Logger._entries demo_buffer) _ _)) _).
  - vm_compute. discriminate.
  - vm_compute. repeat constructor.
  - vm_compute. reflexivity.
Defined.
